(** * crossdev::fs: a shallow embedding of the cross-platform filesystem layer

    The library has one interface (filesystem.hpp) and two implementations,
    filesystem_unix.cpp and filesystem_win.cpp.  Both are embedded here, each
    in a module of its own, over an abstract host (the system calls the code
    makes).  Calls that may throw FileSystemException live in a small state
    and exception monad whose state is the host's world together with the
    trace of host calls made so far. *)

From Stdlib Require Import String Ascii List Bool Arith Lia ZArith.
Import ListNotations.
Open Scope string_scope.

(** ** std::string operations used by the sources *)

Module StdString.

(** The two separator characters. *)
Definition slash : ascii := "/"%char.
Definition backslash : ascii := ascii_of_nat 92.

Definition is_separator (c : ascii) : bool :=
  Ascii.eqb c slash || Ascii.eqb c backslash.

(** [std::replace(s.begin(), s.end(), old_value, new_value)]. *)
Fixpoint replace (old_value new_value : ascii) (s : string) : string :=
  match s with
  | EmptyString => EmptyString
  | String c rest =>
      String (if Ascii.eqb c old_value then new_value else c)
             (replace old_value new_value rest)
  end.

(** [s.back()], defined on a non-empty string. *)
Fixpoint back (s : string) : option ascii :=
  match s with
  | EmptyString => None
  | String c EmptyString => Some c
  | String _ rest => back rest
  end.

(** [s.pop_back()]. *)
Fixpoint pop_back (s : string) : string :=
  match s with
  | EmptyString => EmptyString
  | String _ EmptyString => EmptyString
  | String c rest => String c (pop_back rest)
  end.

(** Membership of a character in a character set given as a string. *)
Fixpoint occurs (c : ascii) (s : string) : bool :=
  match s with
  | EmptyString => false
  | String a rest => Ascii.eqb a c || occurs c rest
  end.

(** [s.find_last_of(set)]; [None] stands for [std::string::npos]. *)
Fixpoint find_last_of (set : string) (s : string) : option nat :=
  match s with
  | EmptyString => None
  | String a rest =>
      match find_last_of set rest with
      | Some k => Some (S k)
      | None => if occurs a set then Some 0 else None
      end
  end.

(** [s.substr(pos, n)]. *)
Definition substr (pos n : nat) (s : string) : string := substring pos n s.

(** [s.substr(pos)]: from [pos] to the end. *)
Definition substr_from (pos : nat) (s : string) : string :=
  substring pos (String.length s - pos) s.

(** [s + c] for a single character. *)
Definition push_back (s : string) (c : ascii) : string := s ++ String c EmptyString.

Definition ends_with (c : ascii) (s : string) : bool :=
  match back s with
  | Some b => Ascii.eqb b c
  | None => false
  end.

(** The string ends in a separator of either kind. *)
Definition ends_with_separator (s : string) : bool :=
  match back s with
  | Some b => is_separator b
  | None => false
  end.

(** The string ends in two separators (of either kind) that follow at least
    one more character. *)
Definition doubly_terminated (s : string) : Prop :=
  exists r a b,
    s = push_back (push_back r a) b /\ r <> EmptyString /\
    is_separator a = true /\ is_separator b = true.

End StdString.

Import StdString.

(** ** Calls that may throw *)

(** What a call does: return a value, throw [FileSystemException(what)], or
    exhaust the recursion budget of the embedding. *)
Inductive outcome (A : Type) : Type :=
| Returns (a : A)
| Throws (what : string)
| OutOfFuel.

Arguments Returns {A} a.
Arguments Throws {A} what.
Arguments OutOfFuel {A}.

(** The state threaded through every call: the host's world and the host
    calls made so far, oldest first, each with whether it succeeded. *)
Record machine (W C : Type) : Type := Machine {
  world : W;
  trace : list (C * bool)
}.

Arguments Machine {W C} world trace.
Arguments world {W C} m.
Arguments trace {W C} m.

Definition M (W C A : Type) : Type := machine W C -> outcome A * machine W C.

Definition ret {W C A} (a : A) : M W C A := fun s => (Returns a, s).

Definition throw {W C A} (what : string) : M W C A := fun s => (Throws what, s).

Definition out_of_fuel {W C A} : M W C A := fun s => (OutOfFuel, s).

Definition bind {W C A B} (c : M W C A) (k : A -> M W C B) : M W C B :=
  fun s =>
    match c s with
    | (Returns a, s') => k a s'
    | (Throws what, s') => (Throws what, s')
    | (OutOfFuel, s') => (OutOfFuel, s')
    end.

Declare Scope fs_scope.
Delimit Scope fs_scope with fs.
Notation "x <- c ;; k" := (bind c (fun x => k))
  (at level 61, c at next level, right associativity) : fs_scope.
Notation "c ;; k" := (bind c (fun _ => k))
  (at level 61, right associativity) : fs_scope.
Open Scope fs_scope.

(** Record a host call in the trace and install the host's new world. *)
Definition host_call {W C} (c : C) (ok : bool) (w : W) (s : machine W C) : machine W C :=
  Machine w (trace s ++ [(c, ok)]).

(** A range-based [for] whose body returns nothing. *)
Fixpoint for_each {W C A} (body : A -> M W C unit) (range : list A) : M W C unit :=
  match range with
  | [] => ret tt
  | x :: rest => body x ;; for_each body rest
  end.

(** A loop that updates a local variable ([result]) at each element. *)
Fixpoint loop_over {W C A R} (body : A -> R -> M W C R) (range : list A) (acc : R)
  : M W C R :=
  match range with
  | [] => ret acc
  | x :: rest => acc' <- body x acc ;; loop_over body rest acc'
  end.

(** The call throws from no state. *)
Definition never_throws {W C A} (c : M W C A) : Prop :=
  forall s what, fst (c s) <> Throws what.

(** Whatever [c] does without exhausting its budget, [c'] does too. *)
Definition stable_under {W C A} (c c' : M W C A) : Prop :=
  forall s r s', c s = (r, s') -> r <> OutOfFuel -> c' s = (r, s').

(** Every host call [c] makes is one of the [allowed] ones. *)
Definition makes_only {W C A} (allowed : C -> bool) (c : M W C A) : Prop :=
  forall s, exists calls,
    trace (snd (c s)) = (trace s ++ calls)%list /\
    forallb (fun call => allowed (fst call)) calls = true.

(** [c] leaves the host's world as it found it. *)
Definition keeps_world {W C A} (c : M W C A) : Prop :=
  forall s, world (snd (c s)) = world s.

(** [c] only asks the host: [allowed] calls and the world untouched. *)
Definition asks_only {W C A} (allowed : C -> bool) (c : M W C A) : Prop :=
  makes_only allowed c /\ keeps_world c.

(** [l] is [l'] with some elements left out. *)
Inductive subsequence {A : Type} : list A -> list A -> Prop :=
| subsequence_nil : subsequence [] []
| subsequence_skip (x : A) (l l' : list A) : subsequence l l' -> subsequence l (x :: l')
| subsequence_keep (x : A) (l l' : list A) : subsequence l l' -> subsequence (x :: l) (x :: l').

Definition isSome {A} (o : option A) : bool :=
  match o with Some _ => true | None => false end.

(** The entries every host enumeration emits for the directory itself and
    its parent. *)
Definition is_dot_entry (name : string) : bool :=
  (name =? ".") || (name =? "..").

(** ** filesystem_unix.cpp *)

Module Unix.

(** *** The host: the POSIX calls the implementation makes *)

(** Values of <sys/stat.h> and <errno.h> (Linux). *)
Definition S_IFMT : Z := 61440.   (* 0170000 *)
Definition S_IFDIR : Z := 16384.  (* 0040000 *)
Definition S_IFREG : Z := 32768.  (* 0100000 *)
Definition S_ISDIR (st_mode : Z) : bool := (Z.land st_mode S_IFMT =? S_IFDIR)%Z.
Definition S_ISREG (st_mode : Z) : bool := (Z.land st_mode S_IFMT =? S_IFREG)%Z.
Definition EEXIST : Z := 17.

(** A host over worlds [W].  A call that fails leaves the world as it was.
    [opendir] gives the names the directory stream yields to [readdir], in
    the host's enumeration order; the stream is read while nothing is
    written, so reading it at once or entry by entry is the same. *)
Record host (W : Type) : Type := Host {
  stat : string -> W -> option Z;              (* st_mode when stat returns 0 *)
  opendir : string -> W -> option (list string);
  mkdir : string -> Z -> W -> W + Z;           (* errno when mkdir fails *)
  rmdir : string -> W -> option W;
  unlink : string -> W -> option W;
  rename : string -> string -> W -> option W;
  ifstream_open : string -> W -> bool;         (* std::ifstream opened *)
  ofstream_open : string -> W -> option W;     (* std::ofstream opened: created or truncated *)
  stream_copy : string -> string -> W -> W     (* dst << src.rdbuf(), its status never read *)
}.

Arguments stat {W} h _ _.
Arguments opendir {W} h _ _.
Arguments mkdir {W} h _ _ _.
Arguments rmdir {W} h _ _.
Arguments unlink {W} h _ _.
Arguments rename {W} h _ _ _.
Arguments ifstream_open {W} h _ _.
Arguments ofstream_open {W} h _ _.
Arguments stream_copy {W} h _ _ _.

(** The host calls, as they appear in a trace. *)
Inductive syscall : Type :=
| sys_stat (path : string)
| sys_opendir (path : string)
| sys_mkdir (path : string) (mode : Z)
| sys_rmdir (path : string)
| sys_unlink (path : string)
| sys_rename (oldpath newpath : string)
| sys_ifstream (path : string)
| sys_ofstream (path : string)
| sys_stream_copy (src dst : string).

(** The calls that only ask, and the calls that delete. *)
Definition is_query (c : syscall) : bool :=
  match c with
  | sys_stat _ | sys_opendir _ => true
  | _ => false
  end.

Definition is_removal (c : syscall) : bool :=
  match c with
  | sys_unlink _ | sys_rmdir _ => true
  | _ => false
  end.

(** *** Path *)

Record Path : Type := mkPath { m_path : string }.

(** [Path::Path(const std::string&)]. *)
Definition Path_Path (path : string) : Path :=
  (* Replace Windows backslashes with Unix forward slashes *)
  let m := replace backslash slash path in
  (* Remove trailing slash if not root *)
  if (1 <? String.length m)%nat && ends_with slash m
  then mkPath (pop_back m)
  else mkPath m.

Definition Path_toString (this : Path) : string := m_path this.

Definition Path_separator : ascii := slash.

(** [Path::parent()]. *)
Definition Path_parent (this : Path) : Path :=
  match find_last_of (String slash EmptyString) (m_path this) with
  | None => Path_Path "."
  | Some 0 => Path_Path "/"
  | Some pos => Path_Path (substr 0 pos (m_path this))
  end.

(** [Path::filename()]. *)
Definition Path_filename (this : Path) : string :=
  match find_last_of (String slash EmptyString) (m_path this) with
  | None => m_path this
  | Some pos => substr_from (pos + 1) (m_path this)
  end.

(** [Path::extension()]. *)
Definition Path_extension (this : Path) : string :=
  let filename := Path_filename this in
  match find_last_of "." filename with
  | None => EmptyString
  | Some pos => substr_from pos filename
  end.

(** [Path::getNative()]. *)
Definition Path_getNative (this : Path) : string := m_path this.

Record File : Type := mkFile { File_m_path : Path }.
Record Directory : Type := mkDirectory { Directory_m_path : Path }.

Section Calls.

Context {W : Type} (h : host W).

Local Abbreviation M := (M W syscall).

Definition do_stat (path : string) : M (option Z) :=
  fun s => let r := stat h path (world s) in
           (Returns r, host_call (sys_stat path) (isSome r) (world s) s).

Definition do_opendir (path : string) : M (option (list string)) :=
  fun s => let r := opendir h path (world s) in
           (Returns r, host_call (sys_opendir path) (isSome r) (world s) s).

(** The value is [None] when the call returned 0, the errno otherwise. *)
Definition do_mkdir (path : string) (mode : Z) : M (option Z) :=
  fun s => match mkdir h path mode (world s) with
           | inl w' => (Returns None, host_call (sys_mkdir path mode) true w' s)
           | inr errno => (Returns (Some errno), host_call (sys_mkdir path mode) false (world s) s)
           end.

Definition do_update (c : syscall) (r : option W) : M bool :=
  fun s => match r with
           | Some w' => (Returns true, host_call c true w' s)
           | None => (Returns false, host_call c false (world s) s)
           end.

Definition do_rmdir (path : string) : M bool :=
  fun s => do_update (sys_rmdir path) (rmdir h path (world s)) s.

Definition do_unlink (path : string) : M bool :=
  fun s => do_update (sys_unlink path) (unlink h path (world s)) s.

Definition do_rename (oldpath newpath : string) : M bool :=
  fun s => do_update (sys_rename oldpath newpath) (rename h oldpath newpath (world s)) s.

Definition do_ifstream (path : string) : M bool :=
  fun s => let r := ifstream_open h path (world s) in
           (Returns r, host_call (sys_ifstream path) r (world s) s).

Definition do_ofstream (path : string) : M bool :=
  fun s => do_update (sys_ofstream path) (ofstream_open h path (world s)) s.

Definition do_stream_copy (src dst : string) : M unit :=
  fun s => (Returns tt,
            host_call (sys_stream_copy src dst) true (stream_copy h src dst (world s)) s).

(** [Path::exists()]. *)
Definition Path_exists (this : Path) : M bool :=
  buffer <- do_stat (m_path this) ;;
  ret (isSome buffer).

(** [Path::isDirectory()]. *)
Definition Path_isDirectory (this : Path) : M bool :=
  buffer <- do_stat (m_path this) ;;
  match buffer with
  | None => ret false
  | Some st_mode => ret (S_ISDIR st_mode)
  end.

(** [Path::isFile()]. *)
Definition Path_isFile (this : Path) : M bool :=
  buffer <- do_stat (m_path this) ;;
  match buffer with
  | None => ret false
  | Some st_mode => ret (S_ISREG st_mode)
  end.

(** [File::exists()]: [m_path.exists() && m_path.isFile()]. *)
Definition File_exists (this : File) : M bool :=
  e <- Path_exists (File_m_path this) ;;
  if e then Path_isFile (File_m_path this) else ret false.

(** [File::copy(const Path&)]. *)
Definition File_copy (this : File) (destination : Path) : M unit :=
  src <- do_ifstream (Path_toString (File_m_path this)) ;;
  if negb src then throw "Could not open source file for copying" else
  dst <- do_ofstream (Path_toString destination) ;;
  if negb dst then throw "Could not open destination file for copying" else
  do_stream_copy (Path_toString (File_m_path this)) (Path_toString destination).

(** [File::remove()]. *)
Definition File_remove (this : File) : M unit :=
  r <- do_unlink (Path_toString (File_m_path this)) ;;
  if negb r then throw "Could not delete file" else ret tt.

(** [File::move(const Path&)]. *)
Definition File_move (this : File) (destination : Path) : M unit :=
  r <- do_rename (Path_toString (File_m_path this)) (Path_toString destination) ;;
  if negb r then
    (* If rename fails (possibly due to cross-device link), try copy and delete *)
    File_copy this destination ;;
    File_remove this
  else ret tt.

(** [Directory::exists()]: [m_path.exists() && m_path.isDirectory()]. *)
Definition Directory_exists (this : Directory) : M bool :=
  e <- Path_exists (Directory_m_path this) ;;
  if e then Path_isDirectory (Directory_m_path this) else ret false.

(** [Directory::create()]. *)
Definition Directory_create (this : Directory) : M unit :=
  r <- do_mkdir (Path_toString (Directory_m_path this)) 493 (* 0755 *) ;;
  match r with
  | None => ret tt
  | Some errno =>
      if negb (errno =? EEXIST)%Z then throw "Could not create directory" else ret tt
  end.

(** The body of the [while ((entry = readdir(dir)) != nullptr)] loop of
    [Directory::list]; [list_true] is the recursive call. *)
Definition list_entry (list_true : Directory -> M (list Path))
    (this : Directory) (recursive : bool) (name : string) (result : list Path)
  : M (list Path) :=
  (* Skip . and .. entries *)
  if is_dot_entry name then ret result else
  let fullPath := Path_Path (Path_toString (Directory_m_path this) ++ "/" ++ name) in
  let result := (result ++ [fullPath])%list in
  (* Recursively process directories if requested *)
  if recursive then
    isdir <- Path_isDirectory fullPath ;;
    if isdir then
      subDirContents <- list_true (mkDirectory fullPath) ;;
      ret (result ++ subDirContents)%list
    else ret result
  else ret result.

(** [Directory::list(bool recursive)].  [fuel] bounds the depth of the
    recursion. *)
Fixpoint Directory_list (fuel : nat) (this : Directory) (recursive : bool)
  : M (list Path) :=
  match fuel with
  | O => out_of_fuel
  | S fuel' =>
      dir <- do_opendir (Path_toString (Directory_m_path this)) ;;
      match dir with
      | None => ret []
      | Some entries =>
          loop_over
            (list_entry (fun sub => Directory_list fuel' sub true) this recursive)
            entries []
      end
  end.

(** The body of the [for (const Path& entry : contents)] loop of
    [Directory::remove]; [remove_true] is the recursive call. *)
Definition remove_entry (remove_true : Directory -> M unit) (entry : Path) : M unit :=
  isdir <- Path_isDirectory entry ;;
  if isdir then remove_true (mkDirectory entry) else File_remove (mkFile entry).

(** The last step of [Directory::remove]: the directory itself. *)
Definition remove_self (this : Directory) : M unit :=
  r <- do_rmdir (Path_toString (Directory_m_path this)) ;;
  if negb r then throw "Could not remove directory" else ret tt.

(** [Directory::remove(bool recursive)].  [fuel] bounds the depth of the
    recursion. *)
Fixpoint Directory_remove (fuel : nat) (this : Directory) (recursive : bool)
  : M unit :=
  match fuel with
  | O => out_of_fuel
  | S fuel' =>
      (if recursive then
         (* First remove contents *)
         contents <- Directory_list (S fuel') this false ;;
         for_each (remove_entry (fun sub => Directory_remove fuel' sub true)) contents
       else ret tt) ;;
      remove_self this
  end.

(** *** The listing in the words of the specification

    The immediate children are the names the host enumerates, "." and ".."
    left out, in enumeration order; the recursive listing puts each child
    before the recursive listing of that child (when it is a directory). *)

Definition is_directory (w : W) (p : Path) : bool :=
  match stat h (m_path p) w with
  | Some st_mode => S_ISDIR st_mode
  | None => false
  end.

Definition child_of (this : Directory) (name : string) : Path :=
  Path_Path (Path_toString (Directory_m_path this) ++ "/" ++ name).

Definition listed_names (w : W) (this : Directory) : list string :=
  match opendir h (Path_toString (Directory_m_path this)) w with
  | Some entries => filter (fun name => negb (is_dot_entry name)) entries
  | None => []
  end.

Definition spec_children (w : W) (this : Directory) : list Path :=
  map (child_of this) (listed_names w this).

Fixpoint spec_preorder (w : W) (depth : nat) (this : Directory) : list Path :=
  match depth with
  | O => []
  | S k =>
      flat_map
        (fun c => c :: (if is_directory w c then spec_preorder w k (mkDirectory c) else []))
        (spec_children w this)
  end.

(** The directories below [this] nest less than [depth] deep. *)
Fixpoint depth_within (w : W) (depth : nat) (this : Directory) : bool :=
  match depth with
  | O => false
  | S k =>
      forallb
        (fun c => negb (is_directory w c) || depth_within w k (mkDirectory c))
        (spec_children w this)
  end.

End Calls.

(** *** File contents: size, reading and writing *)

(** What the host does for the streams of the file functions.  [rdbuf]
    gives all the bytes an opened input stream yields; [ofstream_is_open]
    gives the world in which the file exists and is empty; [stream_write]
    is [file << content] and [file.write(...)], which differ in nothing on
    a POSIX host. *)
Record stream_host (W : Type) : Type := StreamHost {
  st_size : string -> W -> option Z;             (* st_size when stat returns 0 *)
  ifstream_is_open : string -> W -> bool;
  rdbuf : string -> W -> string;
  ofstream_is_open : string -> W -> option W;
  stream_write : string -> string -> W -> W
}.

Arguments st_size {W} _ _ _.
Arguments ifstream_is_open {W} _ _ _.
Arguments rdbuf {W} _ _ _.
Arguments ofstream_is_open {W} _ _ _.
Arguments stream_write {W} _ _ _ _.

Inductive stream_call : Type :=
| call_stat (path : string)
| call_ifstream (path : string)
| call_rdbuf (path : string)
| call_ofstream (path : string)
| call_write (path content : string).

Section Streams.

Context {W : Type} (io : stream_host W).

Local Abbreviation M := (M W stream_call).

(** [File::size()]. *)
Definition File_size (this : File) : M Z :=
  fun s =>
    let path := Path_toString (File_m_path this) in
    match st_size io path (world s) with
    | None => (Throws "Could not get file size", host_call (call_stat path) false (world s) s)
    | Some size => (Returns size, host_call (call_stat path) true (world s) s)
    end.

Definition open_for_reading (path : string) : M bool :=
  fun s => let r := ifstream_is_open io path (world s) in
           (Returns r, host_call (call_ifstream path) r (world s) s).

Definition open_for_writing (path : string) : M bool :=
  fun s => match ofstream_is_open io path (world s) with
           | Some w' => (Returns true, host_call (call_ofstream path) true w' s)
           | None => (Returns false, host_call (call_ofstream path) false (world s) s)
           end.

(** [File::readAsText()]. *)
Definition File_readAsText (this : File) : M string :=
  let path := Path_toString (File_m_path this) in
  opened <- open_for_reading path ;;
  if negb opened then throw "Could not open file for reading" else
  fun s => (Returns (rdbuf io path (world s)), host_call (call_rdbuf path) true (world s) s).

Definition write_stream (path content : string) : M unit :=
  fun s => (Returns tt,
            host_call (call_write path content) true (stream_write io path content (world s)) s).

(** [File::writeText(const std::string&)]. *)
Definition File_writeText (this : File) (content : string) : M unit :=
  let path := Path_toString (File_m_path this) in
  opened <- open_for_writing path ;;
  if negb opened then throw "Could not open file for writing" else
  write_stream path content.

(** [File::writeBinary(const std::vector<uint8_t>&)]: the bytes are written
    as characters. *)
Definition File_writeBinary (this : File) (content : list Byte.byte) : M unit :=
  let path := Path_toString (File_m_path this) in
  opened <- open_for_writing path ;;
  if negb opened then throw "Could not open file for writing" else
  write_stream path (string_of_list_byte content).

End Streams.

End Unix.

(** ** filesystem_win.cpp *)

Module Win.

(** *** The host: the Win32 calls the implementation makes *)

(** Values of <Windows.h>. *)
Definition INVALID_FILE_ATTRIBUTES : Z := 4294967295.  (* (DWORD)-1 *)
Definition FILE_ATTRIBUTE_DIRECTORY : Z := 16.         (* 0x10 *)
Definition ERROR_ALREADY_EXISTS : Z := 183.

(** [WIN32_FIND_DATAA], the two fields the code reads. *)
Record WIN32_FIND_DATAA : Type := FindData {
  cFileName : string;
  dwFileAttributes : Z
}.

(** A host over worlds [W].  A call that fails leaves the world as it was.
    [FindFirstFileA] gives the first entry found and the entries the later
    [FindNextFileA] calls give, in the host's enumeration order; [None] is
    [INVALID_HANDLE_VALUE]. *)
Record host (W : Type) : Type := Host {
  GetFileAttributesA : string -> W -> Z;
  FindFirstFileA : string -> W -> option (WIN32_FIND_DATAA * list WIN32_FIND_DATAA);
  CreateDirectoryA : string -> W -> W + Z;     (* GetLastError() when it fails *)
  RemoveDirectoryA : string -> W -> option W;
  DeleteFileA : string -> W -> option W;
  MoveFileA : string -> string -> W -> option W;
  CopyFileA : string -> string -> bool -> W -> option W
}.

Arguments GetFileAttributesA {W} h _ _.
Arguments FindFirstFileA {W} h _ _.
Arguments CreateDirectoryA {W} h _ _.
Arguments RemoveDirectoryA {W} h _ _.
Arguments DeleteFileA {W} h _ _.
Arguments MoveFileA {W} h _ _ _.
Arguments CopyFileA {W} h _ _ _ _.

(** The host calls, as they appear in a trace. *)
Inductive syscall : Type :=
| sys_GetFileAttributesA (path : string)
| sys_FindFirstFileA (pattern : string)
| sys_CreateDirectoryA (path : string)
| sys_RemoveDirectoryA (path : string)
| sys_DeleteFileA (path : string)
| sys_MoveFileA (existing new : string)
| sys_CopyFileA (existing new : string) (bFailIfExists : bool).

(** The calls that only ask, and the calls that delete. *)
Definition is_query (c : syscall) : bool :=
  match c with
  | sys_GetFileAttributesA _ | sys_FindFirstFileA _ => true
  | _ => false
  end.

Definition is_removal (c : syscall) : bool :=
  match c with
  | sys_DeleteFileA _ | sys_RemoveDirectoryA _ => true
  | _ => false
  end.

(** [attr & FILE_ATTRIBUTE_DIRECTORY], read as a condition. *)
Definition has_directory_bit (attr : Z) : bool :=
  negb (Z.land attr FILE_ATTRIBUTE_DIRECTORY =? 0)%Z.

(** *** Path *)

Record Path : Type := mkPath { m_path : string }.

(** [Path::Path(const std::string&)]. *)
Definition Path_Path (path : string) : Path :=
  (* Normalize path separators to Windows style *)
  mkPath (replace slash backslash path).

Definition Path_toString (this : Path) : string := m_path this.

Definition Path_separator : ascii := backslash.

(** [Path::parent()]; the character set is the two-character string of a
    backslash and a slash. *)
Definition Path_parent (this : Path) : Path :=
  match find_last_of (String backslash (String slash EmptyString)) (m_path this) with
  | None => Path_Path ""
  | Some pos => Path_Path (substr 0 pos (m_path this))
  end.

(** [Path::filename()]. *)
Definition Path_filename (this : Path) : string :=
  match find_last_of (String backslash (String slash EmptyString)) (m_path this) with
  | None => m_path this
  | Some pos => substr_from (pos + 1) (m_path this)
  end.

(** [Path::extension()]. *)
Definition Path_extension (this : Path) : string :=
  let filename := Path_filename this in
  match find_last_of "." filename with
  | None => EmptyString
  | Some pos => substr_from pos filename
  end.

(** [Path::getNative()]. *)
Definition Path_getNative (this : Path) : string := m_path this.

Record File : Type := mkFile { File_m_path : Path }.
Record Directory : Type := mkDirectory { Directory_m_path : Path }.

Section Calls.

Context {W : Type} (h : host W).

Local Abbreviation M := (M W syscall).

Definition do_GetFileAttributesA (path : string) : M Z :=
  fun s => let attr := GetFileAttributesA h path (world s) in
           (Returns attr,
            host_call (sys_GetFileAttributesA path)
                      (negb (attr =? INVALID_FILE_ATTRIBUTES)%Z) (world s) s).

Definition do_FindFirstFileA (pattern : string)
  : M (option (WIN32_FIND_DATAA * list WIN32_FIND_DATAA)) :=
  fun s => let r := FindFirstFileA h pattern (world s) in
           (Returns r, host_call (sys_FindFirstFileA pattern) (isSome r) (world s) s).

(** The value is [None] when the call succeeded, [GetLastError()] otherwise. *)
Definition do_CreateDirectoryA (path : string) : M (option Z) :=
  fun s => match CreateDirectoryA h path (world s) with
           | inl w' => (Returns None, host_call (sys_CreateDirectoryA path) true w' s)
           | inr err => (Returns (Some err), host_call (sys_CreateDirectoryA path) false (world s) s)
           end.

Definition do_update (c : syscall) (r : option W) : M bool :=
  fun s => match r with
           | Some w' => (Returns true, host_call c true w' s)
           | None => (Returns false, host_call c false (world s) s)
           end.

Definition do_RemoveDirectoryA (path : string) : M bool :=
  fun s => do_update (sys_RemoveDirectoryA path) (RemoveDirectoryA h path (world s)) s.

Definition do_DeleteFileA (path : string) : M bool :=
  fun s => do_update (sys_DeleteFileA path) (DeleteFileA h path (world s)) s.

Definition do_MoveFileA (existing new : string) : M bool :=
  fun s => do_update (sys_MoveFileA existing new) (MoveFileA h existing new (world s)) s.

Definition do_CopyFileA (existing new : string) (bFailIfExists : bool) : M bool :=
  fun s => do_update (sys_CopyFileA existing new bFailIfExists)
                     (CopyFileA h existing new bFailIfExists (world s)) s.

(** [Path::exists()]. *)
Definition Path_exists (this : Path) : M bool :=
  attr <- do_GetFileAttributesA (m_path this) ;;
  ret (negb (attr =? INVALID_FILE_ATTRIBUTES)%Z).

(** [Path::isDirectory()]. *)
Definition Path_isDirectory (this : Path) : M bool :=
  attr <- do_GetFileAttributesA (m_path this) ;;
  ret (negb (attr =? INVALID_FILE_ATTRIBUTES)%Z && has_directory_bit attr).

(** [Path::isFile()]. *)
Definition Path_isFile (this : Path) : M bool :=
  attr <- do_GetFileAttributesA (m_path this) ;;
  ret (negb (attr =? INVALID_FILE_ATTRIBUTES)%Z && negb (has_directory_bit attr)).

(** [File::exists()]: [m_path.exists() && m_path.isFile()]. *)
Definition File_exists (this : File) : M bool :=
  e <- Path_exists (File_m_path this) ;;
  if e then Path_isFile (File_m_path this) else ret false.

(** [File::copy(const Path&)]. *)
Definition File_copy (this : File) (destination : Path) : M unit :=
  r <- do_CopyFileA (Path_toString (File_m_path this)) (Path_toString destination) false ;;
  if negb r then throw "Could not copy file" else ret tt.

(** [File::move(const Path&)]. *)
Definition File_move (this : File) (destination : Path) : M unit :=
  r <- do_MoveFileA (Path_toString (File_m_path this)) (Path_toString destination) ;;
  if negb r then throw "Could not move file" else ret tt.

(** [File::remove()]. *)
Definition File_remove (this : File) : M unit :=
  r <- do_DeleteFileA (Path_toString (File_m_path this)) ;;
  if negb r then throw "Could not delete file" else ret tt.

(** [Directory::exists()]: [m_path.exists() && m_path.isDirectory()]. *)
Definition Directory_exists (this : Directory) : M bool :=
  e <- Path_exists (Directory_m_path this) ;;
  if e then Path_isDirectory (Directory_m_path this) else ret false.

(** [Directory::create()]. *)
Definition Directory_create (this : Directory) : M unit :=
  r <- do_CreateDirectoryA (Path_toString (Directory_m_path this)) ;;
  match r with
  | None => ret tt
  | Some err =>
      if negb (err =? ERROR_ALREADY_EXISTS)%Z then throw "Could not create directory"
      else ret tt
  end.

(** The body of the [do ... while (FindNextFileA(hFind, &findData))] loop
    of [Directory::list]; [list_true] is the recursive call. *)
Definition list_entry (list_true : Directory -> M (list Path))
    (this : Directory) (recursive : bool) (findData : WIN32_FIND_DATAA)
    (result : list Path) : M (list Path) :=
  let name := cFileName findData in
  (* Skip . and .. entries *)
  if is_dot_entry name then ret result else
  let fullPath :=
    Path_Path (Path_toString (Directory_m_path this) ++ String backslash name) in
  let result := (result ++ [fullPath])%list in
  (* Recursively process directories if requested *)
  if recursive && has_directory_bit (dwFileAttributes findData) then
    subDirContents <- list_true (mkDirectory fullPath) ;;
    ret (result ++ subDirContents)%list
  else ret result.

(** [Directory::list(bool recursive)].  [fuel] bounds the depth of the
    recursion. *)
Fixpoint Directory_list (fuel : nat) (this : Directory) (recursive : bool)
  : M (list Path) :=
  match fuel with
  | O => out_of_fuel
  | S fuel' =>
      let pattern := Path_toString (Directory_m_path this) ++ String backslash "*" in
      hFind <- do_FindFirstFileA pattern ;;
      match hFind with
      | Some (first, next) =>
          loop_over
            (list_entry (fun sub => Directory_list fuel' sub true) this recursive)
            (first :: next) []
      | None => ret []
      end
  end.

(** The body of the [for (const Path& entry : contents)] loop of
    [Directory::remove]; [remove_true] is the recursive call. *)
Definition remove_entry (remove_true : Directory -> M unit) (entry : Path) : M unit :=
  isdir <- Path_isDirectory entry ;;
  if isdir then remove_true (mkDirectory entry) else File_remove (mkFile entry).

(** The last step of [Directory::remove]: the directory itself. *)
Definition remove_self (this : Directory) : M unit :=
  r <- do_RemoveDirectoryA (Path_toString (Directory_m_path this)) ;;
  if negb r then throw "Could not remove directory" else ret tt.

(** [Directory::remove(bool recursive)].  [fuel] bounds the depth of the
    recursion. *)
Fixpoint Directory_remove (fuel : nat) (this : Directory) (recursive : bool)
  : M unit :=
  match fuel with
  | O => out_of_fuel
  | S fuel' =>
      (if recursive then
         (* First remove contents *)
         contents <- Directory_list (S fuel') this false ;;
         for_each (remove_entry (fun sub => Directory_remove fuel' sub true)) contents
       else ret tt) ;;
      remove_self this
  end.

(** *** The listing in the words of the specification

    The immediate children are the entries the host finds, "." and ".."
    left out, in enumeration order; the recursive listing puts each child
    before the recursive listing of that child (when the entry found has
    the directory attribute). *)

Definition is_directory (w : W) (p : Path) : bool :=
  let attr := GetFileAttributesA h (m_path p) w in
  negb (attr =? INVALID_FILE_ATTRIBUTES)%Z && has_directory_bit attr.

Definition child_of (this : Directory) (name : string) : Path :=
  Path_Path (Path_toString (Directory_m_path this) ++ String backslash name).

Definition listed_entries (w : W) (this : Directory) : list WIN32_FIND_DATAA :=
  match FindFirstFileA h (Path_toString (Directory_m_path this) ++ String backslash "*") w with
  | Some (first, next) =>
      filter (fun found => negb (is_dot_entry (cFileName found))) (first :: next)
  | None => []
  end.

Definition spec_children (w : W) (this : Directory) : list Path :=
  map (fun found => child_of this (cFileName found)) (listed_entries w this).

Fixpoint spec_preorder (w : W) (depth : nat) (this : Directory) : list Path :=
  match depth with
  | O => []
  | S k =>
      flat_map
        (fun found =>
           let c := child_of this (cFileName found) in
           c :: (if has_directory_bit (dwFileAttributes found)
                 then spec_preorder w k (mkDirectory c) else []))
        (listed_entries w this)
  end.

(** The directories below [this] nest less than [depth] deep. *)
Fixpoint depth_within (w : W) (depth : nat) (this : Directory) : bool :=
  match depth with
  | O => false
  | S k =>
      forallb
        (fun found =>
           negb (has_directory_bit (dwFileAttributes found))
           || depth_within w k (mkDirectory (child_of this (cFileName found))))
        (listed_entries w this)
  end.

End Calls.

End Win.

(** ** A model host

    A small file system on which the embedded code can be run: a table from
    path strings to nodes, a directory holding the names of its entries in
    enumeration order.  It serves as the concrete host of the examples; the
    theorems about the code hold for every host. *)

Module Model.

Inductive node : Type :=
| RegularFile (content : string)
| Folder (entries : list string).

Definition disk : Type := list (string * node).

Fixpoint lookup (path : string) (d : disk) : option node :=
  match d with
  | [] => None
  | (k, n) :: rest => if k =? path then Some n else lookup path rest
  end.

Definition child_path (sep : ascii) (dir name : string) : string :=
  dir ++ String sep name.

(** The name [path] has directly under [dir], if it lies there. *)
Definition name_under (sep : ascii) (dir path : string) : option string :=
  let pre := dir ++ String sep "" in
  if prefix pre path then
    let name := substring (String.length pre) (String.length path - String.length pre) path in
    if negb (occurs sep name) && negb (name =? "") then Some name else None
  else None.

Definition drop_entry (sep : ascii) (path : string) (kn : string * node) : string * node :=
  match kn with
  | (k, Folder es) => (k, Folder (filter (fun e => negb (child_path sep k e =? path)) es))
  | _ => kn
  end.

(** Remove the node at [path] and its entry in the directory above. *)
Definition detach (sep : ascii) (path : string) (d : disk) : disk :=
  map (drop_entry sep path) (filter (fun kn => negb (fst kn =? path)) d).

Definition add_entry (sep : ascii) (path : string) (kn : string * node) : string * node :=
  match kn with
  | (k, Folder es) =>
      match name_under sep k path with
      | Some name => (k, Folder (es ++ [name])%list)
      | None => kn
      end
  | _ => kn
  end.

Definition is_parent (sep : ascii) (path : string) (kn : string * node) : bool :=
  match kn with
  | (k, Folder _) => isSome (name_under sep k path)
  | _ => false
  end.

(** Add a node at [path]; fails when no directory of the disk is its parent. *)
Definition attach (sep : ascii) (path : string) (n : node) (d : disk) : option disk :=
  if existsb (is_parent sep path) d
  then Some (map (add_entry sep path) d ++ [(path, n)])%list
  else None.

(** Overwrite the node at [path]. *)
Definition store (path : string) (n : node) (d : disk) : disk :=
  map (fun kn => if fst kn =? path then (fst kn, n) else kn) d.

(** Create or overwrite a regular file. *)
Definition put_file (sep : ascii) (path content : string) (d : disk) : option disk :=
  match lookup path d with
  | Some (RegularFile _) => Some (store path (RegularFile content) d)
  | Some (Folder _) => None
  | None => attach sep path (RegularFile content) d
  end.

Definition remove_file (sep : ascii) (path : string) (d : disk) : option disk :=
  match lookup path d with
  | Some (RegularFile _) => Some (detach sep path d)
  | _ => None
  end.

Definition remove_empty_folder (sep : ascii) (path : string) (d : disk) : option disk :=
  match lookup path d with
  | Some (Folder []) => Some (detach sep path d)
  | _ => None
  end.

(** *** The POSIX host over a disk; [mount] is a directory on which another
    device is mounted, so that a rename across it fails (EXDEV). *)

Definition ENOENT : Z := 2.

Definition on_mount (mount path : string) : bool := prefix (mount ++ "/") path.

Definition posix_stat (path : string) (d : disk) : option Z :=
  match lookup path d with
  | Some (RegularFile _) => Some 33188%Z   (* S_IFREG | 0644 *)
  | Some (Folder _) => Some 16877%Z        (* S_IFDIR | 0755 *)
  | None => None
  end.

Definition posix_opendir (path : string) (d : disk) : option (list string) :=
  match lookup path d with
  | Some (Folder es) => Some ("." :: ".." :: es)
  | _ => None
  end.

Definition posix_mkdir (path : string) (mode : Z) (d : disk) : disk + Z :=
  match lookup path d with
  | Some _ => inr Unix.EEXIST
  | None =>
      match attach slash path (Folder []) d with
      | Some d' => inl d'
      | None => inr ENOENT
      end
  end.

Definition posix_rename (mount : string) (oldpath newpath : string) (d : disk)
  : option disk :=
  if xorb (on_mount mount oldpath) (on_mount mount newpath) then None
  else if oldpath =? newpath then
    match lookup oldpath d with Some _ => Some d | None => None end
  else
    match lookup oldpath d with
    | Some (RegularFile c) =>
        match put_file slash newpath c d with
        | Some d' => Some (detach slash oldpath d')
        | None => None
        end
    | _ => None
    end.

Definition posix_ifstream (path : string) (d : disk) : bool :=
  match lookup path d with
  | Some (RegularFile _) => true
  | _ => false
  end.

Definition posix_stream_copy (src dst : string) (d : disk) : disk :=
  match lookup src d with
  | Some (RegularFile c) => store dst (RegularFile c) d
  | _ => d
  end.

Definition posix (mount : string) : Unix.host disk :=
  Unix.Host disk
    posix_stat posix_opendir posix_mkdir
    (remove_empty_folder slash) (remove_file slash) (posix_rename mount)
    posix_ifstream (fun path => put_file slash path "") posix_stream_copy.

(** *** The Win32 host over a disk *)

Definition FILE_ATTRIBUTE_NORMAL : Z := 128.
Definition ERROR_PATH_NOT_FOUND : Z := 3.

Definition win_attributes (path : string) (d : disk) : Z :=
  match lookup path d with
  | Some (RegularFile _) => FILE_ATTRIBUTE_NORMAL
  | Some (Folder _) => Win.FILE_ATTRIBUTE_DIRECTORY
  | None => Win.INVALID_FILE_ATTRIBUTES
  end.

(** The pattern the code passes is a directory followed by a backslash and
    a star. *)
Definition win_find (pattern : string) (d : disk)
  : option (Win.WIN32_FIND_DATAA * list Win.WIN32_FIND_DATAA) :=
  let dir := substring 0 (String.length pattern - 2) pattern in
  if pattern =? dir ++ String backslash "*" then
    match lookup dir d with
    | Some (Folder es) =>
        Some (Win.FindData "." Win.FILE_ATTRIBUTE_DIRECTORY,
              Win.FindData ".." Win.FILE_ATTRIBUTE_DIRECTORY
              :: map (fun e => Win.FindData e (win_attributes (child_path backslash dir e) d)) es)
    | _ => None
    end
  else None.

Definition win_create_directory (path : string) (d : disk) : disk + Z :=
  match lookup path d with
  | Some _ => inr Win.ERROR_ALREADY_EXISTS
  | None =>
      match attach backslash path (Folder []) d with
      | Some d' => inl d'
      | None => inr ERROR_PATH_NOT_FOUND
      end
  end.

(** [MoveFileA] fails when the new name exists. *)
Definition win_move (existing new : string) (d : disk) : option disk :=
  match lookup existing d, lookup new d with
  | Some (RegularFile c), None =>
      match attach backslash new (RegularFile c) d with
      | Some d' => Some (detach backslash existing d')
      | None => None
      end
  | _, _ => None
  end.

Definition win_copy (existing new : string) (bFailIfExists : bool) (d : disk)
  : option disk :=
  match lookup existing d with
  | Some (RegularFile c) =>
      if bFailIfExists && isSome (lookup new d) then None
      else put_file backslash new c d
  | _ => None
  end.

Definition win32 : Win.host disk :=
  Win.Host disk
    win_attributes win_find win_create_directory
    (remove_empty_folder backslash) (remove_file backslash) win_move win_copy.

Definition boot {C : Type} (d : disk) : machine disk C := Machine d [].

End Model.

(** What the POSIX constructor does to a string that holds no backslash:
    one trailing slash goes, unless the string is that slash alone. *)
Definition strip_one (m : string) : string :=
  if (1 <? String.length m)%nat && ends_with slash m then pop_back m else m.

(** ** Sample disks, after the trees the test suite builds *)

Module Sample.

Import Model.

(** "Directory listing": two files and a subdirectory holding one file. *)
Definition listing : disk :=
  [ ("/tmp", Folder ["d"]);
    ("/tmp/d", Folder ["file1.txt"; "subdir"; "file2.txt"]);
    ("/tmp/d/file1.txt", RegularFile "File 1");
    ("/tmp/d/subdir", Folder ["subfile.txt"]);
    ("/tmp/d/subdir/subfile.txt", RegularFile "Subfile");
    ("/tmp/d/file2.txt", RegularFile "File 2") ].

(** "Recursive directory removal": three levels, files at each. *)
Definition nested : disk :=
  [ ("/tmp", Folder ["d"]);
    ("/tmp/d", Folder ["file1.txt"; "subdir1"; "subdir2"]);
    ("/tmp/d/file1.txt", RegularFile "File 1");
    ("/tmp/d/subdir1", Folder ["subfile1.txt"; "nested"]);
    ("/tmp/d/subdir1/subfile1.txt", RegularFile "Subfile 1");
    ("/tmp/d/subdir1/nested", Folder ["nested.txt"]);
    ("/tmp/d/subdir1/nested/nested.txt", RegularFile "Nested file");
    ("/tmp/d/subdir2", Folder ["subfile2.txt"]);
    ("/tmp/d/subdir2/subfile2.txt", RegularFile "Subfile 2") ].

(** A directory whose second entry cannot be deleted: its name holds a
    backslash, which the Path constructor turns into a slash, so the path
    the code unlinks names nothing. *)
Definition stubborn : disk :=
  [ ("/tmp", Folder ["d"]);
    ("/tmp/d", Folder ["file1.txt"; "we\ird"; "subdir2"]);
    ("/tmp/d/file1.txt", RegularFile "File 1");
    ("/tmp/d/we\ird", RegularFile "odd");
    ("/tmp/d/subdir2", Folder ["subfile2.txt"]);
    ("/tmp/d/subdir2/subfile2.txt", RegularFile "Subfile 2") ].

(** Two devices: the second is mounted on /mnt. *)
Definition two_devices : disk :=
  [ ("/tmp", Folder ["a.txt"]);
    ("/tmp/a.txt", RegularFile "Test content");
    ("/mnt", Folder ["usb"]);
    ("/mnt/usb", Folder []) ].

Definition unix_host : Unix.host disk := posix "/mnt".

(** The same host with every directory read-only: nothing can be renamed
    or unlinked, files can still be read and written. *)
Definition read_only_dirs : Unix.host disk :=
  Unix.Host disk
    posix_stat posix_opendir posix_mkdir
    (fun _ _ => None) (fun _ _ => None) (fun _ _ _ => None)
    posix_ifstream (fun path => put_file slash path "") posix_stream_copy.

(** Stream operations over a disk. *)
Definition unix_streams : Unix.stream_host disk :=
  Unix.StreamHost disk
    (fun path d =>
       match lookup path d with
       | Some (RegularFile c) => Some (Z.of_nat (String.length c))
       | Some (Folder _) => Some 4096%Z
       | None => None
       end)
    posix_ifstream
    (fun path d => match lookup path d with Some (RegularFile c) => c | _ => "" end)
    (fun path => put_file slash path "")
    (fun path content => store path (RegularFile content)).

Definition unix_dir (path : string) : Unix.Directory :=
  Unix.mkDirectory (Unix.Path_Path path).

Definition unix_file (path : string) : Unix.File :=
  Unix.mkFile (Unix.Path_Path path).

(** The same trees on a Windows volume. *)
Definition win_listing : disk :=
  [ ("C:\t", Folder ["d"]);
    ("C:\t\d", Folder ["file1.txt"; "subdir"; "file2.txt"]);
    ("C:\t\d\file1.txt", RegularFile "File 1");
    ("C:\t\d\subdir", Folder ["subfile.txt"]);
    ("C:\t\d\subdir\subfile.txt", RegularFile "Subfile");
    ("C:\t\d\file2.txt", RegularFile "File 2") ].

(** A directory with two files, the second about to be moved onto. *)
Definition win_two_files : disk :=
  [ ("C:\t", Folder ["a.txt"; "b.txt"]);
    ("C:\t\a.txt", RegularFile "Test content");
    ("C:\t\b.txt", RegularFile "old") ].

(** A directory that lists a file no longer on the disk (deleted by
    someone else since the directory was written). *)
Definition win_ghost : disk :=
  [ ("C:\t", Folder ["d"]);
    ("C:\t\d", Folder ["file1.txt"; "ghost.txt"; "subdir"]);
    ("C:\t\d\file1.txt", RegularFile "File 1");
    ("C:\t\d\subdir", Folder ["subfile.txt"]);
    ("C:\t\d\subdir\subfile.txt", RegularFile "Subfile") ].

(** A POSIX directory with two files whose names hold a backslash. *)
Definition dotted : disk :=
  [ ("/tmp", Folder ["d"]);
    ("/tmp/d", Folder [".\"; "\.."; "file1.txt"]);
    ("/tmp/d/.\", RegularFile "odd");
    ("/tmp/d/\..", RegularFile "odder");
    ("/tmp/d/file1.txt", RegularFile "File 1") ].


Definition win_dir (path : string) : Win.Directory :=
  Win.mkDirectory (Win.Path_Path path).

Definition win_file (path : string) : Win.File :=
  Win.mkFile (Win.Path_Path path).

End Sample.

(** * Properties *)

(** ** Strings *)

Section StringFacts.

Lemma append_assoc (a b c : string) : (a ++ b) ++ c = a ++ (b ++ c).
Proof. induction a as [|x a IH]; simpl; [reflexivity | now rewrite IH]. Qed.

Lemma append_empty_r (a : string) : a ++ "" = a.
Proof. induction a as [|x a IH]; simpl; [reflexivity | now rewrite IH]. Qed.

Lemma length_append (a b : string) :
  String.length (a ++ b) = String.length a + String.length b.
Proof. induction a as [|x a IH]; simpl; [reflexivity | now rewrite IH]. Qed.

Lemma snoc_cases (s : string) :
  s = "" \/ exists r c, s = push_back r c.
Proof.
  induction s as [|x s IH]; [now left | right].
  destruct IH as [-> | (r & c & ->)].
  - now exists "", x.
  - now exists (String x r), c.
Qed.

Lemma back_push_back (r : string) (c : ascii) : back (push_back r c) = Some c.
Proof.
  unfold push_back.
  induction r as [|x r IH]; simpl; [reflexivity |].
  destruct (r ++ String c "") eqn:E; [destruct r; discriminate | exact IH].
Qed.

Lemma pop_back_push_back (r : string) (c : ascii) : pop_back (push_back r c) = r.
Proof.
  unfold push_back.
  induction r as [|x r IH]; simpl; [reflexivity |].
  destruct (r ++ String c "") eqn:E; [destruct r; discriminate | now rewrite IH].
Qed.

Lemma length_push_back (r : string) (c : ascii) :
  String.length (push_back r c) = S (String.length r).
Proof. unfold push_back. rewrite length_append. simpl. lia. Qed.

Lemma push_back_inj (r r' : string) (c c' : ascii) :
  push_back r c = push_back r' c' -> r = r' /\ c = c'.
Proof.
  intros E. split.
  - apply (f_equal pop_back) in E. now rewrite !pop_back_push_back in E.
  - apply (f_equal back) in E. rewrite !back_push_back in E. congruence.
Qed.

Lemma ends_with_push_back (r : string) (c x : ascii) :
  ends_with x (push_back r c) = Ascii.eqb c x.
Proof. unfold ends_with. now rewrite back_push_back. Qed.

Lemma replace_append (a b : ascii) (s t : string) :
  replace a b (s ++ t) = replace a b s ++ replace a b t.
Proof. induction s as [|x s IH]; simpl; [reflexivity | now rewrite IH]. Qed.

Lemma replace_push_back (a b : ascii) (r : string) (c : ascii) :
  replace a b (push_back r c) = push_back (replace a b r) (if Ascii.eqb c a then b else c).
Proof. unfold push_back. now rewrite replace_append. Qed.

Lemma length_replace (a b : ascii) (s : string) :
  String.length (replace a b s) = String.length s.
Proof. induction s as [|x s IH]; simpl; [reflexivity | now rewrite IH]. Qed.

Lemma occurs_append (c : ascii) (s t : string) :
  occurs c (s ++ t) = occurs c s || occurs c t.
Proof.
  induction s as [|x s IH]; simpl; [reflexivity |].
  now rewrite IH, orb_assoc.
Qed.

Lemma occurs_replace (a b : ascii) (s : string) :
  a <> b -> occurs a (replace a b s) = false.
Proof.
  intros Hab. induction s as [|x s IH]; simpl; [reflexivity |].
  rewrite IH, orb_false_r.
  destruct (Ascii.eqb x a) eqn:E.
  - apply Ascii.eqb_neq. congruence.
  - exact E.
Qed.

Lemma replace_absent (a b : ascii) (s : string) :
  occurs a s = false -> replace a b s = s.
Proof.
  induction s as [|x s IH]; simpl; [reflexivity |].
  intros H. apply orb_false_elim in H as [Hx Hs].
  now rewrite Hx, IH.
Qed.

Lemma occurs_pop_back (c : ascii) (s : string) :
  occurs c s = false -> occurs c (pop_back s) = false.
Proof.
  destruct (snoc_cases s) as [-> | (r & x & ->)]; [easy |].
  rewrite pop_back_push_back. unfold push_back. rewrite occurs_append.
  intros H. now apply orb_false_elim in H.
Qed.

Lemma substring_prefix (a b : string) :
  substring 0 (String.length a) (a ++ b) = a.
Proof.
  induction a as [|x a IH]; simpl.
  - now destruct b.
  - now rewrite IH.
Qed.

Lemma find_last_of_append (set : string) (dir : string) (c : ascii) (name : string) :
  occurs c set = true -> find_last_of set name = None ->
  find_last_of set (dir ++ String c name) = Some (String.length dir).
Proof.
  intros Hc Hn. induction dir as [|x dir IH]; simpl.
  - now rewrite Hn, Hc.
  - now rewrite IH.
Qed.

Lemma find_last_of_char (c : ascii) (s : string) :
  occurs c s = false -> find_last_of (String c "") s = None.
Proof.
  induction s as [|x s IH]; simpl; [reflexivity |].
  intros H. apply orb_false_elim in H as [Hx Hs].
  rewrite (IH Hs), orb_false_r, Ascii.eqb_sym. now rewrite Hx.
Qed.

Lemma find_last_of_two (c1 c2 : ascii) (s : string) :
  occurs c1 s = false -> occurs c2 s = false ->
  find_last_of (String c1 (String c2 "")) s = None.
Proof.
  induction s as [|x s IH]; simpl; [reflexivity |].
  intros H1 H2.
  apply orb_false_elim in H1 as [Hx1 Hs1]. apply orb_false_elim in H2 as [Hx2 Hs2].
  rewrite (IH Hs1 Hs2), orb_false_r.
  rewrite (Ascii.eqb_sym c1), (Ascii.eqb_sym c2). now rewrite Hx1, Hx2.
Qed.

Lemma slash_not_backslash : slash <> backslash.
Proof. discriminate. Qed.

Lemma is_separator_replace (c : ascii) :
  Ascii.eqb (if Ascii.eqb c backslash then slash else c) slash = is_separator c.
Proof.
  unfold is_separator.
  destruct (Ascii.eqb c backslash) eqn:E; simpl.
  - now rewrite orb_true_r.
  - now rewrite orb_false_r.
Qed.

End StringFacts.

(** ** Path construction *)

Section PathFacts.

Lemma unix_path_strip (s : string) :
  Unix.Path_toString (Unix.Path_Path s) = strip_one (replace backslash slash s).
Proof.
  unfold Unix.Path_Path, strip_one.
  now destruct ((1 <? _)%nat && _).
Qed.

Lemma unix_path_no_backslash (s : string) :
  occurs backslash (Unix.Path_toString (Unix.Path_Path s)) = false.
Proof.
  rewrite unix_path_strip. unfold strip_one.
  assert (H : occurs backslash (replace backslash slash s) = false)
    by (apply occurs_replace; intros E; now apply slash_not_backslash).
  destruct (_ && _); [now apply occurs_pop_back | exact H].
Qed.

Lemma win_path_no_slash (s : string) :
  occurs slash (Win.Path_toString (Win.Path_Path s)) = false.
Proof. simpl. apply occurs_replace, slash_not_backslash. Qed.

Lemma win_path_idempotent (s : string) :
  Win.Path_toString (Win.Path_Path (Win.Path_toString (Win.Path_Path s)))
  = Win.Path_toString (Win.Path_Path s).
Proof. simpl. apply replace_absent, occurs_replace, slash_not_backslash. Qed.

Lemma unix_path_of_path (s : string) :
  Unix.Path_toString (Unix.Path_Path (Unix.Path_toString (Unix.Path_Path s)))
  = strip_one (Unix.Path_toString (Unix.Path_Path s)).
Proof.
  rewrite (unix_path_strip (Unix.Path_toString _)).
  now rewrite (replace_absent _ _ _ (unix_path_no_backslash s)).
Qed.

Lemma strip_one_push_back (r : string) (c : ascii) :
  strip_one (push_back r c) =
  if negb (String.length r =? 0)%nat && Ascii.eqb c slash then r else push_back r c.
Proof.
  unfold strip_one.
  rewrite length_push_back, ends_with_push_back, pop_back_push_back.
  now destruct r.
Qed.

Lemma push_back_not_self (r : string) (c : ascii) : r <> push_back r c.
Proof.
  intros E. apply (f_equal String.length) in E.
  rewrite length_push_back in E. lia.
Qed.

Lemma doubly_terminated_spec (r : string) (a b : ascii) :
  doubly_terminated (push_back (push_back r a) b) <->
  r <> "" /\ is_separator a = true /\ is_separator b = true.
Proof.
  split.
  - intros (r' & a' & b' & E & H).
    apply push_back_inj in E as [E ->]. apply push_back_inj in E as [-> ->].
    exact H.
  - intros H. now exists r, a, b.
Qed.

Lemma not_doubly_terminated_short (s : string) :
  String.length s < 2 -> ~ doubly_terminated s.
Proof.
  intros Hlen (r & a & b & -> & _).
  rewrite !length_push_back in Hlen. lia.
Qed.

(** The POSIX constructor leaves a trailing separator on a non-root path
    exactly on doubly terminated input. *)
Lemma unix_trailing_iff (s : string) :
  ends_with slash (Unix.Path_toString (Unix.Path_Path s)) = true /\
  Unix.Path_toString (Unix.Path_Path s) <> "/"
  <-> doubly_terminated s.
Proof.
  rewrite unix_path_strip.
  destruct (snoc_cases s) as [-> | (r1 & b & ->)].
  { simpl. split; [intros [H _]; discriminate |].
    intros H. exfalso. revert H. apply not_doubly_terminated_short. simpl. lia. }
  rewrite replace_push_back, strip_one_push_back, is_separator_replace.
  rewrite length_replace.
  destruct (snoc_cases r1) as [-> | (r & a & ->)].
  { simpl. rewrite ends_with_push_back, is_separator_replace.
    split.
    - intros [H1 H2]. exfalso. apply H2.
      unfold push_back. simpl.
      destruct (Ascii.eqb b backslash) eqn:E; [reflexivity |].
      unfold is_separator in H1. rewrite E, orb_false_r in H1.
      apply Ascii.eqb_eq in H1. now subst.
    - intros H. exfalso. revert H. apply not_doubly_terminated_short. simpl. lia. }
  rewrite doubly_terminated_spec, length_push_back. simpl.
  destruct (is_separator b) eqn:Hb.
  - rewrite replace_push_back, ends_with_push_back, is_separator_replace.
    split.
    + intros [Ha Hne]. repeat split; trivial.
      intros ->. apply Hne. simpl in *. unfold push_back. simpl.
      destruct (Ascii.eqb a backslash) eqn:E; [reflexivity |].
      unfold is_separator in Ha. rewrite E, orb_false_r in Ha.
      apply Ascii.eqb_eq in Ha. now subst.
    + intros (Hr & Ha & _). split; [exact Ha |].
      intros E. apply (f_equal String.length) in E.
      rewrite length_push_back, length_replace in E.
      destruct r; [now apply Hr | discriminate].
  - rewrite ends_with_push_back, is_separator_replace, Hb.
    split; [intros [H _]; discriminate | intros (_ & _ & H); discriminate].
Qed.

(** The POSIX constructor is idempotent exactly off doubly terminated
    input. *)
Lemma unix_idempotent_iff (s : string) :
  Unix.Path_toString (Unix.Path_Path (Unix.Path_toString (Unix.Path_Path s)))
  = Unix.Path_toString (Unix.Path_Path s)
  <-> ~ doubly_terminated s.
Proof.
  rewrite unix_path_of_path, <- unix_trailing_iff.
  set (p := Unix.Path_toString (Unix.Path_Path s)).
  destruct (snoc_cases p) as [-> | (r & c & ->)].
  { simpl. split; [intros _ [H _]; discriminate | reflexivity]. }
  rewrite strip_one_push_back, ends_with_push_back.
  destruct (Ascii.eqb c slash) eqn:Hc; rewrite ?andb_false_r, ?andb_true_r.
  - apply Ascii.eqb_eq in Hc. subst c.
    destruct r as [|x r]; simpl.
    + split; [intros _ [_ H]; now apply H | reflexivity].
    + split.
      * intros E. exfalso. now apply (push_back_not_self (String x r) slash).
      * intros H. exfalso. apply H. split; [reflexivity |].
        unfold push_back. simpl. destruct r; discriminate.
  - split; [intros _ [H _]; discriminate | reflexivity].
Qed.

Lemma win_trailing (s : string) :
  ends_with backslash (Win.Path_toString (Win.Path_Path s)) = ends_with_separator s.
Proof.
  simpl. destruct (snoc_cases s) as [-> | (r & c & ->)]; [reflexivity |].
  rewrite replace_push_back, ends_with_push_back.
  unfold ends_with_separator. rewrite back_push_back. unfold is_separator.
  destruct (Ascii.eqb c slash) eqn:E; simpl; [reflexivity |].
  reflexivity.
Qed.

End PathFacts.

(** ** Path::parent *)

Section ParentFacts.

Lemma unix_parent_no_separator (s : string) :
  occurs slash (Unix.Path_toString (Unix.Path_Path s)) = false ->
  Unix.Path_toString (Unix.Path_parent (Unix.Path_Path s)) = ".".
Proof.
  intros H. unfold Unix.Path_parent.
  change (Unix.m_path (Unix.Path_Path s)) with (Unix.Path_toString (Unix.Path_Path s)).
  now rewrite (find_last_of_char _ _ H).
Qed.

Lemma unix_parent_split (s dir name : string) :
  Unix.Path_toString (Unix.Path_Path s) = dir ++ String slash name ->
  occurs slash name = false ->
  Unix.Path_parent (Unix.Path_Path s) =
  match dir with
  | EmptyString => Unix.Path_Path "/"
  | _ => Unix.Path_Path dir
  end.
Proof.
  intros E Hname. unfold Unix.Path_parent.
  change (Unix.m_path (Unix.Path_Path s)) with (Unix.Path_toString (Unix.Path_Path s)).
  rewrite E, (find_last_of_append _ dir slash name).
  - destruct dir as [|x dir]; [reflexivity |].
    cbn [String.length]. unfold substr.
    now rewrite <- (substring_prefix (String x dir) (String slash name)) at 2.
  - reflexivity.
  - now apply find_last_of_char.
Qed.

Lemma unix_path_normalised (dir : string) :
  occurs backslash dir = false ->
  Unix.Path_toString (Unix.Path_Path dir) = strip_one dir.
Proof. intros H. now rewrite unix_path_strip, replace_absent. Qed.

Lemma win_parent_no_separator (s : string) :
  occurs backslash (Win.Path_toString (Win.Path_Path s)) = false ->
  Win.Path_toString (Win.Path_parent (Win.Path_Path s)) = "".
Proof.
  intros H. unfold Win.Path_parent.
  change (Win.m_path (Win.Path_Path s)) with (Win.Path_toString (Win.Path_Path s)).
  now rewrite (find_last_of_two _ _ _ H (win_path_no_slash s)).
Qed.

Lemma win_parent_split (s dir name : string) :
  Win.Path_toString (Win.Path_Path s) = dir ++ String backslash name ->
  occurs backslash name = false ->
  Win.Path_toString (Win.Path_parent (Win.Path_Path s)) = dir.
Proof.
  intros E Hname.
  pose proof (win_path_no_slash s) as Hs. rewrite E, occurs_append in Hs.
  apply orb_false_elim in Hs as [Hdir Hname']. simpl in Hname'.
  unfold Win.Path_parent.
  change (Win.m_path (Win.Path_Path s)) with (Win.Path_toString (Win.Path_Path s)).
  rewrite E, (find_last_of_append _ dir backslash name).
  - unfold substr. rewrite substring_prefix. simpl. now apply replace_absent.
  - reflexivity.
  - now apply find_last_of_two.
Qed.

End ParentFacts.

(** ** The monad *)

Section MonadFacts.

Context {W C : Type}.

Lemma for_each_app {A} (body : A -> M W C unit) (before after : list A) (s : machine W C) :
  for_each body (before ++ after) s = (for_each body before ;; for_each body after) s.
Proof.
  revert s. induction before as [|x before IH]; intros s; simpl.
  - reflexivity.
  - unfold bind. destruct (body x s) as [[[]|what|] s1]; try reflexivity.
    rewrite IH. reflexivity.
Qed.

Lemma for_each_stops {A} (body : A -> M W C unit) (before : list A) (x : A)
    (after : list A) (s s1 s2 : machine W C) (what : string) :
  for_each body before s = (Returns tt, s1) ->
  body x s1 = (Throws what, s2) ->
  for_each body (before ++ x :: after) s = (Throws what, s2).
Proof.
  intros Hb Hx. rewrite for_each_app. unfold bind at 1. rewrite Hb.
  simpl. unfold bind at 1. now rewrite Hx.
Qed.

End MonadFacts.

(** ** Directory::list on a POSIX host *)

Section UnixListing.

Context {W : Type} (h : Unix.host W).

Local Abbreviation M := (M W Unix.syscall).

Lemma unix_isDirectory_run (p : Unix.Path) (s : machine W Unix.syscall) :
  Unix.Path_isDirectory h p s =
  (Returns (Unix.is_directory h (world s) p),
   host_call (Unix.sys_stat (Unix.m_path p))
             (isSome (Unix.stat h (Unix.m_path p) (world s))) (world s) s).
Proof.
  unfold Unix.Path_isDirectory, Unix.is_directory, bind, Unix.do_stat.
  now destruct (Unix.stat h (Unix.m_path p) (world s)).
Qed.

Lemma unix_list_loop_flat (sub : Unix.Directory -> M (list Unix.Path))
    (this : Unix.Directory) (names : list string) :
  forall (acc : list Unix.Path) (s : machine W Unix.syscall),
    loop_over (Unix.list_entry h sub this false) names acc s =
    (Returns (acc ++ map (Unix.child_of this)
                         (filter (fun name => negb (is_dot_entry name)) names))%list, s).
Proof.
  induction names as [|name names IH]; intros acc s; simpl.
  - now rewrite app_nil_r.
  - unfold bind, Unix.list_entry at 1.
    destruct (is_dot_entry name); simpl.
    + apply IH.
    + rewrite IH. now rewrite <- app_assoc.
Qed.

Lemma unix_list_false (fuel : nat) (this : Unix.Directory) (s : machine W Unix.syscall) :
  Unix.Directory_list h (S fuel) this false s =
  (Returns (Unix.spec_children h (world s) this),
   host_call (Unix.sys_opendir (Unix.Path_toString (Unix.Directory_m_path this)))
             (isSome (Unix.opendir h (Unix.Path_toString (Unix.Directory_m_path this)) (world s)))
             (world s) s).
Proof.
  cbn [Unix.Directory_list]. unfold bind at 1, Unix.do_opendir at 1.
  unfold Unix.spec_children, Unix.listed_names.
  destruct (Unix.opendir h _ (world s)) as [entries|]; [|reflexivity].
  now rewrite unix_list_loop_flat.
Qed.

Lemma unix_list_loop_deep (sub : Unix.Directory -> M (list Unix.Path))
    (w : W) (k : nat) (this : Unix.Directory) :
  (forall c s, Unix.is_directory h w c = true ->
               Unix.depth_within h w k (Unix.mkDirectory c) = true ->
               world s = w ->
               exists s', sub (Unix.mkDirectory c) s =
                          (Returns (Unix.spec_preorder h w k (Unix.mkDirectory c)), s')
                          /\ world s' = w) ->
  forall (names : list string) (acc : list Unix.Path) (s : machine W Unix.syscall),
    world s = w ->
    forallb (fun c => negb (Unix.is_directory h w c)
                      || Unix.depth_within h w k (Unix.mkDirectory c))
            (map (Unix.child_of this)
                 (filter (fun name => negb (is_dot_entry name)) names)) = true ->
    exists s',
      loop_over (Unix.list_entry h sub this true) names acc s =
      (Returns (acc ++ flat_map
                  (fun c => c :: (if Unix.is_directory h w c
                                  then Unix.spec_preorder h w k (Unix.mkDirectory c)
                                  else []))
                  (map (Unix.child_of this)
                       (filter (fun name => negb (is_dot_entry name)) names)))%list, s')
      /\ world s' = w.
Proof.
  intros Hsub. induction names as [|name names IH]; intros acc s Hw Hdepth.
  - exists s. simpl. now rewrite app_nil_r.
  - cbn [loop_over]. unfold bind at 1, Unix.list_entry at 1.
    cbn [filter] in *.
    destruct (is_dot_entry name); cbn [negb] in *.
    + unfold ret at 1. now apply IH.
    + cbn [map forallb flat_map] in *.
      apply andb_prop in Hdepth as [Hc Hrest].
      fold (Unix.child_of this name).
      unfold bind at 1. rewrite unix_isDirectory_run, Hw.
      set (s1 := host_call _ _ _ s).
      assert (Hw1 : world s1 = w) by reflexivity.
      destruct (Unix.is_directory h w (Unix.child_of this name)) eqn:Hdir.
      * simpl in Hc.
        destruct (Hsub _ s1 Hdir Hc Hw1) as (s2 & Hrun & Hw2).
        unfold bind at 1. rewrite Hrun. unfold ret at 1.
        destruct (IH ((acc ++ [Unix.child_of this name])
                        ++ Unix.spec_preorder h w k (Unix.mkDirectory (Unix.child_of this name)))%list
                     s2 Hw2 Hrest) as (s3 & Hloop & Hw3).
        exists s3. split; [|exact Hw3].
        rewrite Hloop. f_equal. f_equal.
        now rewrite <- !app_assoc.
      * unfold ret at 1.
        destruct (IH (acc ++ [Unix.child_of this name])%list s1 Hw1 Hrest)
          as (s3 & Hloop & Hw3).
        exists s3. split; [|exact Hw3].
        rewrite Hloop. f_equal. f_equal.
        now rewrite <- !app_assoc.
Qed.

Lemma unix_list_true (n : nat) :
  forall (fuel : nat) (this : Unix.Directory) (s : machine W Unix.syscall),
    Unix.depth_within h (world s) n this = true -> n <= fuel ->
    exists s',
      Unix.Directory_list h fuel this true s =
      (Returns (Unix.spec_preorder h (world s) n this), s')
      /\ world s' = world s.
Proof.
  induction n as [|k IH]; intros fuel this s Hdepth Hfuel; [discriminate |].
  destruct fuel as [|fuel]; [lia |].
  cbn [Unix.Directory_list Unix.spec_preorder Unix.depth_within] in *.
  unfold bind at 1, Unix.do_opendir at 1.
  unfold Unix.spec_children, Unix.listed_names in *.
  set (s1 := host_call _ _ _ s).
  destruct (Unix.opendir h _ (world s)) as [entries|].
  - destruct (unix_list_loop_deep (fun sub => Unix.Directory_list h fuel sub true)
                (world s) k this) with (names := entries) (acc := @nil Unix.Path) (s := s1)
      as (s' & Hrun & Hw'); try reflexivity; try assumption.
    + intros c s0 _ Hc Hw0. rewrite <- Hw0. apply IH; [now rewrite Hw0 | lia].
    + exists s'. now split.
  - exists s1. now split.
Qed.

End UnixListing.

Section NeverThrows.

Context {W C : Type}.

Lemma ret_never_throws {A} (a : A) : never_throws (@ret W C A a).
Proof. intros s what. discriminate. Qed.

Lemma out_of_fuel_never_throws {A} : never_throws (@out_of_fuel W C A).
Proof. intros s what. discriminate. Qed.

Lemma bind_never_throws {A B} (c : M W C A) (k : A -> M W C B) :
  never_throws c -> (forall a, never_throws (k a)) -> never_throws (bind c k).
Proof.
  intros Hc Hk s what. unfold bind.
  specialize (Hc s). destruct (c s) as [[a|what'|] s1]; simpl in *.
  - apply Hk.
  - now destruct (Hc what').
  - discriminate.
Qed.

Lemma loop_over_never_throws {A R} (body : A -> R -> M W C R) (range : list A) :
  (forall x acc, never_throws (body x acc)) ->
  forall acc, never_throws (loop_over body range acc).
Proof.
  intros Hbody. induction range as [|x range IH]; intros acc; simpl.
  - apply ret_never_throws.
  - apply bind_never_throws; [apply Hbody | exact IH].
Qed.

End NeverThrows.

Section UnixCalls.

Context {W : Type} (h : Unix.host W).

Local Abbreviation M := (M W Unix.syscall).

Lemma unix_isDirectory_never_throws (p : Unix.Path) :
  never_throws (Unix.Path_isDirectory h p).
Proof. intros s what. now rewrite unix_isDirectory_run. Qed.

Lemma unix_list_entry_never_throws (sub : Unix.Directory -> M (list Unix.Path))
    (this : Unix.Directory) (recursive : bool) (name : string) (acc : list Unix.Path) :
  (forall d, never_throws (sub d)) ->
  never_throws (Unix.list_entry h sub this recursive name acc).
Proof.
  intros Hsub. unfold Unix.list_entry.
  destruct (is_dot_entry name); [apply ret_never_throws |].
  destruct recursive; [|apply ret_never_throws].
  apply bind_never_throws; [apply unix_isDirectory_never_throws |].
  intros [|]; [|apply ret_never_throws].
  apply bind_never_throws; [apply Hsub | intros; apply ret_never_throws].
Qed.

Lemma unix_list_never_throws (fuel : nat) :
  forall (this : Unix.Directory) (recursive : bool),
    never_throws (Unix.Directory_list h fuel this recursive).
Proof.
  induction fuel as [|fuel IH]; intros this recursive; cbn [Unix.Directory_list].
  - apply out_of_fuel_never_throws.
  - apply bind_never_throws; [intros s what; discriminate |].
    intros [entries|]; [|apply ret_never_throws].
    apply loop_over_never_throws. intros name acc.
    apply unix_list_entry_never_throws. intros d. apply IH.
Qed.

Lemma unix_list_cannot_open (fuel : nat) (this : Unix.Directory) (recursive : bool)
    (s : machine W Unix.syscall) :
  Unix.opendir h (Unix.Path_toString (Unix.Directory_m_path this)) (world s) = None ->
  fst (Unix.Directory_list h (S fuel) this recursive s) = Returns [].
Proof.
  intros H. cbn [Unix.Directory_list]. unfold bind, Unix.do_opendir. now rewrite H.
Qed.

Lemma unix_exists_run (p : Unix.Path) (s : machine W Unix.syscall) :
  Unix.Path_exists h p s =
  (Returns (isSome (Unix.stat h (Unix.m_path p) (world s))),
   host_call (Unix.sys_stat (Unix.m_path p))
             (isSome (Unix.stat h (Unix.m_path p) (world s))) (world s) s).
Proof. reflexivity. Qed.

Lemma unix_isFile_run (p : Unix.Path) (s : machine W Unix.syscall) :
  Unix.Path_isFile h p s =
  (Returns (match Unix.stat h (Unix.m_path p) (world s) with
            | Some st_mode => Unix.S_ISREG st_mode
            | None => false
            end),
   host_call (Unix.sys_stat (Unix.m_path p))
             (isSome (Unix.stat h (Unix.m_path p) (world s))) (world s) s).
Proof.
  unfold Unix.Path_isFile, bind, Unix.do_stat.
  now destruct (Unix.stat h (Unix.m_path p) (world s)).
Qed.

Lemma unix_file_exists (this : Unix.File) (s : machine W Unix.syscall) :
  exists b, fst (Unix.File_exists h this s) = Returns b /\
    (b = true <->
     exists st_mode,
       Unix.stat h (Unix.Path_toString (Unix.File_m_path this)) (world s) = Some st_mode
       /\ Unix.S_ISREG st_mode = true).
Proof.
  unfold Unix.File_exists, bind. rewrite unix_exists_run.
  unfold Unix.Path_toString.
  destruct (Unix.stat h _ (world s)) as [st_mode|] eqn:E; cbn [isSome].
  - rewrite unix_isFile_run. cbn [world host_call]. rewrite E.
    exists (Unix.S_ISREG st_mode). split; [reflexivity |].
    split; [intros H; now exists st_mode | intros (m & Hm & H); congruence].
  - exists false. split; [reflexivity |].
    split; [discriminate | intros (m & Hm & _); discriminate].
Qed.

Lemma unix_directory_exists (this : Unix.Directory) (s : machine W Unix.syscall) :
  exists b, fst (Unix.Directory_exists h this s) = Returns b /\
    (b = true <->
     exists st_mode,
       Unix.stat h (Unix.Path_toString (Unix.Directory_m_path this)) (world s) = Some st_mode
       /\ Unix.S_ISDIR st_mode = true).
Proof.
  unfold Unix.Directory_exists, bind. rewrite unix_exists_run.
  unfold Unix.Path_toString.
  destruct (Unix.stat h _ (world s)) as [st_mode|] eqn:E; cbn [isSome].
  - rewrite unix_isDirectory_run. unfold Unix.is_directory.
    cbn [world host_call]. rewrite E.
    exists (Unix.S_ISDIR st_mode). split; [reflexivity |].
    split; [intros H; now exists st_mode | intros (m & Hm & H); congruence].
  - exists false. split; [reflexivity |].
    split; [discriminate | intros (m & Hm & _); discriminate].
Qed.

(** Recursive removal, one level unfolded. *)
Lemma unix_remove_true (fuel : nat) (this : Unix.Directory) (s : machine W Unix.syscall) :
  Unix.Directory_remove h (S fuel) this true s =
  (for_each (Unix.remove_entry h (fun sub => Unix.Directory_remove h fuel sub true))
            (Unix.spec_children h (world s) this) ;;
   Unix.remove_self h this)
    (snd (Unix.Directory_list h (S fuel) this false s)).
Proof.
  cbn [Unix.Directory_remove]. unfold bind at 1 2.
  now rewrite unix_list_false.
Qed.

Lemma unix_move_renamed (this : Unix.File) (destination : Unix.Path)
    (s : machine W Unix.syscall) (w' : W) :
  Unix.rename h (Unix.Path_toString (Unix.File_m_path this))
              (Unix.Path_toString destination) (world s) = Some w' ->
  Unix.File_move h this destination s =
  (Returns tt,
   host_call (Unix.sys_rename (Unix.Path_toString (Unix.File_m_path this))
                              (Unix.Path_toString destination)) true w' s).
Proof.
  intros H. unfold Unix.File_move, bind, Unix.do_rename, Unix.do_update.
  now rewrite H.
Qed.

Lemma unix_move_fallback (this : Unix.File) (destination : Unix.Path)
    (s : machine W Unix.syscall) :
  Unix.rename h (Unix.Path_toString (Unix.File_m_path this))
              (Unix.Path_toString destination) (world s) = None ->
  Unix.File_move h this destination s =
  (Unix.File_copy h this destination ;; Unix.File_remove h this)
    (host_call (Unix.sys_rename (Unix.Path_toString (Unix.File_m_path this))
                                (Unix.Path_toString destination)) false (world s) s).
Proof.
  intros H. unfold Unix.File_move, bind at 1, Unix.do_rename, Unix.do_update.
  now rewrite H.
Qed.


Lemma unix_create_run (this : Unix.Directory) (s : machine W Unix.syscall) :
  Unix.Directory_create h this s =
  match Unix.mkdir h (Unix.Path_toString (Unix.Directory_m_path this)) 493 (world s) with
  | inl w' =>
      (Returns tt,
       host_call (Unix.sys_mkdir (Unix.Path_toString (Unix.Directory_m_path this)) 493)
                 true w' s)
  | inr errno =>
      (if (errno =? Unix.EEXIST)%Z then Returns tt else Throws "Could not create directory",
       host_call (Unix.sys_mkdir (Unix.Path_toString (Unix.Directory_m_path this)) 493)
                 false (world s) s)
  end.
Proof.
  unfold Unix.Directory_create, bind, Unix.do_mkdir.
  destruct (Unix.mkdir h _ 493 (world s)) as [w'|errno]; [reflexivity |].
  now destruct (errno =? Unix.EEXIST)%Z.
Qed.

End UnixCalls.

(** ** The Win32 implementation *)

Section WinCalls.

Context {W : Type} (h : Win.host W).

Local Abbreviation M := (M W Win.syscall).

Lemma win_list_loop_flat (sub : Win.Directory -> M (list Win.Path))
    (this : Win.Directory) (found : list Win.WIN32_FIND_DATAA) :
  forall (acc : list Win.Path) (s : machine W Win.syscall),
    loop_over (Win.list_entry sub this false) found acc s =
    (Returns (acc ++ map (fun f => Win.child_of this (Win.cFileName f))
                         (filter (fun f => negb (is_dot_entry (Win.cFileName f))) found))%list,
     s).
Proof.
  induction found as [|f found IH]; intros acc s; simpl.
  - now rewrite app_nil_r.
  - unfold bind, Win.list_entry at 1.
    destruct (is_dot_entry (Win.cFileName f)); simpl.
    + apply IH.
    + rewrite IH. now rewrite <- app_assoc.
Qed.

Lemma win_list_false (fuel : nat) (this : Win.Directory) (s : machine W Win.syscall) :
  Win.Directory_list h (S fuel) this false s =
  (Returns (Win.spec_children h (world s) this),
   host_call
     (Win.sys_FindFirstFileA
        (Win.Path_toString (Win.Directory_m_path this) ++ String backslash "*"))
     (isSome (Win.FindFirstFileA h
                (Win.Path_toString (Win.Directory_m_path this) ++ String backslash "*")
                (world s)))
     (world s) s).
Proof.
  cbn [Win.Directory_list]. unfold bind at 1, Win.do_FindFirstFileA at 1.
  unfold Win.spec_children, Win.listed_entries.
  destruct (Win.FindFirstFileA h _ (world s)) as [[first next]|]; [|reflexivity].
  now rewrite win_list_loop_flat.
Qed.

Lemma win_list_loop_deep (sub : Win.Directory -> M (list Win.Path))
    (w : W) (k : nat) (this : Win.Directory) :
  (forall c s, Win.depth_within h w k (Win.mkDirectory c) = true ->
               world s = w ->
               exists s', sub (Win.mkDirectory c) s =
                          (Returns (Win.spec_preorder h w k (Win.mkDirectory c)), s')
                          /\ world s' = w) ->
  forall (found : list Win.WIN32_FIND_DATAA) (acc : list Win.Path)
         (s : machine W Win.syscall),
    world s = w ->
    forallb (fun f => negb (Win.has_directory_bit (Win.dwFileAttributes f))
                      || Win.depth_within h w k
                           (Win.mkDirectory (Win.child_of this (Win.cFileName f))))
            (filter (fun f => negb (is_dot_entry (Win.cFileName f))) found) = true ->
    exists s',
      loop_over (Win.list_entry sub this true) found acc s =
      (Returns (acc ++ flat_map
                  (fun f =>
                     let c := Win.child_of this (Win.cFileName f) in
                     c :: (if Win.has_directory_bit (Win.dwFileAttributes f)
                           then Win.spec_preorder h w k (Win.mkDirectory c)
                           else []))
                  (filter (fun f => negb (is_dot_entry (Win.cFileName f))) found))%list, s')
      /\ world s' = w.
Proof.
  intros Hsub. induction found as [|f found IH]; intros acc s Hw Hdepth.
  - exists s. simpl. now rewrite app_nil_r.
  - cbn [loop_over]. unfold bind at 1, Win.list_entry at 1.
    cbn [filter] in *.
    destruct (is_dot_entry (Win.cFileName f)); cbn [negb] in *.
    + unfold ret at 1. now apply IH.
    + cbn [forallb flat_map andb] in *.
      apply andb_prop in Hdepth as [Hc Hrest].
      fold (Win.child_of this (Win.cFileName f)).
      destruct (Win.has_directory_bit (Win.dwFileAttributes f)) eqn:Hdir.
      * simpl in Hc.
        destruct (Hsub _ s Hc Hw) as (s2 & Hrun & Hw2).
        unfold bind at 1. rewrite Hrun. unfold ret at 1.
        destruct (IH ((acc ++ [Win.child_of this (Win.cFileName f)])
                        ++ Win.spec_preorder h w k
                             (Win.mkDirectory (Win.child_of this (Win.cFileName f))))%list
                     s2 Hw2 Hrest) as (s3 & Hloop & Hw3).
        exists s3. split; [|exact Hw3].
        rewrite Hloop. f_equal. f_equal. cbn zeta.
        now rewrite <- !app_assoc.
      * unfold ret at 1.
        destruct (IH (acc ++ [Win.child_of this (Win.cFileName f)])%list s Hw Hrest)
          as (s3 & Hloop & Hw3).
        exists s3. split; [|exact Hw3].
        rewrite Hloop. f_equal. f_equal. cbn zeta.
        now rewrite <- !app_assoc.
Qed.

Lemma win_list_true (n : nat) :
  forall (fuel : nat) (this : Win.Directory) (s : machine W Win.syscall),
    Win.depth_within h (world s) n this = true -> n <= fuel ->
    exists s',
      Win.Directory_list h fuel this true s =
      (Returns (Win.spec_preorder h (world s) n this), s')
      /\ world s' = world s.
Proof.
  induction n as [|k IH]; intros fuel this s Hdepth Hfuel; [discriminate |].
  destruct fuel as [|fuel]; [lia |].
  cbn [Win.Directory_list Win.spec_preorder Win.depth_within] in *.
  unfold bind at 1, Win.do_FindFirstFileA at 1.
  unfold Win.listed_entries in *.
  set (s1 := host_call _ _ _ s).
  destruct (Win.FindFirstFileA h _ (world s)) as [[first next]|].
  - destruct (win_list_loop_deep (fun sub => Win.Directory_list h fuel sub true)
                (world s) k this) with (found := first :: next) (acc := @nil Win.Path) (s := s1)
      as (s' & Hrun & Hw'); try reflexivity; try assumption.
    + intros c s0 Hc Hw0. rewrite <- Hw0. apply IH; [now rewrite Hw0 | lia].
    + exists s'. now split.
  - exists s1. now split.
Qed.

Lemma win_list_entry_never_throws (sub : Win.Directory -> M (list Win.Path))
    (this : Win.Directory) (recursive : bool) (f : Win.WIN32_FIND_DATAA)
    (acc : list Win.Path) :
  (forall d, never_throws (sub d)) ->
  never_throws (Win.list_entry sub this recursive f acc).
Proof.
  intros Hsub. unfold Win.list_entry.
  destruct (is_dot_entry (Win.cFileName f)); [apply ret_never_throws |].
  destruct (recursive && _); [|apply ret_never_throws].
  apply bind_never_throws; [apply Hsub | intros; apply ret_never_throws].
Qed.

Lemma win_list_never_throws (fuel : nat) :
  forall (this : Win.Directory) (recursive : bool),
    never_throws (Win.Directory_list h fuel this recursive).
Proof.
  induction fuel as [|fuel IH]; intros this recursive; cbn [Win.Directory_list].
  - apply out_of_fuel_never_throws.
  - apply bind_never_throws; [intros s what; discriminate |].
    intros [[first next]|]; [|apply ret_never_throws].
    apply loop_over_never_throws. intros f acc.
    apply win_list_entry_never_throws. intros d. apply IH.
Qed.

Lemma win_list_cannot_open (fuel : nat) (this : Win.Directory) (recursive : bool)
    (s : machine W Win.syscall) :
  Win.FindFirstFileA h
    (Win.Path_toString (Win.Directory_m_path this) ++ String backslash "*") (world s) = None ->
  fst (Win.Directory_list h (S fuel) this recursive s) = Returns [].
Proof.
  intros H. cbn [Win.Directory_list]. unfold bind, Win.do_FindFirstFileA. now rewrite H.
Qed.

Lemma win_file_exists (this : Win.File) (s : machine W Win.syscall) :
  exists b, fst (Win.File_exists h this s) = Returns b /\
    (b = true <->
     let attr := Win.GetFileAttributesA h (Win.Path_toString (Win.File_m_path this)) (world s) in
     attr <> Win.INVALID_FILE_ATTRIBUTES /\ Win.has_directory_bit attr = false).
Proof.
  unfold Win.File_exists, Win.Path_exists, Win.Path_isFile, bind,
    Win.do_GetFileAttributesA, ret, Win.Path_toString.
  cbn [world host_call fst].
  remember (Win.GetFileAttributesA h (Win.m_path (Win.File_m_path this)) (world s))
    as attr eqn:Hattr.
  cbn zeta.
  destruct (Z.eqb_spec attr Win.INVALID_FILE_ATTRIBUTES) as [E|E];
    cbn [negb fst andb world host_call]; rewrite <- ?Hattr.
  - exists false. split; [reflexivity |]. split; [discriminate | now intros [H _]].
  - eexists. split; [reflexivity |].
    destruct (Z.eqb_spec attr Win.INVALID_FILE_ATTRIBUTES) as [E'|_]; [contradiction |].
    cbn [negb andb]. rewrite negb_true_iff. split; [now split | now intros [_ H]].
Qed.

Lemma win_directory_exists (this : Win.Directory) (s : machine W Win.syscall) :
  exists b, fst (Win.Directory_exists h this s) = Returns b /\
    (b = true <->
     let attr :=
       Win.GetFileAttributesA h (Win.Path_toString (Win.Directory_m_path this)) (world s) in
     attr <> Win.INVALID_FILE_ATTRIBUTES /\ Win.has_directory_bit attr = true).
Proof.
  unfold Win.Directory_exists, Win.Path_exists, Win.Path_isDirectory, bind,
    Win.do_GetFileAttributesA, ret, Win.Path_toString.
  cbn [world host_call fst].
  remember (Win.GetFileAttributesA h (Win.m_path (Win.Directory_m_path this)) (world s))
    as attr eqn:Hattr.
  cbn zeta.
  destruct (Z.eqb_spec attr Win.INVALID_FILE_ATTRIBUTES) as [E|E];
    cbn [negb fst andb world host_call]; rewrite <- ?Hattr.
  - exists false. split; [reflexivity |]. split; [discriminate | now intros [H _]].
  - eexists. split; [reflexivity |].
    destruct (Z.eqb_spec attr Win.INVALID_FILE_ATTRIBUTES) as [E'|_]; [contradiction |].
    cbn [negb andb]. split; [now split | now intros [_ H]].
Qed.

Lemma win_remove_true (fuel : nat) (this : Win.Directory) (s : machine W Win.syscall) :
  Win.Directory_remove h (S fuel) this true s =
  (for_each (Win.remove_entry h (fun sub => Win.Directory_remove h fuel sub true))
            (Win.spec_children h (world s) this) ;;
   Win.remove_self h this)
    (snd (Win.Directory_list h (S fuel) this false s)).
Proof.
  cbn [Win.Directory_remove]. unfold bind at 1 2.
  now rewrite win_list_false.
Qed.

Lemma win_move_run (this : Win.File) (destination : Win.Path) (s : machine W Win.syscall) :
  Win.File_move h this destination s =
  match Win.MoveFileA h (Win.Path_toString (Win.File_m_path this))
                      (Win.Path_toString destination) (world s) with
  | Some w' =>
      (Returns tt,
       host_call (Win.sys_MoveFileA (Win.Path_toString (Win.File_m_path this))
                                    (Win.Path_toString destination)) true w' s)
  | None =>
      (Throws "Could not move file",
       host_call (Win.sys_MoveFileA (Win.Path_toString (Win.File_m_path this))
                                    (Win.Path_toString destination)) false (world s) s)
  end.
Proof.
  unfold Win.File_move, bind, Win.do_MoveFileA, Win.do_update.
  now destruct (Win.MoveFileA h _ _ (world s)).
Qed.

Lemma win_create_run (this : Win.Directory) (s : machine W Win.syscall) :
  Win.Directory_create h this s =
  match Win.CreateDirectoryA h (Win.Path_toString (Win.Directory_m_path this)) (world s) with
  | inl w' =>
      (Returns tt,
       host_call (Win.sys_CreateDirectoryA (Win.Path_toString (Win.Directory_m_path this)))
                 true w' s)
  | inr err =>
      (if (err =? Win.ERROR_ALREADY_EXISTS)%Z then Returns tt
       else Throws "Could not create directory",
       host_call (Win.sys_CreateDirectoryA (Win.Path_toString (Win.Directory_m_path this)))
                 false (world s) s)
  end.
Proof.
  unfold Win.Directory_create, bind, Win.do_CreateDirectoryA.
  destruct (Win.CreateDirectoryA h _ (world s)) as [w'|err]; [reflexivity |].
  now destruct (err =? Win.ERROR_ALREADY_EXISTS)%Z.
Qed.

Lemma win_isDirectory_run (p : Win.Path) (s : machine W Win.syscall) :
  Win.Path_isDirectory h p s =
  (Returns (Win.is_directory h (world s) p),
   host_call (Win.sys_GetFileAttributesA (Win.m_path p))
             (negb (Win.GetFileAttributesA h (Win.m_path p) (world s)
                    =? Win.INVALID_FILE_ATTRIBUTES)%Z)
             (world s) s).
Proof. reflexivity. Qed.

Lemma win_predicates_run (p : Win.Path) (s : machine W Win.syscall) :
  let attr := Win.GetFileAttributesA h (Win.m_path p) (world s) in
  let found := negb (attr =? Win.INVALID_FILE_ATTRIBUTES)%Z in
  fst (Win.Path_exists h p s) = Returns found /\
  fst (Win.Path_isDirectory h p s) = Returns (found && Win.has_directory_bit attr) /\
  fst (Win.Path_isFile h p s) = Returns (found && negb (Win.has_directory_bit attr)).
Proof. repeat split. Qed.

End WinCalls.

(** ** Path::filename on the entries of a listing *)

Section FilenameFacts.

Lemma substring_whole (s : string) : substring 0 (String.length s) s = s.
Proof. induction s as [|x s IH]; simpl; [reflexivity | now rewrite IH]. Qed.

Lemma substr_from_append (a b : string) : substr_from (String.length a) (a ++ b) = b.
Proof.
  unfold substr_from. rewrite length_append.
  replace (String.length a + String.length b - String.length a) with (String.length b) by lia.
  induction a as [|x a IH]; simpl; [apply substring_whole | exact IH].
Qed.

Lemma back_append (a b : string) : b <> "" -> back (a ++ b) = back b.
Proof.
  intros Hb. induction a as [|x a IH]; simpl; [reflexivity |].
  destruct (a ++ b) eqn:E; [|exact IH].
  destruct a; simpl in E; [contradiction | discriminate].
Qed.

Lemma ends_with_absent (c : ascii) (s : string) :
  occurs c s = false -> ends_with c s = false.
Proof.
  destruct (snoc_cases s) as [-> | (r & x & ->)]; [reflexivity |].
  rewrite ends_with_push_back. unfold push_back. rewrite occurs_append. simpl.
  intros H. apply orb_false_elim in H as [_ H]. now rewrite orb_false_r in H.
Qed.

Lemma unix_child_string (this : Unix.Directory) (name : string) :
  name <> "" -> occurs slash name = false -> occurs backslash name = false ->
  Unix.Path_toString (Unix.child_of this name) =
  replace backslash slash (Unix.Path_toString (Unix.Directory_m_path this))
  ++ String slash name.
Proof.
  intros Hne Hslash Hback. unfold Unix.child_of.
  rewrite unix_path_strip, replace_append. cbn [append replace].
  rewrite (replace_absent _ _ name Hback).
  change (if Ascii.eqb "/" backslash then slash else "/"%char) with slash.
  unfold strip_one, ends_with.
  rewrite back_append by discriminate.
  change (back (String slash name)) with
    (back (String slash "" ++ name)).
  rewrite back_append by exact Hne.
  fold (ends_with slash name). rewrite (ends_with_absent _ _ Hslash).
  now rewrite andb_false_r.
Qed.

Lemma unix_child_filename (this : Unix.Directory) (name : string) :
  name <> "" -> occurs slash name = false -> occurs backslash name = false ->
  Unix.Path_filename (Unix.child_of this name) = name.
Proof.
  intros Hne Hslash Hback. unfold Unix.Path_filename.
  change (Unix.m_path (Unix.child_of this name))
    with (Unix.Path_toString (Unix.child_of this name)).
  rewrite (unix_child_string this name Hne Hslash Hback).
  set (d := replace backslash slash _).
  rewrite (find_last_of_append _ d slash name);
    [| reflexivity | now apply find_last_of_char].
  replace (String.length d + 1) with (String.length (d ++ String slash "")).
  - change (d ++ String slash name) with (d ++ (String slash "" ++ name)).
    rewrite <- append_assoc. apply substr_from_append.
  - rewrite length_append. reflexivity.
Qed.

Lemma win_child_string (this : Win.Directory) (name : string) :
  occurs slash name = false ->
  Win.Path_toString (Win.child_of this name) =
  replace slash backslash (Win.Path_toString (Win.Directory_m_path this))
  ++ String backslash name.
Proof.
  intros Hslash. unfold Win.child_of, Win.Path_Path, Win.Path_toString.
  cbn [Win.m_path]. rewrite replace_append. cbn [replace].
  now rewrite (replace_absent _ _ name Hslash).
Qed.

Lemma win_child_filename (this : Win.Directory) (name : string) :
  occurs slash name = false -> occurs backslash name = false ->
  Win.Path_filename (Win.child_of this name) = name.
Proof.
  intros Hslash Hback. unfold Win.Path_filename.
  change (Win.m_path (Win.child_of this name))
    with (Win.Path_toString (Win.child_of this name)).
  rewrite (win_child_string this name Hslash).
  set (d := replace slash backslash _).
  rewrite (find_last_of_append _ d backslash name);
    [| reflexivity | now apply find_last_of_two].
  replace (String.length d + 1) with (String.length (d ++ String backslash "")).
  - change (d ++ String backslash name) with (d ++ (String backslash "" ++ name)).
    rewrite <- append_assoc. apply substr_from_append.
  - rewrite length_append. reflexivity.
Qed.

End FilenameFacts.

(** ** The recursion budget does not matter once it suffices *)

Section Budget.

Context {W C : Type}.

Lemma stable_refl {A} (c : M W C A) : stable_under c c.
Proof. now intros s r s' H _. Qed.

Lemma stable_bind {A B} (c c' : M W C A) (k k' : A -> M W C B) :
  stable_under c c' -> (forall a, stable_under (k a) (k' a)) ->
  stable_under (bind c k) (bind c' k').
Proof.
  intros Hc Hk s r s' Hrun Hr. unfold bind in *.
  destruct (c s) as [ra s1] eqn:E.
  destruct ra as [a|what|].
  - rewrite (Hc s (Returns a) s1 E) by discriminate. now apply Hk.
  - rewrite (Hc s (Throws what) s1 E) by discriminate. exact Hrun.
  - injection Hrun as <- _. contradiction.
Qed.

Lemma stable_for_each {A} (body body' : A -> M W C unit) (range : list A) :
  (forall x, stable_under (body x) (body' x)) ->
  stable_under (for_each body range) (for_each body' range).
Proof.
  intros Hbody. induction range as [|x range IH]; simpl.
  - apply stable_refl.
  - apply stable_bind; [apply Hbody | intros _; exact IH].
Qed.

Lemma stable_loop_over {A R} (body body' : A -> R -> M W C R) (range : list A) :
  (forall x acc, stable_under (body x acc) (body' x acc)) ->
  forall acc, stable_under (loop_over body range acc) (loop_over body' range acc).
Proof.
  intros Hbody. induction range as [|x range IH]; intros acc; simpl.
  - apply stable_refl.
  - apply stable_bind; [apply Hbody | exact IH].
Qed.

End Budget.

Section UnixBudget.

Context {W : Type} (h : Unix.host W).

Lemma unix_list_budget (fuel : nat) :
  forall (more : nat) (this : Unix.Directory) (recursive : bool),
    fuel <= more ->
    stable_under (Unix.Directory_list h fuel this recursive)
                 (Unix.Directory_list h more this recursive).
Proof.
  induction fuel as [|fuel IH]; intros more this recursive Hle.
  - intros s r s' Hrun Hr. injection Hrun as <- _. contradiction.
  - destruct more as [|more]; [lia |]. cbn [Unix.Directory_list].
    apply stable_bind; [apply stable_refl |].
    intros [entries|]; [|apply stable_refl].
    apply stable_loop_over. intros name acc. unfold Unix.list_entry.
    destruct (is_dot_entry name); [apply stable_refl |].
    destruct recursive; [|apply stable_refl].
    apply stable_bind; [apply stable_refl |].
    intros [|]; [|apply stable_refl].
    apply stable_bind; [apply IH; lia | intros; apply stable_refl].
Qed.

Lemma unix_remove_budget (fuel : nat) :
  forall (more : nat) (this : Unix.Directory) (recursive : bool),
    fuel <= more ->
    stable_under (Unix.Directory_remove h fuel this recursive)
                 (Unix.Directory_remove h more this recursive).
Proof.
  induction fuel as [|fuel IH]; intros more this recursive Hle.
  - intros s r s' Hrun Hr. injection Hrun as <- _. contradiction.
  - destruct more as [|more]; [lia |]. cbn [Unix.Directory_remove].
    apply stable_bind; [|intros; apply stable_refl].
    destruct recursive; [|apply stable_refl].
    apply stable_bind; [apply unix_list_budget; lia |].
    intros contents. apply stable_for_each. intros entry. unfold Unix.remove_entry.
    apply stable_bind; [apply stable_refl |].
    intros [|]; [apply IH; lia | apply stable_refl].
Qed.

End UnixBudget.

Section WinBudget.

Context {W : Type} (h : Win.host W).

Lemma win_list_budget (fuel : nat) :
  forall (more : nat) (this : Win.Directory) (recursive : bool),
    fuel <= more ->
    stable_under (Win.Directory_list h fuel this recursive)
                 (Win.Directory_list h more this recursive).
Proof.
  induction fuel as [|fuel IH]; intros more this recursive Hle.
  - intros s r s' Hrun Hr. injection Hrun as <- _. contradiction.
  - destruct more as [|more]; [lia |]. cbn [Win.Directory_list].
    apply stable_bind; [apply stable_refl |].
    intros [[first next]|]; [|apply stable_refl].
    apply stable_loop_over. intros found acc. unfold Win.list_entry.
    destruct (is_dot_entry (Win.cFileName found)); [apply stable_refl |].
    destruct (recursive && _); [|apply stable_refl].
    apply stable_bind; [apply IH; lia | intros; apply stable_refl].
Qed.

Lemma win_remove_budget (fuel : nat) :
  forall (more : nat) (this : Win.Directory) (recursive : bool),
    fuel <= more ->
    stable_under (Win.Directory_remove h fuel this recursive)
                 (Win.Directory_remove h more this recursive).
Proof.
  induction fuel as [|fuel IH]; intros more this recursive Hle.
  - intros s r s' Hrun Hr. injection Hrun as <- _. contradiction.
  - destruct more as [|more]; [lia |]. cbn [Win.Directory_remove].
    apply stable_bind; [|intros; apply stable_refl].
    destruct recursive; [|apply stable_refl].
    apply stable_bind; [apply win_list_budget; lia |].
    intros contents. apply stable_for_each. intros entry. unfold Win.remove_entry.
    apply stable_bind; [apply stable_refl |].
    intros [|]; [apply IH; lia | apply stable_refl].
Qed.

End WinBudget.

(** ** Where the entries of a listing come from *)

Section Provenance.

Lemma is_dot_entry_false (name : string) :
  is_dot_entry name = false -> name <> "." /\ name <> "..".
Proof.
  unfold is_dot_entry. intros H. apply orb_false_elim in H as [H1 H2].
  split; now apply String.eqb_neq.
Qed.

Lemma unix_children_named {W} (h : Unix.host W) (w : W) (this : Unix.Directory)
    (p : Unix.Path) :
  In p (Unix.spec_children h w this) ->
  exists name entries,
    p = Unix.child_of this name /\ name <> "." /\ name <> ".." /\
    Unix.opendir h (Unix.Path_toString (Unix.Directory_m_path this)) w = Some entries /\
    In name entries.
Proof.
  unfold Unix.spec_children, Unix.listed_names. intros H.
  apply in_map_iff in H as (name & <- & Hin).
  destruct (Unix.opendir h _ w) as [entries|]; [|contradiction].
  apply filter_In in Hin as [Hin Hdot]. apply negb_true_iff in Hdot.
  destruct (is_dot_entry_false _ Hdot). now exists name, entries.
Qed.

Lemma unix_preorder_named {W} (h : Unix.host W) (w : W) (depth : nat) :
  forall (this : Unix.Directory) (p : Unix.Path),
    In p (Unix.spec_preorder h w depth this) ->
    exists dir name entries,
      p = Unix.child_of dir name /\ name <> "." /\ name <> ".." /\
      Unix.opendir h (Unix.Path_toString (Unix.Directory_m_path dir)) w = Some entries /\
      In name entries.
Proof.
  induction depth as [|k IH]; intros this p H; [contradiction |].
  cbn [Unix.spec_preorder] in H. apply in_flat_map in H as (c & Hc & [<-|Hp]).
  - destruct (unix_children_named h w this c Hc) as (name & entries & Hn).
    now exists this, name, entries.
  - destruct (Unix.is_directory h w c); [|contradiction]. now apply IH in Hp.
Qed.

Lemma win_children_named {W} (h : Win.host W) (w : W) (this : Win.Directory)
    (p : Win.Path) :
  In p (Win.spec_children h w this) ->
  exists found first next,
    p = Win.child_of this (Win.cFileName found) /\
    Win.cFileName found <> "." /\ Win.cFileName found <> ".." /\
    Win.FindFirstFileA h
      (Win.Path_toString (Win.Directory_m_path this) ++ String backslash "*") w
    = Some (first, next) /\
    In found (first :: next).
Proof.
  unfold Win.spec_children, Win.listed_entries. intros H.
  apply in_map_iff in H as (found & <- & Hin).
  destruct (Win.FindFirstFileA h _ w) as [[first next]|]; [|contradiction].
  apply filter_In in Hin as [Hin Hdot]. apply negb_true_iff in Hdot.
  destruct (is_dot_entry_false _ Hdot). now exists found, first, next.
Qed.

Lemma win_preorder_named {W} (h : Win.host W) (w : W) (depth : nat) :
  forall (this : Win.Directory) (p : Win.Path),
    In p (Win.spec_preorder h w depth this) ->
    exists dir found first next,
      p = Win.child_of dir (Win.cFileName found) /\
      Win.cFileName found <> "." /\ Win.cFileName found <> ".." /\
      Win.FindFirstFileA h
        (Win.Path_toString (Win.Directory_m_path dir) ++ String backslash "*") w
      = Some (first, next) /\
      In found (first :: next).
Proof.
  induction depth as [|k IH]; intros this p H; [contradiction |].
  cbn [Win.spec_preorder] in H. apply in_flat_map in H as (found & Hf & [<-|Hp]).
  - assert (Hc : In (Win.child_of this (Win.cFileName found)) (Win.spec_children h w this))
      by (unfold Win.spec_children; apply in_map_iff; now exists found).
    unfold Win.listed_entries in Hf.
    destruct (Win.FindFirstFileA h _ w) as [[first next]|] eqn:E; [|contradiction].
    apply filter_In in Hf as [Hin Hdot]. apply negb_true_iff in Hdot.
    destruct (is_dot_entry_false _ Hdot). now exists this, found, first, next.
  - destruct (Win.has_directory_bit _); [|contradiction]. now apply IH in Hp.
Qed.

End Provenance.

(** * The claims *)

Import Model Sample.

(** C1 (amended).  [File::move] first asks the host to rename.  On the
    POSIX-like implementation the move is over when the rename succeeds,
    and when the rename fails (for whatever reason) the move is exactly the
    copy of the file to the destination followed by the removal of the
    source.  On the Windows-like implementation there is no fallback: the
    move is over when [MoveFileA] succeeds and throws "Could not move file"
    when it fails, nothing copied and nothing deleted. *)
Theorem move_rename_then_fallback :
  (forall W (h : Unix.host W) (this : Unix.File) (destination : Unix.Path)
          (s : machine W Unix.syscall),
     let src := Unix.Path_toString (Unix.File_m_path this) in
     let dst := Unix.Path_toString destination in
     (forall w', Unix.rename h src dst (world s) = Some w' ->
        Unix.File_move h this destination s =
        (Returns tt, host_call (Unix.sys_rename src dst) true w' s))
     /\
     (Unix.rename h src dst (world s) = None ->
        Unix.File_move h this destination s =
        (Unix.File_copy h this destination ;; Unix.File_remove h this)
          (host_call (Unix.sys_rename src dst) false (world s) s)))
  /\
  (forall W (h : Win.host W) (this : Win.File) (destination : Win.Path)
          (s : machine W Win.syscall),
     let src := Win.Path_toString (Win.File_m_path this) in
     let dst := Win.Path_toString destination in
     (forall w', Win.MoveFileA h src dst (world s) = Some w' ->
        Win.File_move h this destination s =
        (Returns tt, host_call (Win.sys_MoveFileA src dst) true w' s))
     /\
     (Win.MoveFileA h src dst (world s) = None ->
        Win.File_move h this destination s =
        (Throws "Could not move file",
         host_call (Win.sys_MoveFileA src dst) false (world s) s))).
Proof.
  split; intros W h this destination s src dst; split.
  - intros w' H. now apply unix_move_renamed.
  - intros H. now apply unix_move_fallback.
  - intros w' H. rewrite win_move_run. fold src dst. now rewrite H.
  - intros H. rewrite win_move_run. fold src dst. now rewrite H.
Qed.

(** A move across devices on the model host: the rename fails, the file is
    copied and the source unlinked. *)
Lemma move_rename_then_fallback_witness :
  Unix.File_move unix_host (unix_file "/tmp/a.txt") (Unix.Path_Path "/mnt/usb/b.txt")
    (boot two_devices) =
  (Returns tt,
   Machine
     [ ("/tmp", Folder []); ("/mnt", Folder ["usb"]); ("/mnt/usb", Folder ["b.txt"]);
       ("/mnt/usb/b.txt", RegularFile "Test content") ]
     [ (Unix.sys_rename "/tmp/a.txt" "/mnt/usb/b.txt", false);
       (Unix.sys_ifstream "/tmp/a.txt", true);
       (Unix.sys_ofstream "/mnt/usb/b.txt", true);
       (Unix.sys_stream_copy "/tmp/a.txt" "/mnt/usb/b.txt", true);
       (Unix.sys_unlink "/tmp/a.txt", true) ]).
Proof.
  refine (eq_trans
            (proj2 (proj1 move_rename_then_fallback disk unix_host
                      (unix_file "/tmp/a.txt") (Unix.Path_Path "/mnt/usb/b.txt")
                      (boot two_devices)) _) _).
  - vm_compute. reflexivity.
  - vm_compute. reflexivity.
Defined.

(** C1 as stated fails on the Windows-like implementation: moving a file
    onto an existing one, [MoveFileA] fails and the move throws with the
    disk untouched, although copying and then deleting would have worked. *)
Lemma move_fallback_counterexample :
  let this := win_file "C:\t\a.txt" in
  let destination := Win.Path_Path "C:\t\b.txt" in
  Win.MoveFileA win32 "C:\t\a.txt" "C:\t\b.txt" win_two_files = None /\
  Win.File_move win32 this destination (boot win_two_files) =
    (Throws "Could not move file",
     Machine win_two_files [(Win.sys_MoveFileA "C:\t\a.txt" "C:\t\b.txt", false)]) /\
  (Win.File_copy win32 this destination ;; Win.File_remove win32 this)
    (Machine win_two_files [(Win.sys_MoveFileA "C:\t\a.txt" "C:\t\b.txt", false)]) =
    (Returns tt,
     Machine [("C:\t", Folder ["b.txt"]); ("C:\t\b.txt", RegularFile "Test content")]
             [ (Win.sys_MoveFileA "C:\t\a.txt" "C:\t\b.txt", false);
               (Win.sys_CopyFileA "C:\t\a.txt" "C:\t\b.txt" false, true);
               (Win.sys_DeleteFileA "C:\t\a.txt", true) ]).
Proof. vm_compute. repeat split. Qed.

(** C2 (amended).  The string of a constructed Path holds no separator of
    the other platform, on both implementations.  Constructing a Path from
    the string of a Path gives the same string on the Windows-like
    implementation for every input, and on the POSIX-like implementation
    exactly for the inputs that do not end in two separators after at least
    one more character: the constructor removes a single trailing slash. *)
Theorem path_construction_idempotent :
  (forall s, occurs backslash (Unix.Path_toString (Unix.Path_Path s)) = false) /\
  (forall s, occurs slash (Win.Path_toString (Win.Path_Path s)) = false) /\
  (forall s,
     Win.Path_toString (Win.Path_Path (Win.Path_toString (Win.Path_Path s)))
     = Win.Path_toString (Win.Path_Path s)) /\
  (forall s,
     Unix.Path_toString (Unix.Path_Path (Unix.Path_toString (Unix.Path_Path s)))
     = Unix.Path_toString (Unix.Path_Path s)
     <-> ~ doubly_terminated s).
Proof.
  repeat split.
  - apply unix_path_no_backslash.
  - apply win_path_no_slash.
  - apply win_path_idempotent.
  - now apply unix_idempotent_iff.
  - now apply unix_idempotent_iff.
Qed.

(** Mixed separators and one trailing separator. *)
Lemma path_construction_witness :
  Unix.Path_toString (Unix.Path_Path (Unix.Path_toString (Unix.Path_Path "test\path/dir/")))
  = Unix.Path_toString (Unix.Path_Path "test\path/dir/").
Proof.
  refine (proj2 (proj2 (proj2 (proj2 path_construction_idempotent)) "test\path/dir/") _).
  change "test\path/dir/" with (push_back (push_back "test\path/di" "r") "/").
  intros H. apply doubly_terminated_spec in H as (_ & H & _). discriminate H.
Defined.

(** C2 as stated fails on the POSIX-like implementation for a string that
    ends in two separators: the first construction removes one of them and
    the second removes the other. *)
Lemma path_idempotence_counterexample :
  Unix.Path_toString (Unix.Path_Path "a//") = "a/" /\
  Unix.Path_toString (Unix.Path_Path (Unix.Path_toString (Unix.Path_Path "a//"))) = "a".
Proof. split; reflexivity. Qed.

(** C3 (amended).  On the POSIX-like implementation the string of a
    constructed Path ends in a separator without being the root "/" exactly
    when the input ends in two separators after at least one more
    character (one trailing separator is removed, never two).  On the
    Windows-like implementation nothing is removed: the string is as long
    as the input and ends in a separator exactly when the input does. *)
Theorem path_trailing_separator :
  (forall s,
     ends_with slash (Unix.Path_toString (Unix.Path_Path s)) = true /\
     Unix.Path_toString (Unix.Path_Path s) <> "/"
     <-> doubly_terminated s) /\
  (forall s,
     ends_with backslash (Win.Path_toString (Win.Path_Path s)) = ends_with_separator s) /\
  (forall s,
     String.length (Win.Path_toString (Win.Path_Path s)) = String.length s).
Proof.
  split; [|split].
  - apply unix_trailing_iff.
  - apply win_trailing.
  - intros s. apply length_replace.
Qed.

(** Of two trailing separators one stays. *)
Lemma path_trailing_separator_witness :
  ends_with slash (Unix.Path_toString (Unix.Path_Path "dir/\")) = true /\
  Unix.Path_toString (Unix.Path_Path "dir/\") <> "/".
Proof.
  refine (proj2 (proj1 path_trailing_separator "dir/\") _).
  exists "dir", slash, backslash. repeat split. discriminate.
Defined.

(** C3 as stated fails on both implementations: the POSIX-like constructor
    leaves one of two trailing separators, the Windows-like one leaves
    every trailing separator, and neither path is a root (each has a
    parent other than itself). *)
Lemma path_trailing_counterexample :
  (Unix.Path_toString (Unix.Path_Path "a//") = "a/" /\
   ends_with Unix.Path_separator (Unix.Path_toString (Unix.Path_Path "a//")) = true /\
   Unix.Path_toString (Unix.Path_parent (Unix.Path_Path "a//")) = "a") /\
  (Win.Path_toString (Win.Path_Path "a/") = String "a" (String backslash "") /\
   ends_with Win.Path_separator (Win.Path_toString (Win.Path_Path "a/")) = true /\
   Win.Path_toString (Win.Path_parent (Win.Path_Path "a/")) = "a").
Proof. repeat split. Qed.

(** C4 (amended).  [Path::parent] is a function of the path's string alone.
    POSIX-like: without a slash the parent is "."; when the last slash is
    the first character the parent is "/"; otherwise it is the Path
    constructed from what precedes the last slash, that is, that segment
    with one trailing slash removed when it has one and is longer than one
    character.  Windows-like: without a backslash the parent is the empty
    string; otherwise it is exactly what precedes the last backslash, which
    is the empty string when that backslash is the first character. *)
Theorem parent_derivation :
  (forall s,
     occurs slash (Unix.Path_toString (Unix.Path_Path s)) = false ->
     Unix.Path_toString (Unix.Path_parent (Unix.Path_Path s)) = ".") /\
  (forall s name,
     Unix.Path_toString (Unix.Path_Path s) = String slash name ->
     occurs slash name = false ->
     Unix.Path_toString (Unix.Path_parent (Unix.Path_Path s)) = "/") /\
  (forall s dir name,
     Unix.Path_toString (Unix.Path_Path s) = dir ++ String slash name ->
     dir <> "" ->
     occurs slash name = false ->
     Unix.Path_parent (Unix.Path_Path s) = Unix.Path_Path dir /\
     Unix.Path_toString (Unix.Path_Path dir) = strip_one dir) /\
  (forall s,
     occurs backslash (Win.Path_toString (Win.Path_Path s)) = false ->
     Win.Path_toString (Win.Path_parent (Win.Path_Path s)) = "") /\
  (forall s dir name,
     Win.Path_toString (Win.Path_Path s) = dir ++ String backslash name ->
     occurs backslash name = false ->
     Win.Path_toString (Win.Path_parent (Win.Path_Path s)) = dir).
Proof.
  split; [|split; [|split; [|split]]].
  - apply unix_parent_no_separator.
  - intros s name E Hname. now rewrite (unix_parent_split s "" name E Hname).
  - intros s dir name E Hdir Hname. split.
    + rewrite (unix_parent_split s dir name E Hname). now destruct dir.
    + apply unix_path_normalised.
      pose proof (unix_path_no_backslash s) as H. rewrite E, occurs_append in H.
      now apply orb_false_elim in H.
  - apply win_parent_no_separator.
  - apply win_parent_split.
Qed.

(** The path of the test suite. *)
Lemma parent_derivation_witness :
  Unix.Path_parent (Unix.Path_Path "test/path/file.txt") = Unix.Path_Path "test/path" /\
  Win.Path_toString (Win.Path_parent (Win.Path_Path "test/path/file.txt"))
  = "test" ++ String backslash "path".
Proof.
  split.
  - refine (proj1 (proj1 (proj2 (proj2 parent_derivation))
                     "test/path/file.txt" "test/path" "file.txt" _ _ _));
      [reflexivity | discriminate | reflexivity].
  - refine (proj2 (proj2 (proj2 (proj2 parent_derivation)))
                  "test/path/file.txt" ("test" ++ String backslash "path") "file.txt" _ _);
      reflexivity.
Defined.

(** C4 as stated fails in two places.  On the Windows-like implementation
    the parent of a path whose only separator is the leading one is the
    empty path, not the root; and on the POSIX-like implementation the
    parent is not always the segment before the last separator: of "a//b"
    that segment is "a/" and the parent is "a". *)
Lemma parent_counterexample :
  (Win.Path_toString (Win.Path_Path "/foo") = String backslash "foo" /\
   Win.Path_toString (Win.Path_parent (Win.Path_Path "/foo")) = "") /\
  (Unix.Path_toString (Unix.Path_Path "a//b") = "a//b" /\
   find_last_of "/" "a//b" = Some 2 /\
   substr 0 2 "a//b" = "a/" /\
   Unix.Path_toString (Unix.Path_parent (Unix.Path_Path "a//b")) = "a").
Proof. repeat split. Qed.

(** C5.  [Directory::remove(true)] lists the immediate children with
    [list(false)], one enumeration of the directory, and removes them in
    that order: for each child it asks the host whether it is a directory,
    and then removes a directory by a recursive [remove(true)] and any
    other child by the host's deletion of that file, throwing "Could not
    delete file" when the host refuses.  When all children are removed, the
    directory itself goes by the host's removal of an empty directory, and
    the call returns or throws "Could not remove directory" as the host
    accepts or refuses.  When a child throws, the removal throws the same
    exception from the same state, so that nothing more has been removed
    and nothing that was removed is back.  A removal that returns has
    removed every child and ended with the host's removal of the directory.
    What the removal does within its recursion budget it does within any
    larger one.  On both implementations. *)
Theorem remove_recursive_post_order :
  (forall W (h : Unix.host W) (fuel : nat) (this : Unix.Directory)
          (s s0 : machine W Unix.syscall) (contents : list Unix.Path),
     Unix.Directory_list h (S fuel) this false s = (Returns contents, s0) ->
     let path := Unix.Path_toString (Unix.Directory_m_path this) in
     let child := Unix.remove_entry h (fun sub => Unix.Directory_remove h fuel sub true) in
     (contents = Unix.spec_children h (world s) this /\
      s0 = host_call (Unix.sys_opendir path) (isSome (Unix.opendir h path (world s)))
             (world s) s) /\
     (forall s1, for_each child contents s0 = (Returns tt, s1) ->
        Unix.Directory_remove h (S fuel) this true s =
        match Unix.rmdir h path (world s1) with
        | Some w' => (Returns tt, host_call (Unix.sys_rmdir path) true w' s1)
        | None => (Throws "Could not remove directory",
                   host_call (Unix.sys_rmdir path) false (world s1) s1)
        end) /\
     (forall before entry after s1 s2 what,
        contents = (before ++ entry :: after)%list ->
        for_each child before s0 = (Returns tt, s1) ->
        child entry s1 = (Throws what, s2) ->
        Unix.Directory_remove h (S fuel) this true s = (Throws what, s2)) /\
     (forall entry s1,
        let name := Unix.Path_toString entry in
        let asked :=
          host_call (Unix.sys_stat name) (isSome (Unix.stat h name (world s1)))
            (world s1) s1 in
        child entry s1 =
        if Unix.is_directory h (world s1) entry
        then Unix.Directory_remove h fuel (Unix.mkDirectory entry) true asked
        else match Unix.unlink h name (world s1) with
             | Some w' => (Returns tt, host_call (Unix.sys_unlink name) true w' asked)
             | None => (Throws "Could not delete file",
                        host_call (Unix.sys_unlink name) false (world s1) asked)
             end) /\
     (forall s', Unix.Directory_remove h (S fuel) this true s = (Returns tt, s') ->
        exists s1 w',
          for_each child contents s0 = (Returns tt, s1) /\
          Unix.rmdir h path (world s1) = Some w' /\
          s' = host_call (Unix.sys_rmdir path) true w' s1) /\
     (forall more, S fuel <= more ->
        stable_under (Unix.Directory_remove h (S fuel) this true)
                     (Unix.Directory_remove h more this true)))
  /\
  (forall W (h : Win.host W) (fuel : nat) (this : Win.Directory)
          (s s0 : machine W Win.syscall) (contents : list Win.Path),
     Win.Directory_list h (S fuel) this false s = (Returns contents, s0) ->
     let path := Win.Path_toString (Win.Directory_m_path this) in
     let pattern := path ++ String backslash "*" in
     let child := Win.remove_entry h (fun sub => Win.Directory_remove h fuel sub true) in
     (contents = Win.spec_children h (world s) this /\
      s0 = host_call (Win.sys_FindFirstFileA pattern)
             (isSome (Win.FindFirstFileA h pattern (world s))) (world s) s) /\
     (forall s1, for_each child contents s0 = (Returns tt, s1) ->
        Win.Directory_remove h (S fuel) this true s =
        match Win.RemoveDirectoryA h path (world s1) with
        | Some w' => (Returns tt, host_call (Win.sys_RemoveDirectoryA path) true w' s1)
        | None => (Throws "Could not remove directory",
                   host_call (Win.sys_RemoveDirectoryA path) false (world s1) s1)
        end) /\
     (forall before entry after s1 s2 what,
        contents = (before ++ entry :: after)%list ->
        for_each child before s0 = (Returns tt, s1) ->
        child entry s1 = (Throws what, s2) ->
        Win.Directory_remove h (S fuel) this true s = (Throws what, s2)) /\
     (forall entry s1,
        let name := Win.Path_toString entry in
        let asked :=
          host_call (Win.sys_GetFileAttributesA name)
            (negb (Win.GetFileAttributesA h name (world s1)
                   =? Win.INVALID_FILE_ATTRIBUTES)%Z)
            (world s1) s1 in
        child entry s1 =
        if Win.is_directory h (world s1) entry
        then Win.Directory_remove h fuel (Win.mkDirectory entry) true asked
        else match Win.DeleteFileA h name (world s1) with
             | Some w' => (Returns tt, host_call (Win.sys_DeleteFileA name) true w' asked)
             | None => (Throws "Could not delete file",
                        host_call (Win.sys_DeleteFileA name) false (world s1) asked)
             end) /\
     (forall s', Win.Directory_remove h (S fuel) this true s = (Returns tt, s') ->
        exists s1 w',
          for_each child contents s0 = (Returns tt, s1) /\
          Win.RemoveDirectoryA h path (world s1) = Some w' /\
          s' = host_call (Win.sys_RemoveDirectoryA path) true w' s1) /\
     (forall more, S fuel <= more ->
        stable_under (Win.Directory_remove h (S fuel) this true)
                     (Win.Directory_remove h more this true))).
Proof.
  split.
  - intros W h fuel this s s0 contents Hlist path child.
    rewrite unix_list_false in Hlist. injection Hlist as <- <-.
    assert (Hself : forall s1,
               Unix.remove_self h this s1 =
               match Unix.rmdir h path (world s1) with
               | Some w' => (Returns tt, host_call (Unix.sys_rmdir path) true w' s1)
               | None => (Throws "Could not remove directory",
                          host_call (Unix.sys_rmdir path) false (world s1) s1)
               end).
    { intros s1. unfold Unix.remove_self, bind, Unix.do_rmdir, Unix.do_update.
      fold path. now destruct (Unix.rmdir h path (world s1)). }
    split; [now split |]. split; [|split; [|split; [|split]]].
    + intros s1 Hall. rewrite unix_remove_true, unix_list_false. cbn [snd].
      unfold bind at 1. fold child. rewrite Hall. apply Hself.
    + intros before entry after s1 s2 what Hsplit Hbefore Hentry.
      rewrite unix_remove_true, unix_list_false. cbn [snd].
      unfold bind at 1. fold child. rewrite Hsplit.
      now rewrite (for_each_stops child before entry after _ s1 s2 what Hbefore Hentry).
    + intros entry s1 name asked. unfold child, Unix.remove_entry, bind at 1.
      rewrite unix_isDirectory_run. fold name asked.
      destruct (Unix.is_directory h (world s1) entry); [reflexivity |].
      unfold Unix.File_remove, bind, Unix.do_unlink, Unix.do_update.
      cbn [Unix.File_m_path world host_call].
      change (Unix.Path_toString entry) with name.
      now destruct (Unix.unlink h name (world s1)).
    + intros s' Hrun. rewrite unix_remove_true, unix_list_false in Hrun. cbn [snd] in Hrun.
      unfold bind at 1 in Hrun. fold child in Hrun.
      destruct (for_each child _ _) as [[[]|what|] s1] eqn:Hall; [|discriminate..].
      rewrite Hself in Hrun.
      destruct (Unix.rmdir h path (world s1)) as [w'|] eqn:Hrm; [|discriminate].
      injection Hrun as <-. now exists s1, w'.
    + intros more Hmore. now apply unix_remove_budget.
  - intros W h fuel this s s0 contents Hlist path pattern child.
    rewrite win_list_false in Hlist. injection Hlist as <- <-.
    assert (Hself : forall s1,
               Win.remove_self h this s1 =
               match Win.RemoveDirectoryA h path (world s1) with
               | Some w' => (Returns tt, host_call (Win.sys_RemoveDirectoryA path) true w' s1)
               | None => (Throws "Could not remove directory",
                          host_call (Win.sys_RemoveDirectoryA path) false (world s1) s1)
               end).
    { intros s1. unfold Win.remove_self, bind, Win.do_RemoveDirectoryA, Win.do_update.
      fold path. now destruct (Win.RemoveDirectoryA h path (world s1)). }
    split; [now split |]. split; [|split; [|split; [|split]]].
    + intros s1 Hall. rewrite win_remove_true, win_list_false. cbn [snd].
      unfold bind at 1. fold child. rewrite Hall. apply Hself.
    + intros before entry after s1 s2 what Hsplit Hbefore Hentry.
      rewrite win_remove_true, win_list_false. cbn [snd].
      unfold bind at 1. fold child. rewrite Hsplit.
      now rewrite (for_each_stops child before entry after _ s1 s2 what Hbefore Hentry).
    + intros entry s1 name asked. unfold child, Win.remove_entry, bind at 1.
      rewrite win_isDirectory_run. fold name asked.
      destruct (Win.is_directory h (world s1) entry); [reflexivity |].
      unfold Win.File_remove, bind, Win.do_DeleteFileA, Win.do_update.
      cbn [Win.File_m_path world host_call].
      change (Win.Path_toString entry) with name.
      now destruct (Win.DeleteFileA h name (world s1)).
    + intros s' Hrun. rewrite win_remove_true, win_list_false in Hrun. cbn [snd] in Hrun.
      unfold bind at 1 in Hrun. fold child in Hrun.
      destruct (for_each child _ _) as [[[]|what|] s1] eqn:Hall; [|discriminate..].
      rewrite Hself in Hrun.
      destruct (Win.RemoveDirectoryA h path (world s1)) as [w'|] eqn:Hrm; [|discriminate].
      injection Hrun as <-. now exists s1, w'.
    + intros more Hmore. now apply win_remove_budget.
Qed.

(** On the model hosts.  POSIX: the second child of /tmp/d cannot be
    deleted, so the removal throws once the first is gone, with the third
    child and the directory itself untouched; and a tree without such a
    child goes, the deepest entries first.  Windows: the same, the second
    child being a file that is listed and no longer there. *)
Lemma remove_recursive_witness :
  (Unix.Directory_remove unix_host 2 (unix_dir "/tmp/d") true (boot stubborn) =
   (Throws "Could not delete file",
    Machine
      [ ("/tmp", Folder ["d"]);
        ("/tmp/d", Folder ["we\ird"; "subdir2"]);
        ("/tmp/d/we\ird", RegularFile "odd");
        ("/tmp/d/subdir2", Folder ["subfile2.txt"]);
        ("/tmp/d/subdir2/subfile2.txt", RegularFile "Subfile 2") ]
      [ (Unix.sys_opendir "/tmp/d", true);
        (Unix.sys_stat "/tmp/d/file1.txt", true);
        (Unix.sys_unlink "/tmp/d/file1.txt", true);
        (Unix.sys_stat "/tmp/d/we/ird", false);
        (Unix.sys_unlink "/tmp/d/we/ird", false) ])
   /\
   Unix.Directory_remove unix_host 3 (unix_dir "/tmp/d") true (boot nested) =
   (Returns tt,
    Machine
      [ ("/tmp", Folder []) ]
      [ (Unix.sys_opendir "/tmp/d", true);
        (Unix.sys_stat "/tmp/d/file1.txt", true);
        (Unix.sys_unlink "/tmp/d/file1.txt", true);
        (Unix.sys_stat "/tmp/d/subdir1", true);
        (Unix.sys_opendir "/tmp/d/subdir1", true);
        (Unix.sys_stat "/tmp/d/subdir1/subfile1.txt", true);
        (Unix.sys_unlink "/tmp/d/subdir1/subfile1.txt", true);
        (Unix.sys_stat "/tmp/d/subdir1/nested", true);
        (Unix.sys_opendir "/tmp/d/subdir1/nested", true);
        (Unix.sys_stat "/tmp/d/subdir1/nested/nested.txt", true);
        (Unix.sys_unlink "/tmp/d/subdir1/nested/nested.txt", true);
        (Unix.sys_rmdir "/tmp/d/subdir1/nested", true);
        (Unix.sys_rmdir "/tmp/d/subdir1", true);
        (Unix.sys_stat "/tmp/d/subdir2", true);
        (Unix.sys_opendir "/tmp/d/subdir2", true);
        (Unix.sys_stat "/tmp/d/subdir2/subfile2.txt", true);
        (Unix.sys_unlink "/tmp/d/subdir2/subfile2.txt", true);
        (Unix.sys_rmdir "/tmp/d/subdir2", true);
        (Unix.sys_rmdir "/tmp/d", true) ]))
  /\
  (Win.Directory_remove win32 2 (win_dir "C:\t\d") true (boot win_ghost) =
   (Throws "Could not delete file",
    Machine
      [ ("C:\t", Folder ["d"]);
        ("C:\t\d", Folder ["ghost.txt"; "subdir"]);
        ("C:\t\d\subdir", Folder ["subfile.txt"]);
        ("C:\t\d\subdir\subfile.txt", RegularFile "Subfile") ]
      [ (Win.sys_FindFirstFileA "C:\t\d\*", true);
        (Win.sys_GetFileAttributesA "C:\t\d\file1.txt", true);
        (Win.sys_DeleteFileA "C:\t\d\file1.txt", true);
        (Win.sys_GetFileAttributesA "C:\t\d\ghost.txt", false);
        (Win.sys_DeleteFileA "C:\t\d\ghost.txt", false) ])
   /\
   Win.Directory_remove win32 2 (win_dir "C:\t\d") true (boot win_listing) =
   (Returns tt,
    Machine
      [ ("C:\t", Folder []) ]
      [ (Win.sys_FindFirstFileA "C:\t\d\*", true);
        (Win.sys_GetFileAttributesA "C:\t\d\file1.txt", true);
        (Win.sys_DeleteFileA "C:\t\d\file1.txt", true);
        (Win.sys_GetFileAttributesA "C:\t\d\subdir", true);
        (Win.sys_FindFirstFileA "C:\t\d\subdir\*", true);
        (Win.sys_GetFileAttributesA "C:\t\d\subdir\subfile.txt", true);
        (Win.sys_DeleteFileA "C:\t\d\subdir\subfile.txt", true);
        (Win.sys_RemoveDirectoryA "C:\t\d\subdir", true);
        (Win.sys_GetFileAttributesA "C:\t\d\file2.txt", true);
        (Win.sys_DeleteFileA "C:\t\d\file2.txt", true);
        (Win.sys_RemoveDirectoryA "C:\t\d", true) ])).
Proof.
  split; split.
  - refine (proj1 (proj2 (proj2 (proj1 remove_recursive_post_order disk unix_host 1
                                   (unix_dir "/tmp/d") (boot stubborn) _ _ _)))
                  [Unix.mkPath "/tmp/d/file1.txt"] (Unix.mkPath "/tmp/d/we/ird")
                  [Unix.mkPath "/tmp/d/subdir2"] _ _ _ _ _ _).
    + vm_compute. reflexivity.
    + vm_compute. reflexivity.
    + vm_compute. reflexivity.
    + vm_compute. reflexivity.
  - refine (eq_trans
              (proj1 (proj2 (proj1 remove_recursive_post_order disk unix_host 2
                               (unix_dir "/tmp/d") (boot nested) _ _ _)) _ _) _).
    + vm_compute. reflexivity.
    + vm_compute. reflexivity.
    + vm_compute. reflexivity.
  - refine (proj1 (proj2 (proj2 (proj2 remove_recursive_post_order disk win32 1
                                   (win_dir "C:\t\d") (boot win_ghost) _ _ _)))
                  [Win.mkPath "C:\t\d\file1.txt"] (Win.mkPath "C:\t\d\ghost.txt")
                  [Win.mkPath "C:\t\d\subdir"] _ _ _ _ _ _).
    + vm_compute. reflexivity.
    + vm_compute. reflexivity.
    + vm_compute. reflexivity.
    + vm_compute. reflexivity.
  - refine (eq_trans
              (proj1 (proj2 (proj2 remove_recursive_post_order disk win32 1
                               (win_dir "C:\t\d") (boot win_listing) _ _ _)) _ _) _).
    + vm_compute. reflexivity.
    + vm_compute. reflexivity.
    + vm_compute. reflexivity.
Defined.

(** On the sample disks every name a directory holds is a single path
    component: it is not empty and holds no separator of either kind. *)
Lemma sample_listing_components (path : string) (entries : list string) (name : string) :
  Unix.opendir unix_host path listing = Some entries -> In name entries ->
  name <> "" /\ occurs slash name = false /\ occurs backslash name = false.
Proof.
  cbn [Unix.opendir unix_host posix]. unfold posix_opendir, listing.
  cbn [lookup].
  repeat match goal with
         | |- context [if (?k =? path)%string then _ else _] =>
             destruct (k =? path)%string
         end;
    intros E; try discriminate; injection E as <-;
    cbn [In]; intros H; repeat destruct H as [H|H]; try contradiction; subst name;
    (split; [discriminate | split; reflexivity]).
Qed.

Lemma sample_win_listing_components (pattern : string)
    (first : Win.WIN32_FIND_DATAA) (next : list Win.WIN32_FIND_DATAA)
    (found : Win.WIN32_FIND_DATAA) :
  Win.FindFirstFileA win32 pattern win_listing = Some (first, next) ->
  In found (first :: next) ->
  Win.cFileName found <> "" /\
  occurs slash (Win.cFileName found) = false /\
  occurs backslash (Win.cFileName found) = false.
Proof.
  cbn [Win.FindFirstFileA win32]. unfold win_find, win_listing.
  cbn [lookup].
  destruct (pattern =? _)%string; [|discriminate].
  repeat match goal with
         | |- context [if (?k =? ?dir)%string then _ else _] =>
             destruct (k =? dir)%string
         end;
    intros E; try discriminate; injection E as <- <-;
    cbn [In map]; intros H; repeat destruct H as [H|H]; try contradiction; subst found;
    cbn [Win.cFileName]; (split; [discriminate | split; reflexivity]).
Qed.

(** C6.  [Directory::list(false)] returns the immediate children, in the
    host's enumeration order; [Directory::list(true)], on a tree that nests
    less deep than the recursion budget, returns the pre-order sequence of
    the specification: each child followed at once by the recursive listing
    of that child when it is a directory.  Every entry of either listing is
    the path of a name the host enumerated, other than "." and "..", and
    [filename()] of such a path is that name whenever the name is a single
    path component (not empty, no separator of either kind in it).  So on a
    host that enumerates single path components only, no entry of a
    returned listing, plain or recursive, has "." or ".." as its last
    component, and none is the path of "." or ".." in any directory.  On
    both implementations. *)
Theorem list_recursive_pre_order :
  (forall W (h : Unix.host W) (this : Unix.Directory) (s : machine W Unix.syscall),
     (forall fuel,
        fst (Unix.Directory_list h (S fuel) this false s)
        = Returns (Unix.spec_children h (world s) this)) /\
     (forall depth fuel,
        Unix.depth_within h (world s) depth this = true -> depth <= fuel ->
        fst (Unix.Directory_list h fuel this true s)
        = Returns (Unix.spec_preorder h (world s) depth this)) /\
     (forall depth p,
        In p (Unix.spec_children h (world s) this) \/
        In p (Unix.spec_preorder h (world s) depth this) ->
        exists dir name entries,
          p = Unix.child_of dir name /\ name <> "." /\ name <> ".." /\
          Unix.opendir h (Unix.Path_toString (Unix.Directory_m_path dir)) (world s)
          = Some entries /\
          In name entries) /\
     (forall dir name,
        name <> "" -> occurs slash name = false -> occurs backslash name = false ->
        Unix.Path_filename (Unix.child_of dir name) = name) /\
     ((forall path entries name,
         Unix.opendir h path (world s) = Some entries -> In name entries ->
         name <> "" /\ occurs slash name = false /\ occurs backslash name = false) ->
      forall (recursive : bool) (depth fuel : nat) (l : list Unix.Path),
        (if recursive then Unix.depth_within h (world s) depth this = true /\ depth <= fuel
         else 1 <= fuel) ->
        fst (Unix.Directory_list h fuel this recursive s) = Returns l ->
        forall p, In p l ->
          Unix.Path_filename p <> "." /\ Unix.Path_filename p <> ".." /\
          forall dir, p <> Unix.child_of dir "." /\ p <> Unix.child_of dir ".."))
  /\
  (forall W (h : Win.host W) (this : Win.Directory) (s : machine W Win.syscall),
     (forall fuel,
        fst (Win.Directory_list h (S fuel) this false s)
        = Returns (Win.spec_children h (world s) this)) /\
     (forall depth fuel,
        Win.depth_within h (world s) depth this = true -> depth <= fuel ->
        fst (Win.Directory_list h fuel this true s)
        = Returns (Win.spec_preorder h (world s) depth this)) /\
     (forall depth p,
        In p (Win.spec_children h (world s) this) \/
        In p (Win.spec_preorder h (world s) depth this) ->
        exists dir found first next,
          p = Win.child_of dir (Win.cFileName found) /\
          Win.cFileName found <> "." /\ Win.cFileName found <> ".." /\
          Win.FindFirstFileA h
            (Win.Path_toString (Win.Directory_m_path dir) ++ String backslash "*") (world s)
          = Some (first, next) /\
          In found (first :: next)) /\
     (forall dir name,
        name <> "" -> occurs slash name = false -> occurs backslash name = false ->
        Win.Path_filename (Win.child_of dir name) = name) /\
     ((forall pattern first next found,
         Win.FindFirstFileA h pattern (world s) = Some (first, next) ->
         In found (first :: next) ->
         Win.cFileName found <> "" /\
         occurs slash (Win.cFileName found) = false /\
         occurs backslash (Win.cFileName found) = false) ->
      forall (recursive : bool) (depth fuel : nat) (l : list Win.Path),
        (if recursive then Win.depth_within h (world s) depth this = true /\ depth <= fuel
         else 1 <= fuel) ->
        fst (Win.Directory_list h fuel this recursive s) = Returns l ->
        forall p, In p l ->
          Win.Path_filename p <> "." /\ Win.Path_filename p <> ".." /\
          forall dir, p <> Win.child_of dir "." /\ p <> Win.child_of dir "..")).
Proof.
  split; intros W h this s.
  - assert (Hnamed : forall depth p,
               In p (Unix.spec_children h (world s) this) \/
               In p (Unix.spec_preorder h (world s) depth this) ->
               exists dir name entries,
                 p = Unix.child_of dir name /\ name <> "." /\ name <> ".." /\
                 Unix.opendir h (Unix.Path_toString (Unix.Directory_m_path dir)) (world s)
                 = Some entries /\
                 In name entries).
    { intros depth p [H|H].
      - destruct (unix_children_named h _ _ _ H) as (name & entries & Hn).
        now exists this, name, entries.
      - now apply unix_preorder_named in H. }
    split; [|split; [|split; [|split]]].
    + intros fuel. now rewrite unix_list_false.
    + intros depth fuel Hdepth Hfuel.
      destruct (unix_list_true h depth fuel this s Hdepth Hfuel) as (s' & -> & _).
      reflexivity.
    + exact Hnamed.
    + intros dir name. apply unix_child_filename.
    + intros Hnames recursive depth fuel l Hbudget Hrun p Hp.
      assert (Hin : In p (Unix.spec_children h (world s) this) \/
                    In p (Unix.spec_preorder h (world s) depth this)).
      { destruct recursive.
        - destruct Hbudget as [Hdepth Hfuel].
          destruct (unix_list_true h depth fuel this s Hdepth Hfuel) as (s' & E & _).
          rewrite E in Hrun. injection Hrun as <-. now right.
        - destruct fuel as [|fuel]; [inversion Hbudget |].
          rewrite unix_list_false in Hrun. injection Hrun as <-. now left. }
      destruct (Hnamed depth p Hin) as (dir & name & entries & -> & Hdot & Hdots & Hopen & Hname).
      destruct (Hnames _ _ _ Hopen Hname) as (Hne & Hslash & Hback).
      rewrite (unix_child_filename dir name Hne Hslash Hback).
      split; [exact Hdot | split; [exact Hdots |]].
      intros dir'. split; intros E;
        apply (f_equal Unix.Path_filename) in E;
        rewrite (unix_child_filename dir name Hne Hslash Hback) in E;
        rewrite unix_child_filename in E by (discriminate || reflexivity);
        contradiction.
  - assert (Hnamed : forall depth p,
               In p (Win.spec_children h (world s) this) \/
               In p (Win.spec_preorder h (world s) depth this) ->
               exists dir found first next,
                 p = Win.child_of dir (Win.cFileName found) /\
                 Win.cFileName found <> "." /\ Win.cFileName found <> ".." /\
                 Win.FindFirstFileA h
                   (Win.Path_toString (Win.Directory_m_path dir) ++ String backslash "*")
                   (world s)
                 = Some (first, next) /\
                 In found (first :: next)).
    { intros depth p [H|H].
      - destruct (win_children_named h _ _ _ H) as (found & first & next & Hn).
        now exists this, found, first, next.
      - now apply win_preorder_named in H. }
    split; [|split; [|split; [|split]]].
    + intros fuel. now rewrite win_list_false.
    + intros depth fuel Hdepth Hfuel.
      destruct (win_list_true h depth fuel this s Hdepth Hfuel) as (s' & -> & _).
      reflexivity.
    + exact Hnamed.
    + intros dir name _. apply win_child_filename.
    + intros Hnames recursive depth fuel l Hbudget Hrun p Hp.
      assert (Hin : In p (Win.spec_children h (world s) this) \/
                    In p (Win.spec_preorder h (world s) depth this)).
      { destruct recursive.
        - destruct Hbudget as [Hdepth Hfuel].
          destruct (win_list_true h depth fuel this s Hdepth Hfuel) as (s' & E & _).
          rewrite E in Hrun. injection Hrun as <-. now right.
        - destruct fuel as [|fuel]; [inversion Hbudget |].
          rewrite win_list_false in Hrun. injection Hrun as <-. now left. }
      destruct (Hnamed depth p Hin)
        as (dir & found & first & next & -> & Hdot & Hdots & Hopen & Hfound).
      destruct (Hnames _ _ _ _ Hopen Hfound) as (_ & Hslash & Hback).
      rewrite (win_child_filename dir _ Hslash Hback).
      split; [exact Hdot | split; [exact Hdots |]].
      intros dir'. split; intros E;
        apply (f_equal Win.Path_filename) in E;
        rewrite (win_child_filename dir _ Hslash Hback) in E;
        rewrite win_child_filename in E by reflexivity;
        contradiction.
Qed.

(** The test "Directory listing" on the model hosts: four entries, the
    subdirectory before the file in it, and the last component of the
    deepest entry is no sentinel. *)
Lemma list_recursive_witness :
  (fst (Unix.Directory_list unix_host 2 (unix_dir "/tmp/d") true (boot listing)) =
   Returns [ Unix.mkPath "/tmp/d/file1.txt"; Unix.mkPath "/tmp/d/subdir";
             Unix.mkPath "/tmp/d/subdir/subfile.txt"; Unix.mkPath "/tmp/d/file2.txt" ]
   /\
   Unix.Path_filename (Unix.mkPath "/tmp/d/subdir/subfile.txt") <> "." /\
   Unix.Path_filename (Unix.mkPath "/tmp/d/subdir/subfile.txt") <> "..")
  /\
  (fst (Win.Directory_list win32 2 (win_dir "C:\t\d") true (boot win_listing)) =
   Returns [ Win.mkPath "C:\t\d\file1.txt"; Win.mkPath "C:\t\d\subdir";
             Win.mkPath "C:\t\d\subdir\subfile.txt"; Win.mkPath "C:\t\d\file2.txt" ]
   /\
   Win.Path_filename (Win.mkPath "C:\t\d\subdir\subfile.txt") <> "." /\
   Win.Path_filename (Win.mkPath "C:\t\d\subdir\subfile.txt") <> "..").
Proof.
  split; split.
  - refine (eq_trans
              (proj1 (proj2 (proj1 list_recursive_pre_order disk unix_host
                               (unix_dir "/tmp/d") (boot listing))) 2 2 _ _) _).
    + vm_compute. reflexivity.
    + apply le_n.
    + vm_compute. reflexivity.
  - refine (let H :=
                proj2 (proj2 (proj2 (proj2 (proj1 list_recursive_pre_order disk unix_host
                                              (unix_dir "/tmp/d") (boot listing)))))
                  sample_listing_components true 2 2
                  [ Unix.mkPath "/tmp/d/file1.txt"; Unix.mkPath "/tmp/d/subdir";
                    Unix.mkPath "/tmp/d/subdir/subfile.txt"; Unix.mkPath "/tmp/d/file2.txt" ]
                  _ _ (Unix.mkPath "/tmp/d/subdir/subfile.txt") _
              in conj (proj1 H) (proj1 (proj2 H))).
    + split; [vm_compute; reflexivity | apply le_n].
    + vm_compute. reflexivity.
    + cbn [In]. right. right. left. reflexivity.
  - refine (eq_trans
              (proj1 (proj2 (proj2 list_recursive_pre_order disk win32
                               (win_dir "C:\t\d") (boot win_listing))) 2 2 _ _) _).
    + vm_compute. reflexivity.
    + apply le_n.
    + vm_compute. reflexivity.
  - refine (let H :=
                proj2 (proj2 (proj2 (proj2 (proj2 list_recursive_pre_order disk win32
                                              (win_dir "C:\t\d") (boot win_listing)))))
                  sample_win_listing_components true 2 2
                  [ Win.mkPath "C:\t\d\file1.txt"; Win.mkPath "C:\t\d\subdir";
                    Win.mkPath "C:\t\d\subdir\subfile.txt"; Win.mkPath "C:\t\d\file2.txt" ]
                  _ _ (Win.mkPath "C:\t\d\subdir\subfile.txt") _
              in conj (proj1 H) (proj1 (proj2 H))).
    + split; [vm_compute; reflexivity | apply le_n].
    + vm_compute. reflexivity.
    + cbn [In]. right. right. left. reflexivity.
Defined.

(** On POSIX a file name may hold a backslash, which the [Path] constructor
    turns into a slash: the files named by a dot and a backslash, and by a
    backslash and two dots, in /tmp/d are listed as /tmp/d/. and
    /tmp/d//.., whose last components are "." and "..", the first being
    the path of "." in /tmp/d. *)
Lemma list_sentinel_counterexample :
  Unix.opendir unix_host "/tmp/d" dotted
  = Some ["."; ".."; String "." (String backslash ""); String backslash ".."; "file1.txt"]
  /\
  fst (Unix.Directory_list unix_host 1 (unix_dir "/tmp/d") false (boot dotted))
  = Returns [ Unix.mkPath "/tmp/d/."; Unix.mkPath "/tmp/d//.."; Unix.mkPath "/tmp/d/file1.txt" ]
  /\
  Unix.Path_filename (Unix.mkPath "/tmp/d/.") = "." /\
  Unix.Path_filename (Unix.mkPath "/tmp/d//..") = ".." /\
  Unix.child_of (unix_dir "/tmp/d") "." = Unix.mkPath "/tmp/d/.".
Proof. vm_compute. repeat split. Qed.

(** C7.  The probes [exists], [isDirectory] and [isFile] return a boolean
    in every state, [false] when the host's lookup fails; [Directory::list]
    throws from no state, and returns the empty sequence when the host
    cannot open the directory.  On both implementations. *)
Theorem probes_never_throw :
  (forall W (h : Unix.host W) (p : Unix.Path) (s : machine W Unix.syscall),
     (exists b, fst (Unix.Path_exists h p s) = Returns b /\
                (Unix.stat h (Unix.Path_toString p) (world s) = None -> b = false)) /\
     (exists b, fst (Unix.Path_isDirectory h p s) = Returns b /\
                (Unix.stat h (Unix.Path_toString p) (world s) = None -> b = false)) /\
     (exists b, fst (Unix.Path_isFile h p s) = Returns b /\
                (Unix.stat h (Unix.Path_toString p) (world s) = None -> b = false)) /\
     (forall fuel recursive,
        never_throws (Unix.Directory_list h fuel (Unix.mkDirectory p) recursive)) /\
     (forall fuel recursive,
        Unix.opendir h (Unix.Path_toString p) (world s) = None ->
        fst (Unix.Directory_list h (S fuel) (Unix.mkDirectory p) recursive s) = Returns []))
  /\
  (forall W (h : Win.host W) (p : Win.Path) (s : machine W Win.syscall),
     (exists b, fst (Win.Path_exists h p s) = Returns b /\
                (Win.GetFileAttributesA h (Win.Path_toString p) (world s)
                 = Win.INVALID_FILE_ATTRIBUTES -> b = false)) /\
     (exists b, fst (Win.Path_isDirectory h p s) = Returns b /\
                (Win.GetFileAttributesA h (Win.Path_toString p) (world s)
                 = Win.INVALID_FILE_ATTRIBUTES -> b = false)) /\
     (exists b, fst (Win.Path_isFile h p s) = Returns b /\
                (Win.GetFileAttributesA h (Win.Path_toString p) (world s)
                 = Win.INVALID_FILE_ATTRIBUTES -> b = false)) /\
     (forall fuel recursive,
        never_throws (Win.Directory_list h fuel (Win.mkDirectory p) recursive)) /\
     (forall fuel recursive,
        Win.FindFirstFileA h (Win.Path_toString p ++ String backslash "*") (world s) = None ->
        fst (Win.Directory_list h (S fuel) (Win.mkDirectory p) recursive s) = Returns [])).
Proof.
  split; intros W h p s.
  - repeat split.
    + rewrite unix_exists_run. eexists. split; [reflexivity |].
      unfold Unix.Path_toString. now intros ->.
    + rewrite unix_isDirectory_run. eexists. split; [reflexivity |].
      unfold Unix.Path_toString, Unix.is_directory. now intros ->.
    + rewrite unix_isFile_run. eexists. split; [reflexivity |].
      unfold Unix.Path_toString. now intros ->.
    + intros fuel recursive. apply unix_list_never_throws.
    + intros fuel recursive H. now apply unix_list_cannot_open.
  - destruct (win_predicates_run h p s) as (He & Hd & Hf).
    repeat split.
    + eexists. split; [exact He |]. unfold Win.Path_toString. now intros ->.
    + eexists. split; [exact Hd |]. unfold Win.Path_toString. now intros ->.
    + eexists. split; [exact Hf |]. unfold Win.Path_toString. now intros ->.
    + intros fuel recursive. apply win_list_never_throws.
    + intros fuel recursive H. now apply win_list_cannot_open.
Qed.

(** Listing a directory that is not there, on the model host. *)
Lemma probes_never_throw_witness :
  fst (Unix.Directory_list unix_host 1 (unix_dir "/tmp/missing") true (boot listing))
  = Returns [].
Proof.
  refine (proj2 (proj2 (proj2 (proj2
           (proj1 probes_never_throw disk unix_host (Unix.Path_Path "/tmp/missing")
                  (boot listing))))) 0 true _).
  vm_compute. reflexivity.
Defined.

(** C8.  [Directory::create] asks the host once to create the directory.
    It returns normally when the host creates it, and also when the host
    rejects the call because something already exists at the path (EEXIST,
    ERROR_ALREADY_EXISTS), in which case nothing is created; it throws
    "Could not create directory" on any other rejection.  So on a host
    that answers so for whatever it finds at the path, [create] returns
    normally whenever [Path::exists] holds, a directory or not, and leaves
    what [Directory::exists] answers as it was; and on a host where a
    directory just created is reported as existing, a second [create]
    after a first that returned returns too.  On both implementations. *)
Theorem create_idempotent :
  (forall W (h : Unix.host W) (this : Unix.Directory) (s : machine W Unix.syscall),
     let path := Unix.Path_toString (Unix.Directory_m_path this) in
     (forall w', Unix.mkdir h path 493 (world s) = inl w' ->
      Unix.Directory_create h this s =
      (Returns tt, host_call (Unix.sys_mkdir path 493) true w' s)) /\
     (Unix.mkdir h path 493 (world s) = inr Unix.EEXIST ->
      Unix.Directory_create h this s =
      (Returns tt, host_call (Unix.sys_mkdir path 493) false (world s) s)) /\
     (forall errno, Unix.mkdir h path 493 (world s) = inr errno -> errno <> Unix.EEXIST ->
      Unix.Directory_create h this s =
      (Throws "Could not create directory",
       host_call (Unix.sys_mkdir path 493) false (world s) s)) /\
     ((forall st_mode, Unix.stat h path (world s) = Some st_mode ->
                       Unix.mkdir h path 493 (world s) = inr Unix.EEXIST) ->
      fst (Unix.Path_exists h (Unix.Directory_m_path this) s) = Returns true ->
      Unix.Directory_create h this s =
      (Returns tt, host_call (Unix.sys_mkdir path 493) false (world s) s) /\
      fst (Unix.Directory_exists h this (snd (Unix.Directory_create h this s)))
      = fst (Unix.Directory_exists h this s)) /\
     (forall s1,
        (forall w1, Unix.mkdir h path 493 (world s) = inl w1 ->
                    Unix.mkdir h path 493 w1 = inr Unix.EEXIST) ->
        Unix.Directory_create h this s = (Returns tt, s1) ->
        fst (Unix.Directory_create h this s1) = Returns tt))
  /\
  (forall W (h : Win.host W) (this : Win.Directory) (s : machine W Win.syscall),
     let path := Win.Path_toString (Win.Directory_m_path this) in
     (forall w', Win.CreateDirectoryA h path (world s) = inl w' ->
      Win.Directory_create h this s =
      (Returns tt, host_call (Win.sys_CreateDirectoryA path) true w' s)) /\
     (Win.CreateDirectoryA h path (world s) = inr Win.ERROR_ALREADY_EXISTS ->
      Win.Directory_create h this s =
      (Returns tt, host_call (Win.sys_CreateDirectoryA path) false (world s) s)) /\
     (forall err, Win.CreateDirectoryA h path (world s) = inr err ->
                  err <> Win.ERROR_ALREADY_EXISTS ->
      Win.Directory_create h this s =
      (Throws "Could not create directory",
       host_call (Win.sys_CreateDirectoryA path) false (world s) s)) /\
     ((Win.GetFileAttributesA h path (world s) <> Win.INVALID_FILE_ATTRIBUTES ->
       Win.CreateDirectoryA h path (world s) = inr Win.ERROR_ALREADY_EXISTS) ->
      fst (Win.Path_exists h (Win.Directory_m_path this) s) = Returns true ->
      Win.Directory_create h this s =
      (Returns tt, host_call (Win.sys_CreateDirectoryA path) false (world s) s) /\
      fst (Win.Directory_exists h this (snd (Win.Directory_create h this s)))
      = fst (Win.Directory_exists h this s)) /\
     (forall s1,
        (forall w1, Win.CreateDirectoryA h path (world s) = inl w1 ->
                    Win.CreateDirectoryA h path w1 = inr Win.ERROR_ALREADY_EXISTS) ->
        Win.Directory_create h this s = (Returns tt, s1) ->
        fst (Win.Directory_create h this s1) = Returns tt)).
Proof.
  split; intros W h this s path.
  - assert (Hexists : Unix.mkdir h path 493 (world s) = inr Unix.EEXIST ->
              Unix.Directory_create h this s =
              (Returns tt, host_call (Unix.sys_mkdir path 493) false (world s) s)).
    { intros H. rewrite unix_create_run. fold path. now rewrite H. }
    split; [|split; [|split; [|split]]].
    + intros w' H. rewrite unix_create_run. fold path. now rewrite H.
    + exact Hexists.
    + intros errno H Hne. rewrite unix_create_run. fold path. rewrite H.
      apply Z.eqb_neq in Hne. now rewrite Hne.
    + intros Hlaw Hthere. rewrite unix_exists_run in Hthere. cbn [fst] in Hthere.
      change (Unix.m_path (Unix.Directory_m_path this)) with path in Hthere.
      destruct (Unix.stat h path (world s)) as [st_mode|] eqn:E; [|discriminate].
      rewrite (Hexists (Hlaw st_mode eq_refl)). split; [reflexivity |].
      cbn [snd]. unfold Unix.Directory_exists, bind. rewrite !unix_exists_run.
      change (Unix.m_path (Unix.Directory_m_path this)) with path.
      cbn [world host_call]. rewrite E. cbn [isSome].
      rewrite !unix_isDirectory_run. reflexivity.
    + intros s1 Hlaw. rewrite !unix_create_run. fold path.
      destruct (Unix.mkdir h path 493 (world s)) as [w1|errno] eqn:E.
      * intros [= <-]. cbn [world host_call]. now rewrite (Hlaw w1 eq_refl).
      * destruct (Z.eqb_spec errno Unix.EEXIST) as [->|Hne]; [|discriminate].
        intros [= <-]. cbn [world host_call]. now rewrite E.
  - assert (Hexists : Win.CreateDirectoryA h path (world s) = inr Win.ERROR_ALREADY_EXISTS ->
              Win.Directory_create h this s =
              (Returns tt, host_call (Win.sys_CreateDirectoryA path) false (world s) s)).
    { intros H. rewrite win_create_run. fold path. now rewrite H. }
    split; [|split; [|split; [|split]]].
    + intros w' H. rewrite win_create_run. fold path. now rewrite H.
    + exact Hexists.
    + intros err H Hne. rewrite win_create_run. fold path. rewrite H.
      apply Z.eqb_neq in Hne. now rewrite Hne.
    + intros Hlaw Hthere.
      unfold Win.Path_exists, bind, Win.do_GetFileAttributesA, ret in Hthere.
      cbn [fst] in Hthere.
      change (Win.m_path (Win.Directory_m_path this)) with path in Hthere.
      destruct (Z.eqb_spec (Win.GetFileAttributesA h path (world s))
                  Win.INVALID_FILE_ATTRIBUTES) as [_|Hne]; [discriminate |].
      rewrite (Hexists (Hlaw Hne)). split; [reflexivity |].
      cbn [snd]. unfold Win.Directory_exists, Win.Path_exists, bind,
        Win.do_GetFileAttributesA, ret.
      change (Win.m_path (Win.Directory_m_path this)) with path.
      cbn [world host_call].
      destruct (Z.eqb_spec (Win.GetFileAttributesA h path (world s))
                  Win.INVALID_FILE_ATTRIBUTES) as [F|_]; [contradiction |].
      cbn [negb]. rewrite !win_isDirectory_run. reflexivity.
    + intros s1 Hlaw. rewrite !win_create_run. fold path.
      destruct (Win.CreateDirectoryA h path (world s)) as [w1|err] eqn:E.
      * intros [= <-]. cbn [world host_call]. now rewrite (Hlaw w1 eq_refl).
      * destruct (Z.eqb_spec err Win.ERROR_ALREADY_EXISTS) as [->|Hne]; [|discriminate].
        intros [= <-]. cbn [world host_call]. now rewrite E.
Qed.

(** Creating /tmp/d/new twice on the model host, and creating the
    subdirectory of the test "Directory listing" once more, on both model
    hosts. *)
Lemma create_idempotent_witness :
  fst (Unix.Directory_create unix_host (unix_dir "/tmp/d/new")
         (snd (Unix.Directory_create unix_host (unix_dir "/tmp/d/new") (boot listing))))
  = Returns tt
  /\
  Unix.Directory_create unix_host (unix_dir "/tmp/d/subdir") (boot listing)
  = (Returns tt, Machine listing [(Unix.sys_mkdir "/tmp/d/subdir" 493, false)])
  /\
  Win.Directory_create win32 (win_dir "C:\t\d\subdir") (boot win_listing)
  = (Returns tt, Machine win_listing [(Win.sys_CreateDirectoryA "C:\t\d\subdir", false)]).
Proof.
  split; [|split].
  - refine (proj2 (proj2 (proj2 (proj2 (proj1 create_idempotent disk unix_host
                                          (unix_dir "/tmp/d/new") (boot listing)))))
                  _ _ _).
    + intros w1 H. vm_compute in H. injection H as <-. vm_compute. reflexivity.
    + vm_compute. reflexivity.
  - refine (proj1 (proj1 (proj2 (proj2 (proj2 (proj1 create_idempotent disk unix_host
                                                 (unix_dir "/tmp/d/subdir") (boot listing)))))
                     _ _)).
    + intros st_mode _. vm_compute. reflexivity.
    + vm_compute. reflexivity.
  - refine (proj1 (proj1 (proj2 (proj2 (proj2 (proj2 create_idempotent disk win32
                                                 (win_dir "C:\t\d\subdir") (boot win_listing)))))
                     _ _)).
    + intros _. vm_compute. reflexivity.
    + vm_compute. reflexivity.
Defined.

(** A regular file stands where the directory is to be: no directory
    exists there, the host rejects the creation, and [create] returns
    normally all the same, with nothing created and still no directory
    there.  On both model hosts. *)
Lemma create_on_file_counterexample :
  (fst (Unix.Directory_exists unix_host (unix_dir "/tmp/d/file1.txt") (boot listing))
   = Returns false /\
   Unix.mkdir unix_host "/tmp/d/file1.txt" 493 listing = inr Unix.EEXIST /\
   Unix.Directory_create unix_host (unix_dir "/tmp/d/file1.txt") (boot listing)
   = (Returns tt, Machine listing [(Unix.sys_mkdir "/tmp/d/file1.txt" 493, false)]) /\
   fst (Unix.Directory_exists unix_host (unix_dir "/tmp/d/file1.txt")
          (snd (Unix.Directory_create unix_host (unix_dir "/tmp/d/file1.txt") (boot listing))))
   = Returns false)
  /\
  (fst (Win.Directory_exists win32 (win_dir "C:\t\d\file1.txt") (boot win_listing))
   = Returns false /\
   Win.CreateDirectoryA win32 "C:\t\d\file1.txt" win_listing = inr Win.ERROR_ALREADY_EXISTS /\
   Win.Directory_create win32 (win_dir "C:\t\d\file1.txt") (boot win_listing)
   = (Returns tt, Machine win_listing [(Win.sys_CreateDirectoryA "C:\t\d\file1.txt", false)]) /\
   fst (Win.Directory_exists win32 (win_dir "C:\t\d\file1.txt")
          (snd (Win.Directory_create win32 (win_dir "C:\t\d\file1.txt") (boot win_listing))))
   = Returns false).
Proof. vm_compute. repeat split. Qed.

(** C9.  [File::exists] returns true exactly when the host's lookup of the
    path succeeds and finds a regular file, [Directory::exists] exactly
    when it succeeds and finds a directory.  On both implementations (the
    Windows-like one takes for a file whatever has no directory
    attribute). *)
Theorem exists_requires_kind :
  (forall W (h : Unix.host W) (s : machine W Unix.syscall),
     (forall this : Unix.File,
        exists b, fst (Unix.File_exists h this s) = Returns b /\
          (b = true <->
           exists st_mode,
             Unix.stat h (Unix.Path_toString (Unix.File_m_path this)) (world s) = Some st_mode
             /\ Unix.S_ISREG st_mode = true)) /\
     (forall this : Unix.Directory,
        exists b, fst (Unix.Directory_exists h this s) = Returns b /\
          (b = true <->
           exists st_mode,
             Unix.stat h (Unix.Path_toString (Unix.Directory_m_path this)) (world s)
             = Some st_mode
             /\ Unix.S_ISDIR st_mode = true)))
  /\
  (forall W (h : Win.host W) (s : machine W Win.syscall),
     (forall this : Win.File,
        exists b, fst (Win.File_exists h this s) = Returns b /\
          (b = true <->
           let attr :=
             Win.GetFileAttributesA h (Win.Path_toString (Win.File_m_path this)) (world s) in
           attr <> Win.INVALID_FILE_ATTRIBUTES /\ Win.has_directory_bit attr = false)) /\
     (forall this : Win.Directory,
        exists b, fst (Win.Directory_exists h this s) = Returns b /\
          (b = true <->
           let attr :=
             Win.GetFileAttributesA h (Win.Path_toString (Win.Directory_m_path this))
               (world s) in
           attr <> Win.INVALID_FILE_ATTRIBUTES /\ Win.has_directory_bit attr = true))).
Proof.
  split; intros W h s; split; intros this.
  - apply unix_file_exists.
  - apply unix_directory_exists.
  - apply win_file_exists.
  - apply win_directory_exists.
Qed.





(** * Further properties of the code *)

(** ** Path components *)

Section Components.

Lemma substr_from_cons (n : nat) (c : ascii) (s : string) :
  substr_from (S n) (String c s) = substr_from n s.
Proof. reflexivity. Qed.

Lemma occurs_singleton (c a : ascii) : occurs c (String a "") = true -> c = a.
Proof.
  cbn [occurs]. rewrite orb_false_r. intros H. apply Ascii.eqb_eq in H. now subst.
Qed.

Lemma occurs_pair (c a b : ascii) :
  occurs c (String a (String b "")) = true -> c = a \/ c = b.
Proof.
  cbn [occurs]. rewrite orb_false_r. intros H. apply orb_prop in H as [H|H];
    apply Ascii.eqb_eq in H; subst; auto.
Qed.

(** Where [find_last_of] finds a character, the string splits there. *)
Lemma find_last_of_split (set : string) (s : string) :
  forall pos, find_last_of set s = Some pos ->
    exists pre c post,
      s = pre ++ String c post /\ String.length pre = pos /\
      occurs c set = true /\ find_last_of set post = None.
Proof.
  induction s as [|a rest IH]; intros pos H; [discriminate |].
  cbn [find_last_of] in H.
  destruct (find_last_of set rest) as [k|] eqn:E.
  - injection H as <-. destruct (IH k eq_refl) as (pre & c & post & -> & Hlen & Hc & Hpost).
    exists (String a pre), c, post. cbn. now rewrite Hlen.
  - destruct (occurs a set) eqn:Ha; [|discriminate]. injection H as <-.
    now exists "", a, rest.
Qed.

Lemma find_last_of_none (set : string) (s : string) (c : ascii) :
  find_last_of set s = None -> occurs c set = true -> occurs c s = false.
Proof.
  intros H Hc. induction s as [|a rest IH]; [reflexivity |].
  cbn [find_last_of] in H.
  destruct (find_last_of set rest); [discriminate |].
  destruct (occurs a set) eqn:Ha; [discriminate |].
  cbn [occurs]. rewrite (IH eq_refl), orb_false_r.
  destruct (Ascii.eqb_spec a c) as [->|]; [congruence | reflexivity].
Qed.

Lemma substr_from_split (pre : string) (c : ascii) (post : string) :
  substr_from (String.length pre + 1) (pre ++ String c post) = post.
Proof.
  replace (String.length pre + 1) with (String.length (pre ++ String c "")).
  - change (pre ++ String c post) with (pre ++ (String c "" ++ post)).
    rewrite <- append_assoc. apply substr_from_append.
  - rewrite length_append. reflexivity.
Qed.

(** The two shapes of a path string, as [filename] and [parent] see it. *)
Lemma unix_filename_cases (p : Unix.Path) :
  (find_last_of "/" (Unix.m_path p) = None /\ Unix.Path_filename p = Unix.m_path p) \/
  (exists dir name,
     Unix.m_path p = dir ++ String slash name /\
     find_last_of "/" (Unix.m_path p) = Some (String.length dir) /\
     find_last_of "/" name = None /\ Unix.Path_filename p = name).
Proof.
  unfold Unix.Path_filename.
  change (String slash "") with "/".
  destruct (find_last_of "/" (Unix.m_path p)) as [pos|] eqn:E; [right | now left].
  destruct (find_last_of_split _ _ _ E) as (pre & c & post & Hs & Hlen & Hc & Hpost).
  apply occurs_singleton in Hc. subst c.
  exists pre, post. subst pos. rewrite Hs. repeat split; trivial.
  apply substr_from_split.
Qed.

Lemma win_filename_cases (p : Win.Path) :
  let set := String backslash (String slash "") in
  (find_last_of set (Win.m_path p) = None /\ Win.Path_filename p = Win.m_path p) \/
  (exists dir c name,
     Win.m_path p = dir ++ String c name /\ is_separator c = true /\
     find_last_of set (Win.m_path p) = Some (String.length dir) /\
     find_last_of set name = None /\ Win.Path_filename p = name).
Proof.
  intros set. unfold Win.Path_filename. fold set.
  destruct (find_last_of set (Win.m_path p)) as [pos|] eqn:E; [right | now left].
  destruct (find_last_of_split _ _ _ E) as (pre & c & post & Hs & Hlen & Hc & Hpost).
  exists pre, c, post. subst pos. rewrite Hs. repeat split; trivial.
  - apply occurs_pair in Hc as [->| ->]; reflexivity.
  - apply substr_from_split.
Qed.

Lemma unix_filename_no_separator (p : Unix.Path) :
  occurs slash (Unix.Path_filename p) = false.
Proof.
  destruct (unix_filename_cases p) as [[H ->] | (dir & name & _ & _ & H & ->)];
    now apply (find_last_of_none "/").
Qed.

Lemma win_filename_no_separator (p : Win.Path) :
  occurs backslash (Win.Path_filename p) = false /\
  occurs slash (Win.Path_filename p) = false.
Proof.
  destruct (win_filename_cases p) as [[H ->] | (dir & c & name & _ & _ & _ & H & ->)];
    split; now apply (find_last_of_none (String backslash (String slash ""))).
Qed.

Lemma occurs_substr_from_split (x : ascii) (pre : string) (c : ascii) (post : string) :
  occurs x (pre ++ String c post) = false -> occurs x post = false.
Proof.
  rewrite occurs_append. intros H. apply orb_false_elim in H as [_ H].
  cbn in H. now apply orb_false_elim in H.
Qed.

(** The extension of a file name: nothing, or its last dot and what follows. *)
Lemma extension_of_filename (filename : string) :
  match find_last_of "." filename with
  | None => occurs "." filename = false
  | Some pos =>
      exists stem rest,
        filename = stem ++ String "." rest /\ String.length stem = pos /\
        substr_from pos filename = String "." rest /\ occurs "." rest = false
  end.
Proof.
  destruct (find_last_of "." filename) as [pos|] eqn:E.
  - destruct (find_last_of_split _ _ _ E) as (pre & c & post & Hs & Hlen & Hc & Hpost).
    apply occurs_singleton in Hc. subst c.
    exists pre, post. repeat split; trivial.
    + subst pos. rewrite Hs. apply substr_from_append.
    + now apply (find_last_of_none ".").
  - now apply (find_last_of_none ".").
Qed.

End Components.

(** X1.  [Path::filename] never holds a separator: no slash on the
    POSIX-like implementation, neither separator on the Windows-like one,
    whatever the path. *)
Theorem filename_has_no_separator :
  (forall p : Unix.Path, occurs slash (Unix.Path_filename p) = false) /\
  (forall p : Win.Path,
     occurs backslash (Win.Path_filename p) = false /\
     occurs slash (Win.Path_filename p) = false).
Proof. split; [apply unix_filename_no_separator | apply win_filename_no_separator]. Qed.

Lemma win_parent_filename (s : string) :
  occurs backslash (Win.Path_toString (Win.Path_Path s)) = true ->
  Win.Path_toString (Win.Path_parent (Win.Path_Path s))
  ++ String Win.Path_separator (Win.Path_filename (Win.Path_Path s))
  = Win.Path_toString (Win.Path_Path s).
Proof.
  intros Hsep. set (p := Win.Path_Path s).
  pose proof (win_path_no_slash s) as Hslash. fold p in Hsep, Hslash.
  destruct (win_filename_cases p) as [[H _] | (dir & c & name & Hm & Hc & _ & Hname & ->)].
  - unfold Win.Path_toString in Hsep.
    rewrite (find_last_of_none _ _ backslash H eq_refl) in Hsep. discriminate.
  - change (Win.m_path p) with (Win.Path_toString p) in Hm.
    assert (c = backslash) as ->.
    { rewrite Hm, occurs_append in Hslash. apply orb_false_elim in Hslash as [_ Hslash].
      cbn [occurs] in Hslash. apply orb_false_elim in Hslash as [Hcs _].
      unfold is_separator in Hc. rewrite Hcs in Hc. now apply Ascii.eqb_eq in Hc. }
    subst p. rewrite (win_parent_split s dir name Hm).
    + now rewrite Hm.
    + now apply (find_last_of_none (String backslash (String slash ""))).
Qed.

(** X2.  Parent and file name put the path back together.  On the
    Windows-like implementation, for every path with a separator in it,
    [parent()], the separator and [filename()] concatenate to the path's
    string.  On the POSIX-like implementation they do when a directory part
    precedes the last slash and does not itself end in a slash; for a child
    of the root they give a doubled slash. *)
Theorem parent_filename_round_trip :
  (forall s,
     occurs backslash (Win.Path_toString (Win.Path_Path s)) = true ->
     Win.Path_toString (Win.Path_parent (Win.Path_Path s))
     ++ String Win.Path_separator (Win.Path_filename (Win.Path_Path s))
     = Win.Path_toString (Win.Path_Path s)) /\
  (forall s dir name,
     Unix.Path_toString (Unix.Path_Path s) = dir ++ String slash name ->
     occurs slash name = false ->
     dir <> "" -> ends_with slash dir = false ->
     Unix.Path_toString (Unix.Path_parent (Unix.Path_Path s))
     ++ String Unix.Path_separator (Unix.Path_filename (Unix.Path_Path s))
     = Unix.Path_toString (Unix.Path_Path s)) /\
  (forall s name,
     Unix.Path_toString (Unix.Path_Path s) = String slash name ->
     occurs slash name = false ->
     Unix.Path_toString (Unix.Path_parent (Unix.Path_Path s))
     ++ String Unix.Path_separator (Unix.Path_filename (Unix.Path_Path s))
     = String slash (String slash name)).
Proof.
  split; [exact win_parent_filename | split].
  - intros s dir name E Hname Hdir Hend.
    assert (Hfile : Unix.Path_filename (Unix.Path_Path s) = name).
    { unfold Unix.Path_filename.
      change (Unix.m_path (Unix.Path_Path s)) with (Unix.Path_toString (Unix.Path_Path s)).
      rewrite E, (find_last_of_append _ dir slash name);
        [apply substr_from_split | reflexivity | now apply find_last_of_char]. }
    rewrite Hfile, (unix_parent_split s dir name E Hname).
    assert (Hback : occurs backslash dir = false).
    { pose proof (unix_path_no_backslash s) as H. rewrite E, occurs_append in H.
      now apply orb_false_elim in H. }
    destruct dir as [|x dir]; [contradiction |].
    rewrite (unix_path_normalised _ Hback). unfold strip_one.
    now rewrite Hend, andb_false_r, E.
  - intros s name E Hname.
    assert (Hfile : Unix.Path_filename (Unix.Path_Path s) = name).
    { unfold Unix.Path_filename.
      change (Unix.m_path (Unix.Path_Path s)) with (Unix.Path_toString (Unix.Path_Path s)).
      rewrite E, (find_last_of_append _ "" slash name);
        [apply (substr_from_split "") | reflexivity | now apply find_last_of_char]. }
    now rewrite Hfile, (unix_parent_split s "" name E Hname).
Qed.

(** The path of the test suite, and a child of the root. *)
Lemma parent_filename_witness :
  Unix.Path_toString (Unix.Path_parent (Unix.Path_Path "test/path/file.txt"))
  ++ String Unix.Path_separator (Unix.Path_filename (Unix.Path_Path "test/path/file.txt"))
  = "test/path/file.txt" /\
  Unix.Path_toString (Unix.Path_parent (Unix.Path_Path "/etc"))
  ++ String Unix.Path_separator (Unix.Path_filename (Unix.Path_Path "/etc"))
  = "//etc".
Proof.
  split.
  - refine (proj1 (proj2 parent_filename_round_trip)
                  "test/path/file.txt" "test/path" "file.txt" _ _ _ _);
      [reflexivity | reflexivity | discriminate | reflexivity].
  - refine (proj2 (proj2 parent_filename_round_trip) "/etc" "etc" _ _); reflexivity.
Defined.

Lemma unix_extension_shape (p : Unix.Path) :
  (occurs "." (Unix.Path_filename p) = false /\ Unix.Path_extension p = "") \/
  (exists stem rest,
     Unix.Path_filename p = stem ++ String "." rest /\
     Unix.Path_extension p = String "." rest /\ occurs "." rest = false).
Proof.
  unfold Unix.Path_extension. cbn zeta.
  pose proof (extension_of_filename (Unix.Path_filename p)) as H.
  destruct (find_last_of "." (Unix.Path_filename p)) as [pos|]; [right | now left].
  destruct H as (stem & rest & Hf & _ & He & Hrest). now exists stem, rest.
Qed.

Lemma win_extension_shape (p : Win.Path) :
  (occurs "." (Win.Path_filename p) = false /\ Win.Path_extension p = "") \/
  (exists stem rest,
     Win.Path_filename p = stem ++ String "." rest /\
     Win.Path_extension p = String "." rest /\ occurs "." rest = false).
Proof.
  unfold Win.Path_extension. cbn zeta.
  pose proof (extension_of_filename (Win.Path_filename p)) as H.
  destruct (find_last_of "." (Win.Path_filename p)) as [pos|]; [right | now left].
  destruct H as (stem & rest & Hf & _ & He & Hrest). now exists stem, rest.
Qed.

(** X3.  [Path::extension] is empty exactly when the file name has no dot;
    otherwise it is the last dot of the file name and what follows it, so
    it starts with a dot, holds no other dot, and ends the file name.  It
    never holds a separator, so a dot in a directory name gives no
    extension.  On both implementations. *)
Theorem extension_is_last_dot_suffix :
  (forall p : Unix.Path,
     ((occurs "." (Unix.Path_filename p) = false /\ Unix.Path_extension p = "") \/
      (exists stem rest,
         Unix.Path_filename p = stem ++ String "." rest /\
         Unix.Path_extension p = String "." rest /\ occurs "." rest = false)) /\
     occurs slash (Unix.Path_extension p) = false) /\
  (forall p : Win.Path,
     ((occurs "." (Win.Path_filename p) = false /\ Win.Path_extension p = "") \/
      (exists stem rest,
         Win.Path_filename p = stem ++ String "." rest /\
         Win.Path_extension p = String "." rest /\ occurs "." rest = false)) /\
     occurs backslash (Win.Path_extension p) = false /\
     occurs slash (Win.Path_extension p) = false).
Proof.
  split; intros p.
  - split; [apply unix_extension_shape |].
    pose proof (unix_filename_no_separator p) as Hf.
    destruct (unix_extension_shape p) as [[_ ->] | (stem & rest & E & -> & _)];
      [reflexivity |].
    rewrite E in Hf. now apply occurs_substr_from_split in Hf.
  - split; [apply win_extension_shape |].
    destruct (win_filename_no_separator p) as [Hb Hs].
    destruct (win_extension_shape p) as [[_ ->] | (stem & rest & E & -> & _)];
      [now split |].
    rewrite E in Hb, Hs.
    split; cbn [occurs]; apply orb_false_intro; try reflexivity;
      eapply occurs_substr_from_split; eassumption.
Qed.

Lemma replace_pop_back (a b : ascii) (s : string) :
  replace a b (pop_back s) = pop_back (replace a b s).
Proof.
  destruct (snoc_cases s) as [-> | (r & c & ->)]; [reflexivity |].
  now rewrite replace_push_back, !pop_back_push_back.
Qed.

Lemma ends_with_replace (s : string) :
  ends_with slash (replace backslash slash s) = ends_with_separator s.
Proof.
  destruct (snoc_cases s) as [-> | (r & c & ->)]; [reflexivity |].
  rewrite replace_push_back, ends_with_push_back, is_separator_replace.
  unfold ends_with_separator. now rewrite back_push_back.
Qed.

Lemma unix_path_on_input :
  forall s,
    Unix.Path_toString (Unix.Path_Path s) =
    replace backslash slash
      (if (1 <? String.length s)%nat && ends_with_separator s then pop_back s else s) /\
    String.length s - 1 <= String.length (Unix.Path_toString (Unix.Path_Path s))
      <= String.length s /\
    (Unix.Path_toString (Unix.Path_Path s) = "" <-> s = "").
Proof.
  intros s.
  assert (E : Unix.Path_toString (Unix.Path_Path s) =
              replace backslash slash
                (if (1 <? String.length s)%nat && ends_with_separator s
                 then pop_back s else s)).
  { rewrite unix_path_strip. unfold strip_one.
    rewrite length_replace, ends_with_replace.
    destruct (_ && _); [now rewrite replace_pop_back | reflexivity]. }
  split; [exact E |]. rewrite E, length_replace.
  destruct (snoc_cases s) as [-> | (r & c & ->)].
  - cbn. repeat split; trivial; lia.
  - rewrite length_push_back.
    destruct ((1 <? S (String.length r))%nat && ends_with_separator (push_back r c)) eqn:Hc.
    + rewrite pop_back_push_back. split; [lia |].
      apply andb_prop in Hc as [Hlen _]. apply Nat.ltb_lt in Hlen.
      split; intros H.
      * apply (f_equal String.length) in H. rewrite length_replace in H.
        destruct r; [simpl in Hlen; lia | discriminate].
      * apply (f_equal String.length) in H. rewrite length_push_back in H. discriminate.
    + rewrite length_push_back. split; [lia |].
      split; intros H; apply (f_equal String.length) in H;
        rewrite ?length_replace, length_push_back in H; discriminate.
Qed.

(** X4.  The POSIX-like constructor, read on its input: every backslash
    becomes a slash, and the last character goes exactly when the input is
    longer than one character and ends in a separator of either kind.  So
    the path's string is at most one character shorter than the input, and
    it is empty only for the empty input. *)
Theorem unix_constructor_on_input :
  forall s,
    Unix.Path_toString (Unix.Path_Path s) =
    replace backslash slash
      (if (1 <? String.length s)%nat && ends_with_separator s then pop_back s else s) /\
    String.length s - 1 <= String.length (Unix.Path_toString (Unix.Path_Path s))
      <= String.length s /\
    (Unix.Path_toString (Unix.Path_Path s) = "" <-> s = "").
Proof. exact unix_path_on_input. Qed.

(** ** The entries of a listing and the directory listed *)

Section EntriesAndDirectory.

Lemma unix_path_record (p : Unix.Path) : p = Unix.mkPath (Unix.Path_toString p).
Proof. now destruct p. Qed.

Lemma win_path_record (p : Win.Path) : p = Win.mkPath (Win.Path_toString p).
Proof. now destruct p. Qed.

Lemma unix_child_parent (s name : string) :
  s <> "" -> ~ doubly_terminated s ->
  name <> "" -> occurs slash name = false -> occurs backslash name = false ->
  Unix.Path_parent (Unix.child_of (Unix.mkDirectory (Unix.Path_Path s)) name)
  = Unix.Path_Path s.
Proof.
  intros Hs Hdouble Hne Hslash Hback.
  set (d := Unix.Path_toString (Unix.Path_Path s)).
  assert (Hd : d <> "").
  { intros E. destruct (unix_path_on_input s) as (_ & _ & Hiff). now apply Hs, Hiff. }
  assert (Hchild : Unix.Path_toString (Unix.Path_Path (d ++ "/" ++ name))
                   = d ++ String slash name).
  { pose proof (unix_child_string (Unix.mkDirectory (Unix.Path_Path s)) name
                  Hne Hslash Hback) as H.
    cbn [Unix.Directory_m_path] in H. fold d in H.
    now rewrite (replace_absent _ _ d (unix_path_no_backslash s)) in H. }
  unfold Unix.child_of. cbn [Unix.Directory_m_path]. fold d.
  rewrite (unix_parent_split (d ++ "/" ++ name) d name Hchild Hslash).
  destruct d as [|x d'] eqn:Ed; [contradiction |]. rewrite <- Ed.
  rewrite (unix_path_record (Unix.Path_Path d)), (unix_path_record (Unix.Path_Path s)).
  f_equal. subst d. now apply unix_idempotent_iff.
Qed.

Lemma win_child_parent (s name : string) :
  occurs slash name = false -> occurs backslash name = false ->
  Win.Path_parent (Win.child_of (Win.mkDirectory (Win.Path_Path s)) name)
  = Win.Path_Path s.
Proof.
  intros Hslash Hback.
  set (d := Win.Path_toString (Win.Path_Path s)).
  assert (Hchild : Win.Path_toString (Win.Path_Path (d ++ String backslash name))
                   = d ++ String backslash name).
  { pose proof (win_child_string (Win.mkDirectory (Win.Path_Path s)) name Hslash) as H.
    cbn [Win.Directory_m_path] in H. fold d in H.
    now rewrite (replace_absent _ _ d (win_path_no_slash s)) in H. }
  unfold Win.child_of. cbn [Win.Directory_m_path]. fold d.
  rewrite (win_path_record (Win.Path_parent _)).
  rewrite (win_parent_split (d ++ String backslash name) d name Hchild Hback).
  subst d. now rewrite <- win_path_record.
Qed.

(** A child of a directory whose string holds no backslash lies under it. *)
Lemma unix_child_under (dir : Unix.Directory) (name : string) :
  occurs backslash (Unix.Path_toString (Unix.Directory_m_path dir)) = false ->
  name <> "" ->
  exists relative,
    Unix.Path_toString (Unix.child_of dir name)
    = Unix.Path_toString (Unix.Directory_m_path dir) ++ String slash relative.
Proof.
  intros Hd Hne. unfold Unix.child_of.
  set (d := Unix.Path_toString (Unix.Directory_m_path dir)) in *.
  rewrite unix_path_strip, replace_append, (replace_absent _ _ d Hd).
  cbn [append replace].
  change (if Ascii.eqb "/" backslash then slash else "/"%char) with slash.
  destruct (snoc_cases (replace backslash slash name)) as [E | (r & c & E)].
  { apply (f_equal String.length) in E. rewrite length_replace in E.
    destruct name; [contradiction | discriminate]. }
  rewrite E.
  change (d ++ String slash (push_back r c)) with (d ++ (String slash "" ++ push_back r c)).
  unfold push_back. rewrite <- !append_assoc.
  change (((d ++ String slash "") ++ r) ++ String c "")
    with (push_back ((d ++ String slash "") ++ r) c).
  rewrite strip_one_push_back.
  destruct (_ && _).
  - exists r. now rewrite append_assoc.
  - exists (push_back r c). unfold push_back. now rewrite !append_assoc.
Qed.

Lemma win_child_under (dir : Win.Directory) (name : string) :
  occurs slash (Win.Path_toString (Win.Directory_m_path dir)) = false ->
  exists relative,
    Win.Path_toString (Win.child_of dir name)
    = Win.Path_toString (Win.Directory_m_path dir) ++ String backslash relative.
Proof.
  intros Hd. unfold Win.child_of, Win.Path_Path, Win.Path_toString. cbn [Win.m_path].
  rewrite replace_append, (replace_absent _ _ _ Hd). cbn [replace].
  now exists (replace slash backslash name).
Qed.

Lemma unix_child_normalised (dir : Unix.Directory) (name : string) :
  occurs backslash (Unix.Path_toString (Unix.child_of dir name)) = false.
Proof. apply unix_path_no_backslash. Qed.

Lemma win_child_normalised (dir : Win.Directory) (name : string) :
  occurs slash (Win.Path_toString (Win.child_of dir name)) = false.
Proof. apply win_path_no_slash. Qed.

Lemma unix_children_under {W} (h : Unix.host W) (w : W) (dir : Unix.Directory) :
  (forall path names, Unix.opendir h path w = Some names -> ~ In "" names) ->
  occurs backslash (Unix.Path_toString (Unix.Directory_m_path dir)) = false ->
  forall e, In e (Unix.spec_children h w dir) ->
    exists relative,
      Unix.Path_toString e
      = Unix.Path_toString (Unix.Directory_m_path dir) ++ String slash relative.
Proof.
  intros Hnames Hd e He.
  destruct (unix_children_named h w dir e He) as (name & entries & -> & _ & _ & Ho & Hin).
  apply unix_child_under; [exact Hd |].
  intros ->. exact (Hnames _ _ Ho Hin).
Qed.

Lemma unix_preorder_under {W} (h : Unix.host W) (w : W) (depth : nat) :
  (forall path names, Unix.opendir h path w = Some names -> ~ In "" names) ->
  forall dir,
    occurs backslash (Unix.Path_toString (Unix.Directory_m_path dir)) = false ->
    forall e, In e (Unix.spec_preorder h w depth dir) ->
      exists relative,
        Unix.Path_toString e
        = Unix.Path_toString (Unix.Directory_m_path dir) ++ String slash relative.
Proof.
  intros Hnames. induction depth as [|k IH]; intros dir Hd e He; [contradiction |].
  cbn [Unix.spec_preorder] in He. apply in_flat_map in He as (c & Hc & [<-|He]).
  - now apply (unix_children_under h w dir Hnames Hd).
  - destruct (Unix.is_directory h w c); [|contradiction].
    destruct (unix_children_under h w dir Hnames Hd c Hc) as (rc & Ec).
    assert (Hcn : occurs backslash (Unix.Path_toString c) = false).
    { unfold Unix.spec_children in Hc. apply in_map_iff in Hc as (name & <- & _).
      apply unix_child_normalised. }
    destruct (IH (Unix.mkDirectory c) Hcn e He) as (re & Ee).
    cbn [Unix.Directory_m_path] in Ee. rewrite Ec in Ee.
    exists (rc ++ String slash re). rewrite Ee. now rewrite append_assoc.
Qed.

Lemma win_children_under {W} (h : Win.host W) (w : W) (dir : Win.Directory) :
  occurs slash (Win.Path_toString (Win.Directory_m_path dir)) = false ->
  forall e, In e (Win.spec_children h w dir) ->
    exists relative,
      Win.Path_toString e
      = Win.Path_toString (Win.Directory_m_path dir) ++ String backslash relative.
Proof.
  intros Hd e He. unfold Win.spec_children in He.
  apply in_map_iff in He as (found & <- & _). now apply win_child_under.
Qed.

Lemma win_preorder_under {W} (h : Win.host W) (w : W) (depth : nat) :
  forall dir,
    occurs slash (Win.Path_toString (Win.Directory_m_path dir)) = false ->
    forall e, In e (Win.spec_preorder h w depth dir) ->
      exists relative,
        Win.Path_toString e
        = Win.Path_toString (Win.Directory_m_path dir) ++ String backslash relative.
Proof.
  induction depth as [|k IH]; intros dir Hd e He; [contradiction |].
  cbn [Win.spec_preorder] in He. apply in_flat_map in He as (found & Hf & [<-|He]).
  - now apply win_child_under.
  - destruct (Win.has_directory_bit _); [|contradiction].
    destruct (win_child_under dir (Win.cFileName found) Hd) as (rc & Ec).
    destruct (IH (Win.mkDirectory (Win.child_of dir (Win.cFileName found)))
                 (win_child_normalised dir (Win.cFileName found)) e He) as (re & Ee).
    cbn [Win.Directory_m_path] in Ee. rewrite Ec in Ee.
    exists (rc ++ String backslash re). rewrite Ee. now rewrite append_assoc.
Qed.

End EntriesAndDirectory.

(** X5.  An entry of a listing has the listed directory as its parent: for
    a directory made from a string [s] and a name that is a single path
    component, [parent()] of the path [Directory::list] builds for that
    name is the Path of [s].  On the POSIX-like implementation this needs
    [s] not to be empty and not to end in two separators; on the
    Windows-like one it holds for every [s]. *)
Theorem listed_entry_parent_is_directory :
  (forall s name,
     s <> "" -> ~ doubly_terminated s ->
     name <> "" -> occurs slash name = false -> occurs backslash name = false ->
     Unix.Path_parent (Unix.child_of (Unix.mkDirectory (Unix.Path_Path s)) name)
     = Unix.Path_Path s) /\
  (forall s name,
     occurs slash name = false -> occurs backslash name = false ->
     Win.Path_parent (Win.child_of (Win.mkDirectory (Win.Path_Path s)) name)
     = Win.Path_Path s).
Proof. split; [exact unix_child_parent | exact win_child_parent]. Qed.

(** The directory of the test suite, given with a trailing separator. *)
Lemma listed_entry_parent_witness :
  Unix.Path_parent (Unix.child_of (Unix.mkDirectory (Unix.Path_Path "/tmp/d/")) "file1.txt")
  = Unix.Path_Path "/tmp/d/".
Proof.
  refine (proj1 listed_entry_parent_is_directory "/tmp/d/" "file1.txt" _ _ _ _ _);
    try discriminate; try reflexivity.
  change "/tmp/d/" with (push_back (push_back "/tmp/" "d") "/").
  intros H. apply doubly_terminated_spec in H as (_ & H & _). discriminate H.
Defined.

(** X6.  Every entry of a listing lies under the directory listed: its
    string is the directory's string, the separator, and a relative part
    (which is what the example program cuts off with [substr]).  For a
    directory made by the Path constructor; on the POSIX-like
    implementation on a host that enumerates no empty name, on the
    Windows-like one on every host. *)
Theorem listing_lies_under_directory :
  (forall W (h : Unix.host W) (s0 : string) (s : machine W Unix.syscall),
     let this := Unix.mkDirectory (Unix.Path_Path s0) in
     (forall path names, Unix.opendir h path (world s) = Some names -> ~ In "" names) ->
     (forall fuel,
        exists l, fst (Unix.Directory_list h (S fuel) this false s) = Returns l /\
          forall e, In e l ->
            exists relative,
              Unix.Path_toString e
              = Unix.Path_toString (Unix.Path_Path s0) ++ String slash relative) /\
     (forall depth fuel,
        Unix.depth_within h (world s) depth this = true -> depth <= fuel ->
        exists l, fst (Unix.Directory_list h fuel this true s) = Returns l /\
          forall e, In e l ->
            exists relative,
              Unix.Path_toString e
              = Unix.Path_toString (Unix.Path_Path s0) ++ String slash relative))
  /\
  (forall W (h : Win.host W) (s0 : string) (s : machine W Win.syscall),
     let this := Win.mkDirectory (Win.Path_Path s0) in
     (forall fuel,
        exists l, fst (Win.Directory_list h (S fuel) this false s) = Returns l /\
          forall e, In e l ->
            exists relative,
              Win.Path_toString e
              = Win.Path_toString (Win.Path_Path s0) ++ String backslash relative) /\
     (forall depth fuel,
        Win.depth_within h (world s) depth this = true -> depth <= fuel ->
        exists l, fst (Win.Directory_list h fuel this true s) = Returns l /\
          forall e, In e l ->
            exists relative,
              Win.Path_toString e
              = Win.Path_toString (Win.Path_Path s0) ++ String backslash relative)).
Proof.
  split.
  - intros W h s0 s this Hnames. split.
    + intros fuel. rewrite unix_list_false. eexists. split; [reflexivity |].
      apply (unix_children_under h (world s) this Hnames), unix_path_no_backslash.
    + intros depth fuel Hdepth Hfuel.
      destruct (unix_list_true h depth fuel this s Hdepth Hfuel) as (s' & -> & _).
      eexists. split; [reflexivity |].
      apply (unix_preorder_under h (world s) depth Hnames this), unix_path_no_backslash.
  - intros W h s0 s this. split.
    + intros fuel. rewrite win_list_false. eexists. split; [reflexivity |].
      apply (win_children_under h (world s) this), win_path_no_slash.
    + intros depth fuel Hdepth Hfuel.
      destruct (win_list_true h depth fuel this s Hdepth Hfuel) as (s' & -> & _).
      eexists. split; [reflexivity |].
      apply (win_preorder_under h (world s) depth this), win_path_no_slash.
Qed.

(** On the sample disk no directory holds an empty name. *)
Lemma sample_listing_names (path : string) (names : list string) :
  Unix.opendir unix_host path listing = Some names -> ~ In "" names.
Proof.
  cbn [Unix.opendir unix_host posix]. unfold posix_opendir, listing.
  cbn [lookup].
  repeat match goal with
         | |- context [if (?k =? path)%string then _ else _] =>
             destruct (k =? path)%string
         end;
    intros E; try discriminate; injection E as <-;
    cbn [In]; intros H; repeat destruct H as [H|H]; try discriminate H; exact H.
Qed.

(** The test "Directory listing": the four entries lie under /tmp/d. *)
Lemma listing_lies_under_witness :
  exists l,
    fst (Unix.Directory_list unix_host 2 (unix_dir "/tmp/d/") true (boot listing))
    = Returns l /\
    forall e, In e l ->
      exists relative, Unix.Path_toString e = "/tmp/d" ++ String slash relative.
Proof.
  refine (proj2 (proj1 listing_lies_under_directory disk unix_host "/tmp/d/"
                   (boot listing) sample_listing_names) 2 2 _ _).
  - vm_compute. reflexivity.
  - apply le_n.
Defined.

(** ** Which host calls a function makes *)

Section CallDiscipline.

Context {W C : Type}.

Lemma makes_only_pure {A} (allowed : C -> bool) (c : M W C A) :
  (forall s, snd (c s) = s) -> makes_only allowed c.
Proof. intros H s. exists []. rewrite H. now rewrite app_nil_r. Qed.

Lemma makes_only_call {A} (allowed : C -> bool) (c : M W C A) (call : C) :
  allowed call = true ->
  (forall s, exists ok w, snd (c s) = host_call call ok w s) ->
  makes_only allowed c.
Proof.
  intros Hcall H s. destruct (H s) as (ok & w & ->).
  exists [(call, ok)]. split; [reflexivity |]. cbn. now rewrite Hcall.
Qed.

Lemma makes_only_bind {A B} (allowed : C -> bool) (c : M W C A) (k : A -> M W C B) :
  makes_only allowed c -> (forall a, makes_only allowed (k a)) ->
  makes_only allowed (bind c k).
Proof.
  intros Hc Hk s. unfold bind. destruct (Hc s) as (calls & Ht & Hall).
  destruct (c s) as [[a|what|] s1]; cbn [snd] in *; try now exists calls.
  destruct (Hk a s1) as (calls' & Ht' & Hall').
  exists (calls ++ calls')%list. split.
  - now rewrite Ht', Ht, app_assoc.
  - now rewrite forallb_app, Hall, Hall'.
Qed.

Lemma makes_only_weaken {A} (allowed allowed' : C -> bool) (c : M W C A) :
  (forall call, allowed call = true -> allowed' call = true) ->
  makes_only allowed c -> makes_only allowed' c.
Proof.
  intros Himp Hc s. destruct (Hc s) as (calls & Ht & Hall).
  exists calls. split; [exact Ht |].
  rewrite forallb_forall in *. intros call Hin. apply Himp, Hall, Hin.
Qed.

Lemma makes_only_loop_over {A R} (allowed : C -> bool) (body : A -> R -> M W C R)
    (range : list A) :
  (forall x acc, makes_only allowed (body x acc)) ->
  forall acc, makes_only allowed (loop_over body range acc).
Proof.
  intros Hbody. induction range as [|x range IH]; intros acc; simpl.
  - now apply makes_only_pure.
  - apply makes_only_bind; [apply Hbody | exact IH].
Qed.

Lemma makes_only_for_each {A} (allowed : C -> bool) (body : A -> M W C unit)
    (range : list A) :
  (forall x, makes_only allowed (body x)) -> makes_only allowed (for_each body range).
Proof.
  intros Hbody. induction range as [|x range IH]; simpl.
  - now apply makes_only_pure.
  - apply makes_only_bind; [apply Hbody | intros _; exact IH].
Qed.

Lemma keeps_world_pure {A} (c : M W C A) :
  (forall s, snd (c s) = s) -> keeps_world c.
Proof. intros H s. now rewrite H. Qed.

Lemma keeps_world_bind {A B} (c : M W C A) (k : A -> M W C B) :
  keeps_world c -> (forall a, keeps_world (k a)) -> keeps_world (bind c k).
Proof.
  intros Hc Hk s. unfold bind. specialize (Hc s).
  destruct (c s) as [[a|what|] s1]; cbn [snd] in *; trivial.
  now rewrite Hk.
Qed.

Lemma keeps_world_loop_over {A R} (body : A -> R -> M W C R) (range : list A) :
  (forall x acc, keeps_world (body x acc)) ->
  forall acc, keeps_world (loop_over body range acc).
Proof.
  intros Hbody. induction range as [|x range IH]; intros acc; simpl.
  - now apply keeps_world_pure.
  - apply keeps_world_bind; [apply Hbody | exact IH].
Qed.

Lemma asks_only_pure {A} (allowed : C -> bool) (c : M W C A) :
  (forall s, snd (c s) = s) -> asks_only allowed c.
Proof. intros H. split; [now apply makes_only_pure | now apply keeps_world_pure]. Qed.

Lemma asks_only_bind {A B} (allowed : C -> bool) (c : M W C A) (k : A -> M W C B) :
  asks_only allowed c -> (forall a, asks_only allowed (k a)) ->
  asks_only allowed (bind c k).
Proof.
  intros [Hc1 Hc2] Hk. split.
  - apply makes_only_bind; [exact Hc1 | intros a; apply Hk].
  - apply keeps_world_bind; [exact Hc2 | intros a; apply Hk].
Qed.

Lemma asks_only_loop_over {A R} (allowed : C -> bool) (body : A -> R -> M W C R)
    (range : list A) :
  (forall x acc, asks_only allowed (body x acc)) ->
  forall acc, asks_only allowed (loop_over body range acc).
Proof.
  intros Hbody acc. split.
  - apply makes_only_loop_over. intros x a. apply Hbody.
  - apply keeps_world_loop_over. intros x a. apply Hbody.
Qed.

End CallDiscipline.

Section UnixDiscipline.

Context {W : Type} (h : Unix.host W).

Lemma unix_do_stat_asks (path : string) : asks_only Unix.is_query (Unix.do_stat h path).
Proof.
  split; [|now intros s].
  apply (makes_only_call _ _ (Unix.sys_stat path)); [reflexivity |].
  intros s. now eexists _, _.
Qed.

Lemma unix_do_opendir_asks (path : string) :
  asks_only Unix.is_query (Unix.do_opendir h path).
Proof.
  split; [|now intros s].
  apply (makes_only_call _ _ (Unix.sys_opendir path)); [reflexivity |].
  intros s. now eexists _, _.
Qed.

Lemma unix_exists_asks (p : Unix.Path) : asks_only Unix.is_query (Unix.Path_exists h p).
Proof.
  apply asks_only_bind; [apply unix_do_stat_asks | intros a; now apply asks_only_pure].
Qed.

Lemma unix_isDirectory_asks (p : Unix.Path) :
  asks_only Unix.is_query (Unix.Path_isDirectory h p).
Proof.
  apply asks_only_bind; [apply unix_do_stat_asks |].
  intros [m|]; now apply asks_only_pure.
Qed.

Lemma unix_isFile_asks (p : Unix.Path) : asks_only Unix.is_query (Unix.Path_isFile h p).
Proof.
  apply asks_only_bind; [apply unix_do_stat_asks |].
  intros [m|]; now apply asks_only_pure.
Qed.

Lemma unix_list_asks (fuel : nat) :
  forall (this : Unix.Directory) (recursive : bool),
    asks_only Unix.is_query (Unix.Directory_list h fuel this recursive).
Proof.
  induction fuel as [|fuel IH]; intros this recursive; cbn [Unix.Directory_list].
  - now apply asks_only_pure.
  - apply asks_only_bind; [apply unix_do_opendir_asks |].
    intros [entries|]; [|now apply asks_only_pure].
    apply asks_only_loop_over. intros name acc. unfold Unix.list_entry.
    destruct (is_dot_entry name); [now apply asks_only_pure |].
    destruct recursive; [|now apply asks_only_pure].
    apply asks_only_bind; [apply unix_isDirectory_asks |].
    intros [|]; [|now apply asks_only_pure].
    apply asks_only_bind; [apply IH | intros; now apply asks_only_pure].
Qed.

Lemma unix_update_makes (allowed : Unix.syscall -> bool) (call : Unix.syscall)
    (f : W -> option W) :
  allowed call = true ->
  makes_only allowed (fun s => Unix.do_update call (f (world s)) s).
Proof.
  intros Hcall. apply (makes_only_call _ _ call Hcall).
  intros s. unfold Unix.do_update. destruct (f (world s)); now eexists _, _.
Qed.

Lemma unix_file_remove_makes (this : Unix.File) :
  makes_only Unix.is_removal (Unix.File_remove h this).
Proof.
  apply makes_only_bind.
  - apply (unix_update_makes Unix.is_removal (Unix.sys_unlink _)
             (Unix.unlink h _)). reflexivity.
  - intros [|]; now apply makes_only_pure.
Qed.

Lemma unix_remove_self_makes (this : Unix.Directory) :
  makes_only Unix.is_removal (Unix.remove_self h this).
Proof.
  apply makes_only_bind.
  - apply (unix_update_makes Unix.is_removal (Unix.sys_rmdir _) (Unix.rmdir h _)).
    reflexivity.
  - intros [|]; now apply makes_only_pure.
Qed.

Lemma unix_remove_makes (fuel : nat) :
  forall (this : Unix.Directory) (recursive : bool),
    makes_only (fun c => Unix.is_query c || Unix.is_removal c)
               (Unix.Directory_remove h fuel this recursive).
Proof.
  assert (Hq : forall A (c : M W Unix.syscall A),
             makes_only Unix.is_query c ->
             makes_only (fun c => Unix.is_query c || Unix.is_removal c) c).
  { intros A c. apply makes_only_weaken. intros call ->. reflexivity. }
  assert (Hr : forall A (c : M W Unix.syscall A),
             makes_only Unix.is_removal c ->
             makes_only (fun c => Unix.is_query c || Unix.is_removal c) c).
  { intros A c. apply makes_only_weaken. intros call ->. apply orb_true_r. }
  induction fuel as [|fuel IH]; intros this recursive; cbn [Unix.Directory_remove].
  - now apply makes_only_pure.
  - apply makes_only_bind; [|intros _; apply Hr, unix_remove_self_makes].
    destruct recursive; [|now apply makes_only_pure].
    apply makes_only_bind; [apply Hq, unix_list_asks |].
    intros contents. apply makes_only_for_each. intros entry. unfold Unix.remove_entry.
    apply makes_only_bind; [apply Hq, unix_isDirectory_asks |].
    intros [|]; [apply IH | apply Hr, unix_file_remove_makes].
Qed.

End UnixDiscipline.

Section WinDiscipline.

Context {W : Type} (h : Win.host W).

Lemma win_attributes_asks (path : string) :
  asks_only Win.is_query (Win.do_GetFileAttributesA h path).
Proof.
  split; [|now intros s].
  apply (makes_only_call _ _ (Win.sys_GetFileAttributesA path)); [reflexivity |].
  intros s. now eexists _, _.
Qed.

Lemma win_find_asks (pattern : string) :
  asks_only Win.is_query (Win.do_FindFirstFileA h pattern).
Proof.
  split; [|now intros s].
  apply (makes_only_call _ _ (Win.sys_FindFirstFileA pattern)); [reflexivity |].
  intros s. now eexists _, _.
Qed.

Lemma win_exists_asks (p : Win.Path) : asks_only Win.is_query (Win.Path_exists h p).
Proof.
  apply asks_only_bind; [apply win_attributes_asks | intros a; now apply asks_only_pure].
Qed.

Lemma win_isDirectory_asks (p : Win.Path) :
  asks_only Win.is_query (Win.Path_isDirectory h p).
Proof.
  apply asks_only_bind; [apply win_attributes_asks | intros a; now apply asks_only_pure].
Qed.

Lemma win_isFile_asks (p : Win.Path) : asks_only Win.is_query (Win.Path_isFile h p).
Proof.
  apply asks_only_bind; [apply win_attributes_asks | intros a; now apply asks_only_pure].
Qed.

Lemma win_list_asks (fuel : nat) :
  forall (this : Win.Directory) (recursive : bool),
    asks_only Win.is_query (Win.Directory_list h fuel this recursive).
Proof.
  induction fuel as [|fuel IH]; intros this recursive; cbn [Win.Directory_list].
  - now apply asks_only_pure.
  - apply asks_only_bind; [apply win_find_asks |].
    intros [[first next]|]; [|now apply asks_only_pure].
    apply asks_only_loop_over. intros found acc. unfold Win.list_entry.
    destruct (is_dot_entry (Win.cFileName found)); [now apply asks_only_pure |].
    destruct (recursive && _); [|now apply asks_only_pure].
    apply asks_only_bind; [apply IH | intros; now apply asks_only_pure].
Qed.

Lemma win_update_makes (allowed : Win.syscall -> bool) (call : Win.syscall)
    (f : W -> option W) :
  allowed call = true ->
  makes_only allowed (fun s => Win.do_update call (f (world s)) s).
Proof.
  intros Hcall. apply (makes_only_call _ _ call Hcall).
  intros s. unfold Win.do_update. destruct (f (world s)); now eexists _, _.
Qed.

Lemma win_file_remove_makes (this : Win.File) :
  makes_only Win.is_removal (Win.File_remove h this).
Proof.
  apply makes_only_bind.
  - apply (win_update_makes Win.is_removal (Win.sys_DeleteFileA _) (Win.DeleteFileA h _)).
    reflexivity.
  - intros [|]; now apply makes_only_pure.
Qed.

Lemma win_remove_self_makes (this : Win.Directory) :
  makes_only Win.is_removal (Win.remove_self h this).
Proof.
  apply makes_only_bind.
  - apply (win_update_makes Win.is_removal (Win.sys_RemoveDirectoryA _)
             (Win.RemoveDirectoryA h _)). reflexivity.
  - intros [|]; now apply makes_only_pure.
Qed.

Lemma win_remove_makes (fuel : nat) :
  forall (this : Win.Directory) (recursive : bool),
    makes_only (fun c => Win.is_query c || Win.is_removal c)
               (Win.Directory_remove h fuel this recursive).
Proof.
  assert (Hq : forall A (c : M W Win.syscall A),
             makes_only Win.is_query c ->
             makes_only (fun c => Win.is_query c || Win.is_removal c) c).
  { intros A c. apply makes_only_weaken. intros call ->. reflexivity. }
  assert (Hr : forall A (c : M W Win.syscall A),
             makes_only Win.is_removal c ->
             makes_only (fun c => Win.is_query c || Win.is_removal c) c).
  { intros A c. apply makes_only_weaken. intros call ->. apply orb_true_r. }
  induction fuel as [|fuel IH]; intros this recursive; cbn [Win.Directory_remove].
  - now apply makes_only_pure.
  - apply makes_only_bind; [|intros _; apply Hr, win_remove_self_makes].
    destruct recursive; [|now apply makes_only_pure].
    apply makes_only_bind; [apply Hq, win_list_asks |].
    intros contents. apply makes_only_for_each. intros entry. unfold Win.remove_entry.
    apply makes_only_bind; [apply Hq, win_isDirectory_asks |].
    intros [|]; [apply IH | apply Hr, win_file_remove_makes].
Qed.

End WinDiscipline.

(** X7.  The probes and the listing only ask the host: [Path::exists],
    [isDirectory], [isFile], [File::exists], [Directory::exists] and
    [Directory::list] (recursive or not) make no host call other than the
    lookup and the enumeration, and leave the host's world as it was.  On
    both implementations. *)
Theorem probes_and_listing_only_ask :
  (forall W (h : Unix.host W),
     (forall p, asks_only Unix.is_query (Unix.Path_exists h p) /\
                asks_only Unix.is_query (Unix.Path_isDirectory h p) /\
                asks_only Unix.is_query (Unix.Path_isFile h p)) /\
     (forall f, asks_only Unix.is_query (Unix.File_exists h f)) /\
     (forall d, asks_only Unix.is_query (Unix.Directory_exists h d)) /\
     (forall fuel d recursive,
        asks_only Unix.is_query (Unix.Directory_list h fuel d recursive)))
  /\
  (forall W (h : Win.host W),
     (forall p, asks_only Win.is_query (Win.Path_exists h p) /\
                asks_only Win.is_query (Win.Path_isDirectory h p) /\
                asks_only Win.is_query (Win.Path_isFile h p)) /\
     (forall f, asks_only Win.is_query (Win.File_exists h f)) /\
     (forall d, asks_only Win.is_query (Win.Directory_exists h d)) /\
     (forall fuel d recursive,
        asks_only Win.is_query (Win.Directory_list h fuel d recursive))).
Proof.
  split; intros W h; (split; [|split; [|split]]).
  - intros p. split; [|split];
      [apply unix_exists_asks | apply unix_isDirectory_asks | apply unix_isFile_asks].
  - intros f. apply asks_only_bind; [apply unix_exists_asks |].
    intros [|]; [apply unix_isFile_asks | now apply asks_only_pure].
  - intros d. apply asks_only_bind; [apply unix_exists_asks |].
    intros [|]; [apply unix_isDirectory_asks | now apply asks_only_pure].
  - intros fuel d recursive. apply unix_list_asks.
  - intros p. split; [|split];
      [apply win_exists_asks | apply win_isDirectory_asks | apply win_isFile_asks].
  - intros f. apply asks_only_bind; [apply win_exists_asks |].
    intros [|]; [apply win_isFile_asks | now apply asks_only_pure].
  - intros d. apply asks_only_bind; [apply win_exists_asks |].
    intros [|]; [apply win_isDirectory_asks | now apply asks_only_pure].
  - intros fuel d recursive. apply win_list_asks.
Qed.

(** X8.  [Directory::remove] only asks and deletes: whatever the tree and
    however it ends, every host call it makes is a lookup, an enumeration,
    the deletion of a file or the removal of a directory; it creates,
    renames and writes nothing.  Without recursion it makes one call, the
    removal of the directory itself.  On both implementations. *)
Theorem remove_only_asks_and_deletes :
  (forall W (h : Unix.host W) (this : Unix.Directory) (fuel : nat),
     (forall recursive,
        makes_only (fun c => Unix.is_query c || Unix.is_removal c)
                   (Unix.Directory_remove h fuel this recursive)) /\
     (forall s, exists ok,
        trace (snd (Unix.Directory_remove h (S fuel) this false s)) =
        (trace s ++ [(Unix.sys_rmdir (Unix.Path_toString (Unix.Directory_m_path this)), ok)])%list))
  /\
  (forall W (h : Win.host W) (this : Win.Directory) (fuel : nat),
     (forall recursive,
        makes_only (fun c => Win.is_query c || Win.is_removal c)
                   (Win.Directory_remove h fuel this recursive)) /\
     (forall s, exists ok,
        trace (snd (Win.Directory_remove h (S fuel) this false s)) =
        (trace s ++ [(Win.sys_RemoveDirectoryA
                        (Win.Path_toString (Win.Directory_m_path this)), ok)])%list)).
Proof.
  split; intros W h this fuel; split.
  - intros recursive. apply unix_remove_makes.
  - intros s. cbn [Unix.Directory_remove].
    unfold bind, ret, Unix.remove_self, bind, Unix.do_rmdir, Unix.do_update.
    destruct (Unix.rmdir h _ (world s)); now eexists.
  - intros recursive. apply win_remove_makes.
  - intros s. cbn [Win.Directory_remove].
    unfold bind, ret, Win.remove_self, bind, Win.do_RemoveDirectoryA, Win.do_update.
    destruct (Win.RemoveDirectoryA h _ (world s)); now eexists.
Qed.

Section ExistsFacts.

Lemma unix_kinds_exclusive (st_mode : Z) :
  Unix.S_ISREG st_mode = true -> Unix.S_ISDIR st_mode = false.
Proof.
  unfold Unix.S_ISREG, Unix.S_ISDIR. intros H. apply Z.eqb_eq in H. rewrite H.
  reflexivity.
Qed.

Lemma unix_file_exists_value {W} (h : Unix.host W) (f : Unix.File)
    (s : machine W Unix.syscall) :
  fst (Unix.File_exists h f s) = fst (Unix.Path_isFile h (Unix.File_m_path f) s).
Proof.
  unfold Unix.File_exists, bind. rewrite unix_exists_run, unix_isFile_run.
  destruct (Unix.stat h _ (world s)) eqn:E; cbn [isSome fst]; [|reflexivity].
  rewrite unix_isFile_run. cbn [world host_call fst]. now rewrite E.
Qed.

Lemma unix_directory_exists_value {W} (h : Unix.host W) (d : Unix.Directory)
    (s : machine W Unix.syscall) :
  fst (Unix.Directory_exists h d s)
  = fst (Unix.Path_isDirectory h (Unix.Directory_m_path d) s).
Proof.
  unfold Unix.Directory_exists, bind. rewrite unix_exists_run, unix_isDirectory_run.
  unfold Unix.is_directory.
  destruct (Unix.stat h _ (world s)) eqn:E; cbn [isSome fst]; [|reflexivity].
  rewrite unix_isDirectory_run. unfold Unix.is_directory.
  cbn [world host_call fst]. now rewrite E.
Qed.

Lemma win_file_exists_value {W} (h : Win.host W) (f : Win.File)
    (s : machine W Win.syscall) :
  fst (Win.File_exists h f s) = fst (Win.Path_isFile h (Win.File_m_path f) s).
Proof.
  unfold Win.File_exists, Win.Path_exists, Win.Path_isFile, bind,
    Win.do_GetFileAttributesA, ret.
  destruct (negb (Win.GetFileAttributesA h _ (world s) =? _)%Z) eqn:E;
    cbn [world host_call fst]; now rewrite ?E.
Qed.

Lemma win_directory_exists_value {W} (h : Win.host W) (d : Win.Directory)
    (s : machine W Win.syscall) :
  fst (Win.Directory_exists h d s)
  = fst (Win.Path_isDirectory h (Win.Directory_m_path d) s).
Proof.
  unfold Win.Directory_exists, Win.Path_exists, Win.Path_isDirectory, bind,
    Win.do_GetFileAttributesA, ret.
  destruct (negb (Win.GetFileAttributesA h _ (world s) =? _)%Z) eqn:E;
    cbn [world host_call fst]; now rewrite ?E.
Qed.

End ExistsFacts.

(** X9.  The first half of [m_path.exists() && m_path.isFile()] decides
    nothing: [File::exists] returns what [Path::isFile] returns, and
    [Directory::exists] what [Path::isDirectory] returns, in every state.
    On both implementations. *)
Theorem exists_is_the_kind_probe :
  (forall W (h : Unix.host W) (s : machine W Unix.syscall),
     (forall f, fst (Unix.File_exists h f s)
                = fst (Unix.Path_isFile h (Unix.File_m_path f) s)) /\
     (forall d, fst (Unix.Directory_exists h d s)
                = fst (Unix.Path_isDirectory h (Unix.Directory_m_path d) s)))
  /\
  (forall W (h : Win.host W) (s : machine W Win.syscall),
     (forall f, fst (Win.File_exists h f s)
                = fst (Win.Path_isFile h (Win.File_m_path f) s)) /\
     (forall d, fst (Win.Directory_exists h d s)
                = fst (Win.Path_isDirectory h (Win.Directory_m_path d) s))).
Proof.
  split; intros W h s; split; intros x.
  - apply unix_file_exists_value.
  - apply unix_directory_exists_value.
  - apply win_file_exists_value.
  - apply win_directory_exists_value.
Qed.

(** X10.  No path is a file and a directory at once: in a state where
    [File::exists] returns true for a path, [Directory::exists] returns
    false for it.  On both implementations. *)
Theorem file_and_directory_exclude :
  (forall W (h : Unix.host W) (p : Unix.Path) (s : machine W Unix.syscall),
     fst (Unix.File_exists h (Unix.mkFile p) s) = Returns true ->
     fst (Unix.Directory_exists h (Unix.mkDirectory p) s) = Returns false)
  /\
  (forall W (h : Win.host W) (p : Win.Path) (s : machine W Win.syscall),
     fst (Win.File_exists h (Win.mkFile p) s) = Returns true ->
     fst (Win.Directory_exists h (Win.mkDirectory p) s) = Returns false).
Proof.
  split; intros W h p s.
  - rewrite unix_file_exists_value, unix_directory_exists_value.
    cbn [Unix.File_m_path Unix.Directory_m_path].
    rewrite unix_isFile_run, unix_isDirectory_run. unfold Unix.is_directory.
    cbn [fst]. destruct (Unix.stat h _ (world s)) as [m|]; [|discriminate].
    intros [= H]. now rewrite (unix_kinds_exclusive m H).
  - rewrite win_file_exists_value, win_directory_exists_value.
    cbn [Win.File_m_path Win.Directory_m_path].
    unfold Win.Path_isFile, Win.Path_isDirectory, bind, Win.do_GetFileAttributesA, ret.
    cbn [fst]. intros [= H]. apply andb_prop in H as [-> H].
    apply negb_true_iff in H. now rewrite H.
Qed.

(** On the model host: a file of the sample disk. *)
Lemma file_and_directory_exclude_witness :
  fst (Unix.Directory_exists unix_host (unix_dir "/tmp/d/file1.txt") (boot listing))
  = Returns false.
Proof.
  refine (proj1 file_and_directory_exclude disk unix_host
                (Unix.Path_Path "/tmp/d/file1.txt") (boot listing) _).
  vm_compute. reflexivity.
Defined.

Section ShallowInDeep.

Lemma subsequence_refl {A} (l : list A) : subsequence l l.
Proof. induction l; constructor; assumption. Qed.

Lemma subsequence_app_skip {A} (skipped l l' : list A) :
  subsequence l l' -> subsequence l (skipped ++ l').
Proof.
  intros H. induction skipped as [|x skipped IH]; [exact H |].
  simpl. now constructor.
Qed.

Lemma subsequence_flat_map {A} (below : A -> list A) (l : list A) :
  subsequence l (flat_map (fun c => c :: below c) l).
Proof.
  induction l as [|c l IH]; simpl; [constructor |].
  apply subsequence_keep, subsequence_app_skip, IH.
Qed.

Lemma subsequence_map_flat_map {A B} (f : A -> B) (below : A -> list B) (l : list A) :
  subsequence (map f l) (flat_map (fun a => f a :: below a) l).
Proof.
  induction l as [|a l IH]; simpl; [constructor |].
  apply subsequence_keep, subsequence_app_skip, IH.
Qed.

End ShallowInDeep.

(** X11.  The plain listing is the recursive listing with the deeper
    entries left out: on a tree that nests less deep than the recursion
    budget, [list(false)] is a subsequence of [list(true)], so the
    immediate children keep their order in the recursive listing.  On both
    implementations. *)
Theorem plain_listing_within_recursive :
  (forall W (h : Unix.host W) (this : Unix.Directory) (s : machine W Unix.syscall)
          (depth fuel : nat),
     Unix.depth_within h (world s) depth this = true -> depth <= fuel ->
     exists shallow deep,
       fst (Unix.Directory_list h fuel this false s) = Returns shallow /\
       fst (Unix.Directory_list h fuel this true s) = Returns deep /\
       subsequence shallow deep)
  /\
  (forall W (h : Win.host W) (this : Win.Directory) (s : machine W Win.syscall)
          (depth fuel : nat),
     Win.depth_within h (world s) depth this = true -> depth <= fuel ->
     exists shallow deep,
       fst (Win.Directory_list h fuel this false s) = Returns shallow /\
       fst (Win.Directory_list h fuel this true s) = Returns deep /\
       subsequence shallow deep).
Proof.
  split; intros W h this s depth fuel Hdepth Hfuel.
  - destruct (unix_list_true h depth fuel this s Hdepth Hfuel) as (s' & Hdeep & _).
    destruct depth as [|k]; [discriminate |]. destruct fuel as [|fuel]; [lia |].
    exists (Unix.spec_children h (world s) this),
           (Unix.spec_preorder h (world s) (S k) this).
    split; [now rewrite unix_list_false | split; [now rewrite Hdeep |]].
    apply subsequence_flat_map.
  - destruct (win_list_true h depth fuel this s Hdepth Hfuel) as (s' & Hdeep & _).
    destruct depth as [|k]; [discriminate |]. destruct fuel as [|fuel]; [lia |].
    exists (Win.spec_children h (world s) this),
           (Win.spec_preorder h (world s) (S k) this).
    split; [now rewrite win_list_false | split; [now rewrite Hdeep |]].
    apply subsequence_map_flat_map.
Qed.

(** The test "Directory listing": three entries among the four. *)
Lemma plain_listing_within_witness :
  exists shallow deep,
    fst (Unix.Directory_list unix_host 2 (unix_dir "/tmp/d") false (boot listing))
    = Returns shallow /\
    fst (Unix.Directory_list unix_host 2 (unix_dir "/tmp/d") true (boot listing))
    = Returns deep /\
    subsequence shallow deep.
Proof.
  refine (proj1 plain_listing_within_recursive disk unix_host (unix_dir "/tmp/d")
                (boot listing) 2 2 _ _).
  - vm_compute. reflexivity.
  - apply le_n.
Defined.

(** X12.  The fallback of the POSIX-like [File::move] is not atomic: when
    the rename fails, the copy returns and the source then cannot be
    unlinked, the move throws "Could not delete file" in the world the copy
    left, where the destination has been written and the source is still
    there. *)
Theorem move_may_leave_both_files :
  forall W (h : Unix.host W) (this : Unix.File) (destination : Unix.Path)
         (s s1 : machine W Unix.syscall),
    let src := Unix.Path_toString (Unix.File_m_path this) in
    let dst := Unix.Path_toString destination in
    Unix.rename h src dst (world s) = None ->
    Unix.File_copy h this destination
      (host_call (Unix.sys_rename src dst) false (world s) s) = (Returns tt, s1) ->
    Unix.unlink h src (world s1) = None ->
    Unix.File_move h this destination s =
    (Throws "Could not delete file", host_call (Unix.sys_unlink src) false (world s1) s1).
Proof.
  intros W h this destination s s1 src dst Hrename Hcopy Hunlink.
  rewrite unix_move_fallback by exact Hrename. fold src dst.
  unfold bind at 1. rewrite Hcopy.
  unfold Unix.File_remove, bind, Unix.do_unlink, Unix.do_update. fold src.
  now rewrite Hunlink.
Qed.

(** On a host whose directories are read-only: the copy is made, the
    source stays. *)
Lemma move_may_leave_both_witness :
  Unix.File_move read_only_dirs (unix_file "/tmp/a.txt") (Unix.Path_Path "/mnt/usb/b.txt")
    (boot two_devices) =
  (Throws "Could not delete file",
   Machine
     [ ("/tmp", Folder ["a.txt"]); ("/tmp/a.txt", RegularFile "Test content");
       ("/mnt", Folder ["usb"]); ("/mnt/usb", Folder ["b.txt"]);
       ("/mnt/usb/b.txt", RegularFile "Test content") ]
     [ (Unix.sys_rename "/tmp/a.txt" "/mnt/usb/b.txt", false);
       (Unix.sys_ifstream "/tmp/a.txt", true);
       (Unix.sys_ofstream "/mnt/usb/b.txt", true);
       (Unix.sys_stream_copy "/tmp/a.txt" "/mnt/usb/b.txt", true);
       (Unix.sys_unlink "/tmp/a.txt", false) ]).
Proof.
  refine (eq_trans
            (move_may_leave_both_files disk read_only_dirs (unix_file "/tmp/a.txt")
               (Unix.Path_Path "/mnt/usb/b.txt") (boot two_devices) _ _ _ _) _).
  - vm_compute. reflexivity.
  - vm_compute. reflexivity.
  - vm_compute. reflexivity.
  - vm_compute. reflexivity.
Defined.

(** ** File contents *)

Section StreamFacts.

Context {W : Type} (io : Unix.stream_host W).

Lemma unix_write_run (path content : string) (s : machine W Unix.stream_call) :
  (opened <- Unix.open_for_writing io path ;;
   if negb opened then throw "Could not open file for writing"
   else Unix.write_stream io path content) s =
  match Unix.ofstream_is_open io path (world s) with
  | Some w' =>
      (Returns tt,
       host_call (Unix.call_write path content) true (Unix.stream_write io path content w')
         (host_call (Unix.call_ofstream path) true w' s))
  | None =>
      (Throws "Could not open file for writing",
       host_call (Unix.call_ofstream path) false (world s) s)
  end.
Proof.
  unfold bind, Unix.open_for_writing, Unix.write_stream.
  now destruct (Unix.ofstream_is_open io path (world s)).
Qed.

Lemma unix_written_reads_back (this : Unix.File) (content : string)
    (s s1 : machine W Unix.stream_call) :
  let path := Unix.Path_toString (Unix.File_m_path this) in
  (forall w', Unix.ofstream_is_open io path (world s) = Some w' ->
     let written := Unix.stream_write io path content w' in
     Unix.ifstream_is_open io path written = true /\
     Unix.rdbuf io path written = content /\
     Unix.st_size io path written = Some (Z.of_nat (String.length content))) ->
  (opened <- Unix.open_for_writing io path ;;
   if negb opened then throw "Could not open file for writing"
   else Unix.write_stream io path content) s = (Returns tt, s1) ->
  fst (Unix.File_readAsText io this s1) = Returns content /\
  fst (Unix.File_size io this s1) = Returns (Z.of_nat (String.length content)).
Proof.
  intros path Hlaw. rewrite unix_write_run.
  destruct (Unix.ofstream_is_open io path (world s)) as [w'|]; [|discriminate].
  intros [= <-]. destruct (Hlaw w' eq_refl) as (Hopen & Hread & Hsize).
  unfold Unix.File_readAsText, Unix.File_size, bind, Unix.open_for_reading.
  fold path. cbn [world host_call fst]. rewrite Hopen, Hsize. cbn [negb fst world host_call].
  now rewrite Hread.
Qed.

End StreamFacts.

Lemma length_string_of_list_byte (bytes : list Byte.byte) :
  String.length (string_of_list_byte bytes) = List.length bytes.
Proof.
  unfold string_of_list_byte.
  induction bytes as [|b bytes IH]; simpl; [reflexivity | now rewrite IH].
Qed.

(** X13.  What [File::writeText] writes, [File::readAsText] reads back and
    [File::size] measures: on a host whose streams give back what was
    written to them, after a [writeText] that returned, [readAsText]
    returns the same string and [size] its length.  The same after
    [writeBinary], every byte of the vector kept.  When the file cannot be
    opened for writing, both throw and the host's world is untouched.
    (POSIX-like implementation.) *)
Theorem written_content_reads_back :
  forall W (io : Unix.stream_host W) (this : Unix.File) (s : machine W Unix.stream_call),
    let path := Unix.Path_toString (Unix.File_m_path this) in
    (forall content s1,
       (forall w', Unix.ofstream_is_open io path (world s) = Some w' ->
          let written := Unix.stream_write io path content w' in
          Unix.ifstream_is_open io path written = true /\
          Unix.rdbuf io path written = content /\
          Unix.st_size io path written = Some (Z.of_nat (String.length content))) ->
       Unix.File_writeText io this content s = (Returns tt, s1) ->
       fst (Unix.File_readAsText io this s1) = Returns content /\
       fst (Unix.File_size io this s1) = Returns (Z.of_nat (String.length content))) /\
    (forall bytes s1,
       (forall w', Unix.ofstream_is_open io path (world s) = Some w' ->
          let written := Unix.stream_write io path (string_of_list_byte bytes) w' in
          Unix.ifstream_is_open io path written = true /\
          Unix.rdbuf io path written = string_of_list_byte bytes /\
          Unix.st_size io path written
          = Some (Z.of_nat (String.length (string_of_list_byte bytes)))) ->
       Unix.File_writeBinary io this bytes s = (Returns tt, s1) ->
       (exists text, fst (Unix.File_readAsText io this s1) = Returns text /\
                     list_byte_of_string text = bytes) /\
       fst (Unix.File_size io this s1) = Returns (Z.of_nat (List.length bytes))) /\
    (Unix.ofstream_is_open io path (world s) = None ->
     forall content bytes,
       (fst (Unix.File_writeText io this content s)
        = Throws "Could not open file for writing" /\
        world (snd (Unix.File_writeText io this content s)) = world s) /\
       (fst (Unix.File_writeBinary io this bytes s)
        = Throws "Could not open file for writing" /\
        world (snd (Unix.File_writeBinary io this bytes s)) = world s)).
Proof.
  intros W io this s path. split; [|split].
  - intros content s1 Hlaw Hwrite.
    now apply (unix_written_reads_back io this content s s1).
  - intros bytes s1 Hlaw Hwrite.
    destruct (unix_written_reads_back io this (string_of_list_byte bytes) s s1 Hlaw Hwrite)
      as [Hread Hsize].
    split.
    + eexists. split; [exact Hread |]. apply list_byte_of_string_of_list_byte.
    + now rewrite Hsize, length_string_of_list_byte.
  - intros Hclosed content bytes.
    unfold Unix.File_writeText, Unix.File_writeBinary. fold path.
    rewrite !unix_write_run, Hclosed. now repeat split.
Qed.

(** The test "File creation and read/write" on the model disk. *)
Lemma written_content_witness :
  let this := unix_file "/tmp/d/crossdev-test-file.txt" in
  let written :=
    snd (Unix.File_writeText unix_streams this "Hello, CrossDev Toolkit!" (boot listing)) in
  fst (Unix.File_readAsText unix_streams this written) = Returns "Hello, CrossDev Toolkit!" /\
  fst (Unix.File_size unix_streams this written) = Returns 24%Z.
Proof.
  refine (proj1 (written_content_reads_back disk unix_streams
                   (unix_file "/tmp/d/crossdev-test-file.txt") (boot listing))
                "Hello, CrossDev Toolkit!" _ _ _).
  - intros w' H. vm_compute in H. injection H as <-. vm_compute. repeat split.
  - vm_compute. reflexivity.
Defined.


